(** * JoinJS result-set mapper: a shallow embedding of [src/dist/index.js]

    The JavaScript module maps a flat, joined result set to a graph of
    nested objects, driven by a list of result maps.  The embedding below
    follows the source function by function.

    Modelling conventions.
    - A column value is a JavaScript primitive ([Scalar]).  Numbers are
      integers ([Z]); [NaN], signed zero and fractions are outside the model.
    - A mapped object is the ordered list of its own properties, in insertion
      order.  Property names inherited from [Object.prototype] (such as
      [constructor] or [toString]) and names that are array indices (which
      JavaScript enumerates first) are outside the model: a name that is
      not an own property reads as [undefined].
    - A row is the list of its columns in the order of [Object.keys].
    - Every mapped object has a single owner (the array or the field that
      holds it), so mutation in place is a functional update of the owner.
    - The result maps are shared and mutated by the code (lazy property
      inference, defaulting of identity columns): they are threaded as the
      state of a small state-and-error monad.
    - Recursion follows the result maps, which may be cyclic: the recursive
      functions take a fuel argument that bounds the nesting depth. *)

From Stdlib Require Import List String Ascii ZArith Bool Arith Lia.
Import ListNotations.
Open Scope string_scope.

Set Warnings "-register-all".

(* ================================================================= *)
(** ** JavaScript values *)

Inductive Scalar : Type :=
| SUndef
| SNull
| SBool (b : bool)
| SNum (n : Z)
| SStr (s : string).

(** Mapped values: a primitive, an object, or an array of objects. *)
Inductive Val : Type :=
| VS (s : Scalar)
| VO (fields : list (string * Val))
| VA (items : list (list (string * Val))).

Definition Obj : Type := list (string * Val).
Definition Row : Type := list (string * Scalar).

Definition undefined : Val := VS SUndef.
Definition null : Val := VS SNull.

(** [ToBoolean] on primitives: [undefined], [null], [false], [0] and the
    empty string are falsy. *)
Definition scalar_truthy (s : Scalar) : bool :=
  match s with
  | SUndef => false
  | SNull => false
  | SBool b => b
  | SNum n => negb (n =? 0)%Z
  | SStr s => negb (s =? "")
  end.

Definition truthy (v : Val) : bool :=
  match v with
  | VS s => scalar_truthy s
  | VO _ => true
  | VA _ => true
  end.

(** [a === b] on primitives. *)
Definition scalar_eqb (a b : Scalar) : bool :=
  match a, b with
  | SUndef, SUndef => true
  | SNull, SNull => true
  | SBool x, SBool y => Bool.eqb x y
  | SNum x, SNum y => (x =? y)%Z
  | SStr x, SStr y => (x =? y)
  | _, _ => false
  end.

(** [v !== s] where [s] is a primitive read from a row: an object or an
    array is never strictly equal to a primitive. *)
Definition strict_neq (v : Val) (s : Scalar) : bool :=
  match v with
  | VS s' => negb (scalar_eqb s' s)
  | _ => true
  end.

(** [s !== null] *)
Definition not_null (s : Scalar) : bool :=
  match s with
  | SNull => false
  | _ => true
  end.

(* ----------------------------------------------------------------- *)
(** *** Property access *)

(** [o[k]] *)
Fixpoint get (o : Obj) (k : string) : Val :=
  match o with
  | [] => undefined
  | (k', v) :: rest => if k' =? k then v else get rest k
  end.

(** [o[k] = v]: an existing property keeps its position, a new one is added
    last. *)
Fixpoint set (o : Obj) (k : string) (v : Val) : Obj :=
  match o with
  | [] => [(k, v)]
  | (k', v') :: rest =>
      if k' =? k then (k', v) :: rest else (k', v') :: set rest k v
  end.

(** [result[k]] on a row. *)
Fixpoint row_get (result : Row) (k : string) : Scalar :=
  match result with
  | [] => SUndef
  | (k', v) :: rest => if k' =? k then v else row_get rest k
  end.

(** [Object.keys(result)] *)
Definition row_keys (result : Row) : list string := List.map fst result.

(* ----------------------------------------------------------------- *)
(** *** String primitives *)

(** [field.startsWith(p)] *)
Definition startsWith (field p : string) : bool := String.prefix p field.

Fixpoint drop (n : nat) (s : string) : string :=
  match n, s with
  | O, _ => s
  | S n', String _ s' => drop n' s'
  | S _, EmptyString => EmptyString
  end.

(** [field.replace(p, '')] with a string pattern: the first occurrence of
    [p] is removed. *)
Fixpoint replace_first (p field : string) : string :=
  if String.prefix p field then drop (String.length p) field
  else match field with
       | EmptyString => EmptyString
       | String c rest => String c (replace_first p rest)
       end.

(* ================================================================= *)
(** ** Result maps *)

(** [{name, column}] with an optional column. *)
Record Field : Type := mkField {
  f_name : string;
  f_column : option string
}.

(** An element of [idProperty] or [properties]: string shorthand or object. *)
Inductive FieldSpec : Type :=
| FStr (s : string)
| FObj (f : Field).

(** [idProperty]: a single element or an array of elements. *)
Inductive IdSpec : Type :=
| IdOne (e : FieldSpec)
| IdMany (l : list FieldSpec).

(** An association or a collection: [{name, mapId, columnPrefix}]. *)
Record Nested : Type := mkNested {
  n_name : string;
  n_mapId : string;
  n_columnPrefix : option string
}.

(** A result map.  [createNew] is a pure factory: it is modelled by the
    object it returns, a fresh copy at every call. *)
Record ResultMap : Type := mkResultMap {
  rm_mapId : string;
  rm_idProperty : option IdSpec;
  rm_properties : option (list FieldSpec);
  rm_associations : option (list Nested);
  rm_collections : option (list Nested);
  rm_createNew : option Obj
}.

Definition Maps : Type := list ResultMap.

(** A resolved identity field: both name and column are known. *)
Record IdField : Type := mkIdField {
  name : string;
  column : string
}.

(** [!column] on an optional string. *)
Definition column_falsy (c : option string) : bool :=
  match c with
  | None => true
  | Some s => s =? ""
  end.

(** The callback of [idProperties.map] in [getIdProperty]: returns the
    resolved pair and the element as the call leaves it (an object without
    column has its column written). *)
Definition resolveIdElem (e : FieldSpec) : IdField * FieldSpec :=
  match e with
  | FStr s => (mkIdField s s, FStr s)
  | FObj f =>
      if column_falsy (f_column f)
      then (mkIdField (f_name f) (f_name f),
            FObj (mkField (f_name f) (Some (f_name f))))
      else (mkIdField (f_name f)
              (match f_column f with Some c => c | None => f_name f end),
            FObj f)
  end.

(** [!resultMap.idProperty] *)
Definition idProperty_falsy (i : option IdSpec) : bool :=
  match i with
  | None => true
  | Some (IdOne (FStr s)) => s =? ""
  | Some _ => false
  end.

Definition set_idProperty (rm : ResultMap) (i : option IdSpec) : ResultMap :=
  mkResultMap (rm_mapId rm) i (rm_properties rm) (rm_associations rm)
              (rm_collections rm) (rm_createNew rm).

Definition set_properties (rm : ResultMap) (p : option (list FieldSpec))
  : ResultMap :=
  mkResultMap (rm_mapId rm) (rm_idProperty rm) p (rm_associations rm)
              (rm_collections rm) (rm_createNew rm).

(** [getIdProperty(resultMap)]: the resolved identity fields, and the
    result map as the call leaves it. *)
Definition getIdProperty (resultMap : ResultMap) : list IdField * ResultMap :=
  if idProperty_falsy (rm_idProperty resultMap)
  then ([mkIdField "id" "id"], resultMap)
  else
    match rm_idProperty resultMap with
    | None => ([mkIdField "id" "id"], resultMap)
    | Some (IdOne e) =>
        let r := resolveIdElem e in
        ([fst r], set_idProperty resultMap (Some (IdOne (snd r))))
    | Some (IdMany l) =>
        let rs := List.map resolveIdElem l in
        (List.map fst rs,
         set_idProperty resultMap (Some (IdMany (List.map snd rs))))
    end.

(** [createMappedObject(resultMap)] *)
Definition createMappedObject (resultMap : ResultMap) : Obj :=
  match rm_createNew resultMap with
  | Some o => o
  | None => []
  end.

(* ================================================================= *)
(** ** Errors and the state of the result maps *)

Inductive Err : Type :=
| TypeError                       (* thrown by the JavaScript runtime *)
| NotFoundError (message : Scalar) (* thrown by [mapOne] *)
| OutOfFuel                       (* the nesting bound of the model *)
| Unmodelled.                     (* an association slot holding a truthy
                                     value that is not a mapped object *)

Inductive Res (A : Type) : Type :=
| Ok (a : A)
| Throw (e : Err).

Arguments Ok {A} a.
Arguments Throw {A} e.

(** A computation that reads and mutates the shared result maps and may
    throw. *)
Definition M (A : Type) : Type := Maps -> Res (A * Maps).

Definition ret {A : Type} (a : A) : M A := fun maps => Ok (a, maps).

Definition bind {A B : Type} (m : M A) (k : A -> M B) : M B :=
  fun maps =>
    match m maps with
    | Ok (a, maps') => k a maps'
    | Throw e => Throw e
    end.

Definition throw {A : Type} (e : Err) : M A := fun _ => Throw e.

Notation "x <- c ;; k" := (bind c (fun x => k))
  (at level 61, c at next level, right associativity).

(** [list.forEach] with a callback that updates an accumulator. *)
Fixpoint forEachM {A B : Type} (f : A -> B -> M A) (l : list B) (a : A) : M A :=
  match l with
  | [] => ret a
  | x :: rest => a' <- f a x ;; forEachM f rest a'
  end.

(** [maps.find(map => map.mapId === mapId)] *)
Fixpoint find_map (maps : Maps) (mapId : string) : option ResultMap :=
  match maps with
  | [] => None
  | m :: rest => if rm_mapId m =? mapId then Some m else find_map rest mapId
  end.

(** A result map found by [find_map] is an alias into [maps]: a write to it
    is a write to the first entry with its [mapId]. *)
Fixpoint store_map (maps : Maps) (rm : ResultMap) : Maps :=
  match maps with
  | [] => []
  | m :: rest =>
      if rm_mapId m =? rm_mapId rm then rm :: rest
      else m :: store_map rest rm
  end.

(** The lookup, together with the [TypeError] that the first property read
    on [undefined] raises when no result map has that [mapId]. *)
Definition findResultMap (mapId : string) : M ResultMap :=
  fun maps =>
    match find_map maps mapId with
    | Some rm => Ok (rm, maps)
    | None => Throw TypeError
    end.

Definition writeResultMap (rm : ResultMap) : M unit :=
  fun maps => Ok (tt, store_map maps rm).

(** [getIdProperty(resultMap)] on a result map of [maps]. *)
Definition getIdPropertyM (resultMap : ResultMap) : M (list IdField) :=
  _ <- writeResultMap (snd (getIdProperty resultMap)) ;;
  ret (fst (getIdProperty resultMap)).

(* ================================================================= *)
(** ** The mapper *)

(** An absent or [undefined] [columnPrefix] argument defaults to [''] . *)
Definition defaultPrefix (columnPrefix : option string) : string :=
  match columnPrefix with
  | Some p => p
  | None => ""
  end.

(** [association.columnPrefix + field.column]: no default is applied here,
    string concatenation turns [undefined] into the text [undefined]. *)
Definition concatPrefix (columnPrefix : option string) (c : string) : string :=
  match columnPrefix with
  | Some p => p ++ c
  | None => "undefined" ++ c
  end.

(** The [reduce] over [Object.keys(result)] that infers [properties]. *)
Definition inferProperties (result : Row) (columnPrefix : string)
  : list FieldSpec :=
  fold_left
    (fun acc field =>
       if startsWith field columnPrefix
       then (acc ++ [FStr (replace_first columnPrefix field)])%list
       else acc)
    (row_keys result) [].

(** The callback of [idProperty.forEach] in [injectResultInObject]. *)
Definition copyIdField (result : Row) (columnPrefix : string)
           (mappedObject : Obj) (field : IdField) : Obj :=
  if negb (truthy (get mappedObject (name field)))
  then set mappedObject (name field)
           (VS (row_get result (columnPrefix ++ column field)))
  else mappedObject.

(** The callback of [properties.forEach]. *)
Definition copyProperty (result : Row) (columnPrefix : string)
           (mappedObject : Obj) (property : FieldSpec) : Obj :=
  let property :=
    match property with
    | FStr s => mkField s (Some s)
    | FObj f => f
    end in
  if negb (truthy (get mappedObject (f_name property)))
  then
    let column :=
      match f_column property with
      | Some c => if c =? "" then f_name property else c
      | None => f_name property
      end in
    set mappedObject (f_name property)
        (VS (row_get result (columnPrefix ++ column)))
  else mappedObject.

(** The [reduce] that builds [predicate] in [injectResultInCollection]. *)
Definition buildPredicate (result : Row) (columnPrefix : string)
           (idProperty : list IdField) : Obj :=
  fold_left
    (fun accumulator field =>
       set accumulator (name field)
           (VS (row_get result (columnPrefix ++ column field))))
    idProperty [].

(** [a !== b] with [b] a property of [predicate], always a primitive. *)
Definition strict_neq_val (a b : Val) : bool :=
  match b with
  | VS s => strict_neq a s
  | _ => true
  end.

(** The callback of [mappedCollection.find]. *)
Definition matchesPredicate (predicate : Obj) (item : Obj) : bool :=
  forallb (fun kv => negb (strict_neq_val (get item (fst kv)) (snd kv)))
          predicate.

(** [idProperty.every(field => result[prefix + field.column] !== null)] *)
Definition isNotNull (result : Row) (prefixed : string -> string)
           (idProperty : list IdField) : bool :=
  forallb (fun field => not_null (row_get result (prefixed (column field))))
          idProperty.

(** [mappedCollection.find(...)], with the position of the item found:
    the items before it, the item, the items after it. *)
Fixpoint findItem (p : Obj -> bool) (l : list Obj)
  : option (list Obj * Obj * list Obj) :=
  match l with
  | [] => None
  | x :: rest =>
      if p x then Some ([], x, rest)
      else match findItem p rest with
           | Some (before, y, after) => Some (x :: before, y, after)
           | None => None
           end
  end.

(** The type of [injectResultInObject] once its fuel is fixed. *)
Definition Injector : Type :=
  Row -> Obj -> string -> option string -> M Obj.

(** [injectResultInCollection(result, mappedCollection, maps, mapId,
    columnPrefix)]; [injectObject] is the call of [injectResultInObject],
    which receives the prefix after its default is applied. *)
Definition injectResultInCollection (injectObject : Injector)
           (result : Row) (mappedCollection : list Obj)
           (mapId : string) (columnPrefix : option string) : M (list Obj) :=
  let prefix := defaultPrefix columnPrefix in
  resultMap <- findResultMap mapId ;;
  idProperty <- getIdPropertyM resultMap ;;
  let predicate := buildPredicate result prefix idProperty in
  let mappedObject := findItem (matchesPredicate predicate) mappedCollection in
  let isIdPropertyNotNull :=
    isNotNull result (fun c => prefix ++ c) idProperty in
  if isIdPropertyNotNull then
    match mappedObject with
    | None =>
        o <- injectObject result (createMappedObject resultMap)
                          mapId (Some prefix) ;;
        ret (mappedCollection ++ [o])%list
    | Some (before, item, after) =>
        o <- injectObject result item mapId (Some prefix) ;;
        ret (before ++ o :: after)%list
    end
  else ret mappedCollection.

(** The callback of [associations.forEach]. *)
Definition injectAssociation (injectObject : Injector) (result : Row)
           (mappedObject : Obj) (association : Nested) : M Obj :=
  let associatedObject := get mappedObject (n_name association) in
  if negb (truthy associatedObject) then
    associatedResultMap <- findResultMap (n_mapId association) ;;
    associatedObjectIdProperty <- getIdPropertyM associatedResultMap ;;
    let mappedObject := set mappedObject (n_name association) null in
    let isAssociatedObjectIdPropertyNotNull :=
      isNotNull result (concatPrefix (n_columnPrefix association))
                associatedObjectIdProperty in
    if isAssociatedObjectIdPropertyNotNull then
      o <- injectObject result (createMappedObject associatedResultMap)
                        (n_mapId association) (n_columnPrefix association) ;;
      ret (set mappedObject (n_name association) (VO o))
    else ret mappedObject
  else
    match associatedObject with
    | VO item =>
        o <- injectObject result item
                          (n_mapId association) (n_columnPrefix association) ;;
        ret (set mappedObject (n_name association) (VO o))
    | _ => throw Unmodelled
    end.

(** The callback of [collections.forEach].  A truthy value that is not an
    array has no [find] method: the call inside [injectResultInCollection]
    raises a [TypeError]. *)
Definition injectCollection (injectObject : Injector) (result : Row)
           (mappedObject : Obj) (collection : Nested) : M Obj :=
  let mappedCollection := get mappedObject (n_name collection) in
  if negb (truthy mappedCollection) then
    l <- injectResultInCollection injectObject result []
           (n_mapId collection) (n_columnPrefix collection) ;;
    ret (set mappedObject (n_name collection) (VA l))
  else
    match mappedCollection with
    | VA items =>
        l <- injectResultInCollection injectObject result items
               (n_mapId collection) (n_columnPrefix collection) ;;
        ret (set mappedObject (n_name collection) (VA l))
    | _ => throw TypeError
    end.

(** [x && x.forEach(f)] *)
Definition forEachOpt {A B : Type} (f : A -> B -> M A) (l : option (list B))
           (a : A) : M A :=
  match l with
  | Some l => forEachM f l a
  | None => ret a
  end.

(** The lazy inference of [resultMap.properties]. *)
Definition ensureProperties (resultMap : ResultMap) (result : Row)
           (columnPrefix : string) : M ResultMap :=
  match rm_properties resultMap with
  | Some _ => ret resultMap
  | None =>
      let resultMap' :=
        set_properties resultMap (Some (inferProperties result columnPrefix)) in
      _ <- writeResultMap resultMap' ;;
      ret resultMap'
  end.

(** [injectResultInObject(result, mappedObject, maps, mapId, columnPrefix)] *)
Fixpoint injectResultInObject (fuel : nat) (result : Row) (mappedObject : Obj)
         (mapId : string) (columnPrefix : option string) : M Obj :=
  match fuel with
  | O => throw OutOfFuel
  | S fuel' =>
      let prefix := defaultPrefix columnPrefix in
      resultMap <- findResultMap mapId ;;
      resultMap <- ensureProperties resultMap result prefix ;;
      idProperty <- getIdPropertyM resultMap ;;
      let mappedObject :=
        fold_left (copyIdField result prefix) idProperty mappedObject in
      let mappedObject :=
        match rm_properties resultMap with
        | Some properties =>
            fold_left (copyProperty result prefix) properties mappedObject
        | None => mappedObject
        end in
      mappedObject <-
        forEachOpt (injectAssociation (injectResultInObject fuel') result)
                   (rm_associations resultMap) mappedObject ;;
      forEachOpt (injectCollection (injectResultInObject fuel') result)
                 (rm_collections resultMap) mappedObject
  end.

(** [new NotFoundError(message)]: the message defaults to ['Not Found']. *)
Definition newNotFoundError (message : Scalar) : Err :=
  match message with
  | SUndef => NotFoundError (SStr "Not Found")
  | m => NotFoundError m
  end.

(** The exported object [joinjs]. *)
Module joinjs.

(** [map(resultSet, maps, mapId, columnPrefix)] *)
Definition map (fuel : nat) (resultSet : list Row) (mapId : string)
           (columnPrefix : option string) : M (list Obj) :=
  forEachM
    (fun mappedCollection result =>
       injectResultInCollection (injectResultInObject fuel) result
                                mappedCollection mapId columnPrefix)
    resultSet [].

(** [mapOne(resultSet, maps, mapId, columnPrefix, isRequired)]; [extra]
    holds any further arguments of the call, which the function never
    reads. *)
Definition mapOne (fuel : nat) (resultSet : list Row) (mapId : string)
           (columnPrefix : option string) (isRequired : Scalar)
           (extra : list Scalar) : M Val :=
  let isRequired :=
    match isRequired with
    | SUndef => SBool true
    | v => v
    end in
  mappedCollection <- map fuel resultSet mapId columnPrefix ;;
  match mappedCollection with
  | first :: _ => ret (VO first)
  | [] =>
      if scalar_truthy isRequired
      then throw (newNotFoundError (SStr "EmptyResponse"))
      else ret null
  end.

End joinjs.

(* ================================================================= *)
(** ** Notions used by the specification *)

(** The identity key of a row: the values of the identity columns under the
    active prefix. *)
Definition rowKey (idProperty : list IdField) (columnPrefix : string)
           (result : Row) : list Scalar :=
  List.map (fun f => row_get result (columnPrefix ++ column f)) idProperty.

(** The identity key of a mapped object: the values of its identity fields. *)
Definition objKey (idProperty : list IdField) (o : Obj) : list Val :=
  List.map (fun f => get o (name f)) idProperty.

(** No component of the key is [null]. *)
Definition keyNotNull (k : list Scalar) : bool := forallb not_null k.

Fixpoint key_eqb (a b : list Scalar) : bool :=
  match a, b with
  | [], [] => true
  | x :: a', y :: b' => scalar_eqb x y && key_eqb a' b'
  | _, _ => false
  end.

(** The distinct keys of a list, in the order of their first occurrence. *)
Fixpoint firstOccurrences (l : list (list Scalar)) : list (list Scalar) :=
  match l with
  | [] => []
  | k :: rest =>
      k :: List.filter (fun x => negb (key_eqb x k)) (firstOccurrences rest)
  end.

(** The name and the column that [copyProperty] uses for a property. *)
Definition propField (property : FieldSpec) : IdField :=
  match property with
  | FStr s => mkIdField s s
  | FObj f =>
      mkIdField (f_name f)
        (match f_column f with
         | Some c => if c =? "" then f_name f else c
         | None => f_name f
         end)
  end.

(** A field that is written under the name of an identity field reads the
    same column. *)
Definition consistentWith (idProperty : list IdField) (g : IdField) : bool :=
  forallb (fun f => if name f =? name g then column f =? column g else true)
          idProperty.

Definition nestedOf (d : ResultMap) : list Nested :=
  (match rm_associations d with Some l => l | None => [] end) ++
  (match rm_collections d with Some l => l | None => [] end).

(** A definition keeps the identity of its objects: nothing but the
    identity columns is ever written into the identity fields, and a new
    object starts without them. *)
Definition wellFormed (d : ResultMap) : bool :=
  let idProperty := fst (getIdProperty d) in
  forallb (consistentWith idProperty) idProperty
  && match rm_properties d with
     | Some ps => forallb (fun p => consistentWith idProperty (propField p)) ps
     | None => forallb (fun f => name f =? column f) idProperty
     end
  && forallb (fun n => negb (existsb (fun f => name f =? n_name n) idProperty))
             (nestedOf d)
  && forallb (fun f => negb (truthy (get (createMappedObject d) (name f))))
             idProperty.

(** The identity-key resolution in the words of the specification: no
    [idProperty] gives the pair [id]/[id], a string gives name = column =
    that string, an object without column gets its name as column. *)
Definition specIdField (e : FieldSpec) : IdField :=
  match e with
  | FStr s => mkIdField s s
  | FObj f =>
      match f_column f with
      | Some c => mkIdField (f_name f) c
      | None => mkIdField (f_name f) (f_name f)
      end
  end.

Definition specIdProperty (i : option IdSpec) : list IdField :=
  match i with
  | None => [mkIdField "id" "id"]
  | Some (IdOne e) => [specIdField e]
  | Some (IdMany l) => List.map specIdField l
  end.

(** No empty string stands where the code tests a string for truth. *)
Definition fieldSpecNonEmpty (e : FieldSpec) : bool :=
  match e with
  | FStr _ => true
  | FObj f => match f_column f with Some c => negb (c =? "") | None => true end
  end.

Definition idSpecNonEmpty (i : option IdSpec) : bool :=
  match i with
  | None => true
  | Some (IdOne (FStr s)) => negb (s =? "")
  | Some (IdOne e) => fieldSpecNonEmpty e
  | Some (IdMany l) => forallb fieldSpecNonEmpty l
  end.

(** Every identity pair of the definition carries a column. *)
Definition fieldSpecHasColumn (e : FieldSpec) : bool :=
  match e with
  | FStr _ => true
  | FObj f => negb (column_falsy (f_column f))
  end.

Definition idSpecHasColumns (i : option IdSpec) : bool :=
  match i with
  | None => true
  | Some (IdOne e) => fieldSpecHasColumn e
  | Some (IdMany l) => forallb fieldSpecHasColumn l
  end.

(** *** The result maps over time

    The code never removes anything from a result map: it only writes
    defaulted identity columns and inferred properties.  [rm_le d d'] says
    that [d'] is a later state of the definition [d]. *)
Definition rm_le (d d' : ResultMap) : Prop :=
  rm_mapId d' = rm_mapId d /\
  rm_associations d' = rm_associations d /\
  rm_collections d' = rm_collections d /\
  rm_createNew d' = rm_createNew d /\
  (rm_idProperty d' = rm_idProperty d \/
   rm_idProperty d' = rm_idProperty (snd (getIdProperty d))) /\
  (rm_properties d' = rm_properties d \/
   (rm_properties d = None /\
    exists names, rm_properties d' = Some (List.map FStr names))).

Definition maps_le (m m' : Maps) : Prop := Forall2 rm_le m m'.

(** A computation is stable when it only moves the result maps forward and
    gives the same result, without a further change, from any later state
    of the maps it ends in. *)
Definition Stable {A : Type} (c : M A) : Prop :=
  forall m x m',
    c m = Ok (x, m') ->
    maps_le m m' /\ forall m2, maps_le m' m2 -> c m2 = Ok (x, m2).

(** The first statements of [injectResultInCollection] and of the
    association callback: the lookup of the result map and the resolution
    of its identity fields. *)
Definition idPrelude (mapId : string) : M (list IdField * Obj) :=
  resultMap <- findResultMap mapId ;;
  idProperty <- getIdPropertyM resultMap ;;
  ret (idProperty, createMappedObject resultMap).

(** The first statements of [injectResultInObject]: lookup, inference of
    the properties, resolution of the identity fields. *)
Definition objPrelude (result : Row) (mapId : string) (prefix : string)
  : M (list IdField * option (list FieldSpec) *
       option (list Nested) * option (list Nested)) :=
  resultMap <- findResultMap mapId ;;
  resultMap <- ensureProperties resultMap result prefix ;;
  idProperty <- getIdPropertyM resultMap ;;
  ret (idProperty, rm_properties resultMap,
       rm_associations resultMap, rm_collections resultMap).

(** The column names of a row that start with a prefix, the prefix
    stripped. *)
Definition strippedColumns (result : Row) (prefix : string) : list string :=
  List.map (drop (String.length prefix))
           (List.filter (fun k => String.prefix prefix k) (row_keys result)).

(** The callback of the [reduce] that builds [predicate]. *)
Definition predicateStep (result : Row) (prefix : string)
           (accumulator : Obj) (field : IdField) : Obj :=
  set accumulator (name field)
      (VS (row_get result (prefix ++ column field))).

(** What [injectResultInCollection] does once the identity fields and the
    fresh object of the definition are known. *)
Definition collBody (injectObject : Injector) (result : Row)
           (mappedCollection : list Obj) (mapId : string)
           (columnPrefix : option string) (p : list IdField * Obj)
  : M (list Obj) :=
  let prefix := defaultPrefix columnPrefix in
  if isNotNull result (fun c => prefix ++ c) (fst p) then
    match findItem (matchesPredicate (buildPredicate result prefix (fst p)))
                   mappedCollection with
    | None =>
        o <- injectObject result (snd p) mapId (Some prefix) ;;
        ret (mappedCollection ++ [o])%list
    | Some (before, item, after) =>
        o <- injectObject result item mapId (Some prefix) ;;
        ret (before ++ o :: after)%list
    end
  else ret mappedCollection.

(** What the association callback does for a field that is not set yet,
    once the identity fields and the fresh object are known. *)
Definition assocBody (injectObject : Injector) (result : Row)
           (mappedObject : Obj) (association : Nested)
           (p : list IdField * Obj) : M Obj :=
  if isNotNull result (concatPrefix (n_columnPrefix association)) (fst p) then
    o <- injectObject result (snd p)
                      (n_mapId association) (n_columnPrefix association) ;;
    ret (set (set mappedObject (n_name association) null)
             (n_name association) (VO o))
  else ret (set mappedObject (n_name association) null).

(** What [injectResultInObject] does after its first statements. *)
Definition objBody (injectObject : Injector) (result : Row)
           (mappedObject : Obj) (prefix : string)
           (p : list IdField * option (list FieldSpec) *
                option (list Nested) * option (list Nested)) : M Obj :=
  let '(idProperty, properties, associations, collections) := p in
  let mappedObject :=
    fold_left (copyIdField result prefix) idProperty mappedObject in
  let mappedObject :=
    match properties with
    | Some properties =>
        fold_left (copyProperty result prefix) properties mappedObject
    | None => mappedObject
    end in
  mappedObject <-
    forEachOpt (injectAssociation injectObject result)
               associations mappedObject ;;
  forEachOpt (injectCollection injectObject result) collections mappedObject.

(** The object holds the key of the row. *)
Definition holdsKey (result : Row) (prefix : string) (ids : list IdField)
           (o : Obj) : Prop :=
  forall f, In f ids ->
    get o (name f) = VS (row_get result (prefix ++ column f)).

(** Each identity field of the object holds the value of the row or nothing
    yet. *)
Definition admitsKey (result : Row) (prefix : string) (ids : list IdField)
           (o : Obj) : Prop :=
  forall f, In f ids ->
    get o (name f) = VS (row_get result (prefix ++ column f)) \/
    truthy (get o (name f)) = false.

(** The keys of a collection while the rows are injected one by one. *)
Definition addKey (acc : list (list Scalar)) (k : list Scalar)
  : list (list Scalar) :=
  if existsb (key_eqb k) acc then acc else (acc ++ [k])%list.


(** What one row does to the members of a collection, in terms of keys:
    nothing when the key has a null; an update in place of the first
    member that holds the key; or a new member with the key, added last,
    when no member holds it. *)
Definition insertedInOrder (ids : list IdField) (key : list Scalar)
           (coll coll' : list Obj) : Prop :=
  (keyNotNull key = false /\ coll' = coll) \/
  (keyNotNull key = true /\
   exists before item after o,
     coll = (before ++ item :: after)%list /\
     coll' = (before ++ o :: after)%list /\
     objKey ids item = List.map VS key /\
     objKey ids o = List.map VS key /\
     forall y, In y before -> objKey ids y <> List.map VS key) \/
  (keyNotNull key = true /\
   (forall y, In y coll -> objKey ids y <> List.map VS key) /\
   exists o, coll' = (coll ++ [o])%list /\ objKey ids o = List.map VS key).

(** *** Configurations on which the mapper returns

    The mapper returns on every result set when the result maps are
    acyclic and keep apart three kinds of field names: the names of
    associations, the names of collections, and the names written from
    columns (identity fields and properties). *)

Definition optList {A : Type} (l : option (list A)) : list A :=
  match l with
  | Some l => l
  | None => []
  end.

Definition memb (k : string) (l : list string) : bool :=
  existsb (String.eqb k) l.

Definition assocNames (maps : Maps) : list string :=
  flat_map (fun d => List.map n_name (optList (rm_associations d))) maps.

Definition collNames (maps : Maps) : list string :=
  flat_map (fun d => List.map n_name (optList (rm_collections d))) maps.

Fixpoint suffixes (s : string) : list string :=
  s :: match s with
       | EmptyString => []
       | String _ rest => suffixes rest
       end.

(** Every chain of associations and collections from [mapId] ends within
    [n] definitions, and every definition on it exists. *)
Fixpoint closed (n : nat) (maps : Maps) (mapId : string) : bool :=
  match n with
  | O => false
  | S n' =>
      match find_map maps mapId with
      | Some d => forallb (fun x => closed n' maps (n_mapId x)) (nestedOf d)
      | None => false
      end
  end.

Section Shape.

Variables assocs colls : list string.

(** The fields named like an association hold nothing or an object, the
    fields named like a collection hold nothing or an array, and so on
    inside these. *)
Inductive Good : Obj -> Prop :=
| Good_obj (o : Obj) :
    (forall k, In k assocs ->
       truthy (get o k) = false \/ exists o', get o k = VO o' /\ Good o') ->
    (forall k, In k colls ->
       truthy (get o k) = false \/
       exists l, get o k = VA l /\ Forall Good l) ->
    Good o.

Definition localOk (d : ResultMap) : bool :=
  forallb (fun n => memb (n_name n) assocs) (optList (rm_associations d))
  && forallb (fun n => memb (n_name n) colls) (optList (rm_collections d))
  && forallb (fun f => negb (memb (name f) (assocs ++ colls)))
             (fst (getIdProperty d))
  && forallb (fun p => negb (memb (name (propField p)) (assocs ++ colls)))
             (optList (rm_properties d))
  && forallb (fun k => negb (truthy (get (createMappedObject d) k)))
             (assocs ++ colls).

(** No column name of the row, with any prefix stripped, is the name of an
    association or of a collection. *)
Definition rowOk (result : Row) : bool :=
  forallb (fun k => forallb (fun s => negb (memb s (assocs ++ colls)))
                            (suffixes k))
          (row_keys result).

End Shape.

Definition configOk (n : nat) (maps : Maps) (mapId : string) : bool :=
  closed n maps mapId
  && forallb (fun k => negb (memb k (collNames maps))) (assocNames maps)
  && forallb (localOk (assocNames maps) (collNames maps)) maps.

Definition rowsOk (maps : Maps) (resultSet : list Row) : bool :=
  forallb (rowOk (assocNames maps) (collNames maps)) resultSet.

(* ================================================================= *)
(** ** Example configurations and rows *)

(** A definition whose single identity pair has no column. *)
Definition keyOnlyMap : ResultMap :=
  mkResultMap "m" (Some (IdOne (FObj (mkField "key" None)))) None None None None.

(** The configuration of the specification's scenario: parents with a
    collection of children. *)
Definition parentDef : ResultMap :=
  mkResultMap "parent" None (Some [FStr "name"]) None
              (Some [mkNested "children" "child" (Some "child_")]) None.

Definition childDef : ResultMap :=
  mkResultMap "child" None (Some [FStr "name"]) None None None.

Definition parentMaps : Maps := [parentDef; childDef].

Definition parentRows : list Row :=
  [ [("id", SNum 1); ("name", SStr "A");
     ("child_id", SNum 10); ("child_name", SStr "X")];
    [("id", SNum 1); ("name", SStr "A");
     ("child_id", SNum 11); ("child_name", SStr "Y")];
    [("id", SNum 2); ("name", SStr "B");
     ("child_id", SNull); ("child_name", SNull)] ].

(** The same configuration without [properties]. *)
Definition bareParentDef : ResultMap :=
  mkResultMap "parent" None None None
              (Some [mkNested "children" "child" (Some "child_")]) None.

Definition bareChildDef : ResultMap :=
  mkResultMap "child" None None None None None.

Definition bareMaps : Maps := [bareParentDef; bareChildDef].

(** Orders with an associated customer. *)
Definition customerAssociation : Nested :=
  mkNested "customer" "customer" (Some "customer_").

Definition customerDef : ResultMap :=
  mkResultMap "customer" None (Some [FStr "name"]) None None None.

Definition orderMaps : Maps :=
  [ mkResultMap "order" None (Some [FStr "total"])
                (Some [customerAssociation]) None None;
    customerDef ].

Definition orderWithoutCustomer : Row :=
  [("id", SNum 7); ("total", SNum 30);
   ("customer_id", SNull); ("customer_name", SNull)].

(** A definition with one property, and two rows of the same object whose
    first value of the property is [0]. *)
Definition countedMaps : Maps :=
  [ mkResultMap "m" None (Some [FStr "n"]) None None None ].

Definition countedRows : list Row :=
  [ [("id", SNum 1); ("n", SNum 0)];
    [("id", SNum 1); ("n", SNum 5)] ].

(* ================================================================= *)
(** ** Further notions *)

(** The properties that an injection copies: the declared list, or the list
    inferred from the row when none is declared. *)
Definition effectiveProperties (d : ResultMap) (result : Row)
           (prefix : string) : list FieldSpec :=
  match rm_properties d with
  | Some ps => ps
  | None => inferProperties result prefix
  end.

(** The names of the fields that an injection with the definition may
    write: identity fields, properties, associations and collections. *)
Definition writtenNames (d : ResultMap) (result : Row) (prefix : string)
  : list string :=
  List.map name (fst (getIdProperty d)) ++
  List.map (fun p => name (propField p))
           (effectiveProperties d result prefix) ++
  List.map n_name (nestedOf d).

(** [d'] is [d] but for what the mapper caches in a definition: it has the
    same [mapId], associations, collections and factory, its identity
    fields resolve to the same pairs, and it keeps the properties of [d]
    when [d] has some. *)
Definition sameButCaches (d d' : ResultMap) : Prop :=
  rm_mapId d' = rm_mapId d /\
  rm_associations d' = rm_associations d /\
  rm_collections d' = rm_collections d /\
  rm_createNew d' = rm_createNew d /\
  fst (getIdProperty d') = fst (getIdProperty d) /\
  forall ps, rm_properties d = Some ps -> rm_properties d' = Some ps.

(** The definition declares its properties and the column of every identity
    pair: the mapper has nothing to cache in it. *)
Definition complete (d : ResultMap) : bool :=
  match rm_properties d with
  | Some _ => idSpecHasColumns (rm_idProperty d)
  | None => false
  end.

(** The flag of [mapOne] after its default is applied, as a truth value. *)
Definition required (isRequired : Scalar) : bool :=
  match isRequired with
  | SUndef => true
  | v => scalar_truthy v
  end.

(** An association to tags that declares no column prefix. *)
Definition tagAssociation : Nested := mkNested "tag" "tag" None.

Definition tagDef : ResultMap :=
  mkResultMap "tag" None (Some [FStr "label"]) None None None.

Definition postMaps : Maps :=
  [ mkResultMap "post" (Some (IdOne (FStr "post_id"))) (Some [FStr "title"])
                (Some [tagAssociation]) None None;
    tagDef ].

(** A post without tag: the columns of the tag are null. *)
Definition untaggedPost : Row :=
  [("post_id", SNum 3); ("title", SStr "T"); ("id", SNull); ("label", SNull)].

(** A definition that refers to a result map that does not exist. *)
Definition danglingDef : ResultMap :=
  mkResultMap "parent" None (Some [FStr "name"]) None
              (Some [mkNested "children" "kid" (Some "child_")]) None.

Definition danglingMaps : Maps := [danglingDef; childDef].

(** The computation never throws a [NotFoundError]. *)
Definition NeverNotFound {A : Type} (c : M A) : Prop :=
  forall m message, c m <> Throw (NotFoundError message).

(** The objects that the rows of the scenario give. *)
Definition parentOut : list Obj :=
  [ [("id", VS (SNum 1)); ("name", VS (SStr "A"));
     ("children",
      VA [[("id", VS (SNum 10)); ("name", VS (SStr "X"))];
          [("id", VS (SNum 11)); ("name", VS (SStr "Y"))]])];
    [("id", VS (SNum 2)); ("name", VS (SStr "B")); ("children", VA [])] ].

(** *** Definitions on which a repeated row changes nothing *)

(** The fields that [injectResultInObject] copies from columns: identity
    fields, then properties. *)
Definition fieldsOf (d : ResultMap) : list IdField :=
  fst (getIdProperty d) ++ List.map propField (optList (rm_properties d)).

Fixpoint distinct (l : list string) : bool :=
  match l with
  | [] => true
  | x :: rest => negb (memb x rest) && distinct rest
  end.

(** The definition declares its properties; two copied fields of the same
    name read the same column; no association or collection is named like a
    copied field or like another association or collection; and the
    definition is well formed. *)
Definition strictDef (d : ResultMap) : bool :=
  match rm_properties d with Some _ => true | None => false end
  && forallb (consistentWith (fieldsOf d)) (fieldsOf d)
  && forallb (fun n => negb (memb (n_name n) (List.map name (fieldsOf d))))
             (nestedOf d)
  && distinct (List.map n_name (nestedOf d))
  && wellFormed d.

(** The field [g] of the object is settled for the row: it holds a truthy
    value, or it holds the value of its column in the row. *)
Definition settled (result : Row) (prefix : string) (o : Obj) (g : IdField)
  : Prop :=
  truthy (get o (name g)) = true \/
  set o (name g) (VS (row_get result (prefix ++ column g))) = o.

(** The scenario with its first row repeated. *)
Definition repeatedRows : list Row :=
  List.hd [] parentRows :: parentRows.

(** The children that the rows of the scenario give. *)
Definition childOut : list Obj :=
  [ [("id", VS (SNum 10)); ("name", VS (SStr "X"))];
    [("id", VS (SNum 11)); ("name", VS (SStr "Y"))] ].

(** *** Rows read by column name *)

(** The definition declares its properties. *)
Definition declared (d : ResultMap) : bool :=
  match rm_properties d with
  | Some _ => true
  | None => false
  end.

(** Two rows give the same value for every column name. *)
Definition sameColumns (r r' : Row) : bool :=
  forallb (fun k => scalar_eqb (row_get r k) (row_get r' k))
          (row_keys r ++ row_keys r').

Fixpoint sameRows (rows rows' : list Row) : bool :=
  match rows, rows' with
  | [], [] => true
  | r :: rest, r' :: rest' => sameColumns r r' && sameRows rest rest'
  | _, _ => false
  end.

(** The rows of the scenario with their columns in reverse order. *)
Definition reversedRows : list Row :=
  List.map (fun r : Row => List.rev r) parentRows.

(** *** The fields of associations *)

(** The names of the fields that an injection copies from columns. *)
Definition copiedNames (d : ResultMap) (result : Row) (prefix : string)
  : list string :=
  List.map name (fst (getIdProperty d)) ++
  List.map (fun p => name (propField p))
           (effectiveProperties d result prefix).

(** The value is falsy or an object: what the association callback expects
    to find in the field of an association. *)
Definition unsetOrObject (v : Val) : bool :=
  match v with
  | VS s => negb (scalar_truthy s)
  | VO _ => true
  | VA _ => false
  end.

(** The order that the row without a customer gives. *)
Definition orderOut : Obj :=
  [("id", VS (SNum 7)); ("total", VS (SNum 30)); ("customer", null)].

(** *** The rows of one object *)




(** *** What [getIdProperty] leaves in the definition *)

(** An identity pair as the call leaves it: a pair object without a column
    (absent, or the empty string) has its name as column; a string and a
    pair with a column are as they were. *)
Definition defaultedColumn (e : FieldSpec) : FieldSpec :=
  match e with
  | FStr s => FStr s
  | FObj f =>
      match f_column f with
      | Some c =>
          if c =? "" then FObj (mkField (f_name f) (Some (f_name f)))
          else FObj f
      | None => FObj (mkField (f_name f) (Some (f_name f)))
      end
  end.

Definition writtenIdProperty (i : option IdSpec) : option IdSpec :=
  match i with
  | None => None
  | Some (IdOne e) => Some (IdOne (defaultedColumn e))
  | Some (IdMany l) => Some (IdMany (List.map defaultedColumn l))
  end.

(** A definition with two identity pairs, the columns of the second left
    to default. *)
Definition pairKeyMap : ResultMap :=
  mkResultMap "m"
    (Some (IdMany [FObj (mkField "a" (Some "x")); FObj (mkField "b" None)]))
    None None None None.

(** *** Further example configurations *)







(** Orders whose customers come from a factory. *)
Definition factoryOrderMaps : Maps :=
  [ mkResultMap "order" None (Some [FStr "total"])
                (Some [customerAssociation]) None None;
    mkResultMap "customer" None (Some [FStr "name"]) None None
                (Some [("kind", VS (SStr "customer"))]) ].

Definition orderWithCustomer : Row :=
  [("id", SNum 7); ("total", SNum 30);
   ("customer_id", SNum 5); ("customer_name", SStr "Ann")].

(** The post of the row without tag, as the mapper returns it. *)
Definition untaggedPostOut : Obj :=
  [("post_id", VS (SNum 3)); ("title", VS (SStr "T"));
   ("tag", VO [("id", null); ("label", null)])].





(* ================================================================= *)
(** * Properties *)

(** ** Strings, objects and rows *)

Lemma eqb_refl' (s : string) : (s =? s) = true.
Proof. apply String.eqb_refl. Qed.

Ltac str_cases a b :=
  let E := fresh "E" in
  destruct (String.eqb_spec a b) as [E | E]; [try subst | idtac].

Lemma get_set_same (o : Obj) (k : string) (v : Val) : get (set o k v) k = v.
Proof.
  induction o as [| [k' v'] rest IH]; simpl.
  - now rewrite eqb_refl'.
  - str_cases k' k; simpl.
    + now rewrite eqb_refl'.
    + destruct (String.eqb_spec k' k); [contradiction | exact IH].
Qed.

Lemma get_set_other (o : Obj) (k k' : string) (v : Val) :
  k <> k' -> get (set o k v) k' = get o k'.
Proof.
  intros Hk. induction o as [| [k0 v0] rest IH]; simpl.
  - destruct (String.eqb_spec k k'); [contradiction | reflexivity].
  - str_cases k0 k; simpl.
    + destruct (String.eqb_spec k k'); [contradiction | reflexivity].
    + now rewrite IH.
Qed.

Lemma set_get_id (o : Obj) (k : string) (v : Val) (k' : string) :
  get o k = v -> get (set o k v) k' = get o k'.
Proof.
  intros H. str_cases k k'.
  - now rewrite get_set_same.
  - now apply get_set_other.
Qed.

Lemma set_set (o : Obj) (k : string) (v w : Val) :
  set (set o k v) k w = set o k w.
Proof.
  induction o as [| [k' v'] rest IH]; simpl.
  - now rewrite eqb_refl'.
  - str_cases k' k; simpl.
    + now rewrite eqb_refl'.
    + destruct (String.eqb_spec k' k); [contradiction | now rewrite IH].
Qed.

Lemma row_get_absent (result : Row) (k : string) :
  ~ In k (row_keys result) -> row_get result k = SUndef.
Proof.
  induction result as [| [k' v] rest IH]; simpl; intros H; [reflexivity |].
  str_cases k' k.
  - exfalso. apply H. now left.
  - apply IH. intros Hin. apply H. now right.
Qed.

Lemma not_null_iff (s : Scalar) : not_null s = true <-> s <> SNull.
Proof. destruct s; simpl; split; intros; congruence. Qed.

Lemma scalar_eqb_eq (a b : Scalar) : scalar_eqb a b = true <-> a = b.
Proof.
  destruct a, b; simpl; split; intros H; try congruence; try reflexivity.
  - apply Bool.eqb_prop in H. now subst.
  - inversion H. apply Bool.eqb_reflx.
  - apply Z.eqb_eq in H. now subst.
  - inversion H. apply Z.eqb_refl.
  - apply String.eqb_eq in H. now subst.
  - inversion H. apply String.eqb_refl.
Qed.

(** ** The monad *)

Lemma bind_Ok {A B : Type} (c : M A) (k : A -> M B) (m : Maps) (b : B)
      (m' : Maps) :
  bind c k m = Ok (b, m') ->
  exists a m1, c m = Ok (a, m1) /\ k a m1 = Ok (b, m').
Proof.
  unfold bind. destruct (c m) as [[a m1] | e]; intros H; [| discriminate].
  now exists a, m1.
Qed.

Lemma bind_eq {A B : Type} (c : M A) (k : A -> M B) {m : Maps} {a : A}
      {m1 : Maps} :
  c m = Ok (a, m1) -> bind c k m = k a m1.
Proof. unfold bind. now intros ->. Qed.

Lemma bind_throw {A B : Type} (c : M A) (k : A -> M B) (m : Maps) (e : Err) :
  c m = Throw e -> bind c k m = Throw e.
Proof. unfold bind. now intros ->. Qed.

Lemma findResultMap_Ok (mapId : string) (m : Maps) {rm : ResultMap} :
  find_map m mapId = Some rm -> findResultMap mapId m = Ok (rm, m).
Proof. unfold findResultMap. now intros ->. Qed.

Lemma findResultMap_inv (mapId : string) (m m' : Maps) (rm : ResultMap) :
  findResultMap mapId m = Ok (rm, m') -> find_map m mapId = Some rm /\ m' = m.
Proof.
  unfold findResultMap. destruct (find_map m mapId); intros H; inversion H.
  now split.
Qed.

Lemma getIdPropertyM_eq (rm : ResultMap) (m : Maps) :
  getIdPropertyM rm m =
  Ok (fst (getIdProperty rm), store_map m (snd (getIdProperty rm))).
Proof. reflexivity. Qed.

Lemma find_map_mapId (m : Maps) (mapId : string) (rm : ResultMap) :
  find_map m mapId = Some rm -> rm_mapId rm = mapId.
Proof.
  induction m as [| d rest IH]; simpl; [discriminate |].
  str_cases (rm_mapId d) mapId.
  - intros H. now inversion H.
  - exact IH.
Qed.

(** ** Identity-key resolution *)

Lemma resolveIdElem_idem (e : FieldSpec) :
  resolveIdElem (snd (resolveIdElem e)) = resolveIdElem e.
Proof.
  destruct e as [s | [n c]]; simpl; [reflexivity |].
  destruct c as [c |]; simpl.
  - destruct (String.eqb_spec c ""); simpl; [| now destruct (String.eqb_spec c "")].
    destruct (String.eqb_spec n ""); simpl; [now subst | reflexivity].
  - destruct (String.eqb_spec n ""); simpl; [now subst | reflexivity].
Qed.

Lemma resolveIdElem_spec (e : FieldSpec) :
  fieldSpecNonEmpty e = true -> fst (resolveIdElem e) = specIdField e.
Proof.
  destruct e as [s | [n c]]; simpl; [reflexivity |].
  destruct c as [c |]; simpl; [| reflexivity].
  now destruct (String.eqb_spec c "").
Qed.

Lemma resolveIdElem_hasColumn (e : FieldSpec) :
  fieldSpecHasColumn e = true -> snd (resolveIdElem e) = e.
Proof.
  destruct e as [s | [n c]]; simpl; [reflexivity |].
  now destruct (column_falsy c).
Qed.

Lemma set_idProperty_same (rm : ResultMap) :
  set_idProperty rm (rm_idProperty rm) = rm.
Proof. now destruct rm. Qed.

Lemma getIdProperty_idem (rm : ResultMap) :
  getIdProperty (snd (getIdProperty rm)) = getIdProperty rm.
Proof.
  destruct rm as [i idp ps al cl cn].
  unfold getIdProperty; cbn [rm_idProperty].
  destruct (idProperty_falsy idp) eqn:Hf; cbn [snd rm_idProperty].
  - now rewrite Hf.
  - destruct idp as [[e | l] |]; cbn [snd fst set_idProperty rm_idProperty
      rm_mapId rm_properties rm_associations rm_collections rm_createNew].
    + assert (Hf' : idProperty_falsy (Some (IdOne (snd (resolveIdElem e)))) = false).
      { destruct e as [s | f]; simpl in *; [exact Hf |].
        now destruct (column_falsy (f_column f)). }
      rewrite Hf'. now rewrite resolveIdElem_idem.
    + cbn [idProperty_falsy]. f_equal.
      * rewrite !List.map_map. apply List.map_ext. intros e.
        now rewrite resolveIdElem_idem.
      * unfold set_idProperty; cbn. do 3 f_equal.
        rewrite !List.map_map. apply List.map_ext. intros e.
        now rewrite resolveIdElem_idem.
    + discriminate.
Qed.

Lemma getIdProperty_mapId (rm : ResultMap) :
  rm_mapId (snd (getIdProperty rm)) = rm_mapId rm.
Proof.
  destruct rm as [i idp ps al cl cn]. unfold getIdProperty; cbn.
  destruct (idProperty_falsy idp); [reflexivity |].
  now destruct idp as [[e | l] |].
Qed.

Lemma getIdProperty_rest (rm : ResultMap) :
  snd (getIdProperty rm) =
  set_idProperty rm (rm_idProperty (snd (getIdProperty rm))).
Proof.
  destruct rm as [i idp ps al cl cn]. unfold getIdProperty; cbn.
  destruct (idProperty_falsy idp); [reflexivity |].
  now destruct idp as [[e | l] |].
Qed.

Lemma getIdProperty_spec (rm : ResultMap) :
  idSpecNonEmpty (rm_idProperty rm) = true ->
  fst (getIdProperty rm) = specIdProperty (rm_idProperty rm).
Proof.
  destruct rm as [i idp ps al cl cn]. unfold getIdProperty; cbn. intros H.
  destruct idp as [[e | l] |]; cbn in *; [| | reflexivity].
  - destruct e as [s | f]; cbn in *.
    + destruct (String.eqb_spec s ""); [discriminate | reflexivity].
    + f_equal. now apply (resolveIdElem_spec (FObj f)).
  - rewrite List.map_map. apply List.map_ext_in. intros e He.
    apply resolveIdElem_spec. rewrite forallb_forall in H. now apply H.
Qed.

Lemma getIdProperty_hasColumns (rm : ResultMap) :
  idSpecHasColumns (rm_idProperty rm) = true -> snd (getIdProperty rm) = rm.
Proof.
  destruct rm as [i idp ps al cl cn]. unfold getIdProperty; cbn. intros H.
  destruct (idProperty_falsy idp); [reflexivity |].
  destruct idp as [[e | l] |]; cbn in *; [| | reflexivity];
    unfold set_idProperty; cbn; do 3 f_equal.
  - now apply resolveIdElem_hasColumn.
  - rewrite List.map_map.
    rewrite <- (List.map_id l) at 2. apply List.map_ext_in. intros e He.
    apply resolveIdElem_hasColumn.
    rewrite forallb_forall in H. now apply H.
Qed.

(** C7, as stated, fails: the call on a definition whose identity pair has
    no column writes the defaulted column into the definition, so the
    definition after the call differs from the definition before it. *)
Lemma C7_getIdProperty_writes_definition :
  fst (getIdProperty keyOnlyMap) = [mkIdField "key" "key"] /\
  snd (getIdProperty keyOnlyMap) <> keyOnlyMap.
Proof. split; [reflexivity | discriminate]. Qed.

Lemma resolveIdElem_written (e : FieldSpec) :
  snd (resolveIdElem e) = defaultedColumn e.
Proof.
  destruct e as [s | [n [c |]]]; simpl; try reflexivity.
  now destruct (c =? "").
Qed.

Lemma getIdProperty_written (rm : ResultMap) :
  rm_idProperty (snd (getIdProperty rm)) = writtenIdProperty (rm_idProperty rm).
Proof.
  destruct rm as [i idp ps al cl cn]. unfold getIdProperty.
  cbn [rm_idProperty].
  destruct (idProperty_falsy idp) eqn:Hf; cbn [snd rm_idProperty].
  - destruct idp as [[[s | f] | l] |]; simpl in *; try discriminate;
      reflexivity.
  - destruct idp as [[e | l] |]; cbn [snd set_idProperty rm_idProperty
                                        writtenIdProperty].
    + now rewrite resolveIdElem_written.
    + rewrite List.map_map. do 2 f_equal. apply List.map_ext.
      intros e. apply resolveIdElem_written.
    + reflexivity.
Qed.

(** C7, amended: [getIdProperty] resolves the identity specification as the
    specification words it (no [idProperty]: the pair [id]/[id]; a non-empty
    string: name = column = the string; a pair without column: column =
    name); a second call returns the same list and changes nothing more;
    the call touches no part of the definition but [idProperty], in which it
    writes column = name into every pair object without a column and
    nothing else; it leaves untouched a definition whose pairs all carry a
    column. *)
Theorem C7_getIdProperty_resolution (rm : ResultMap) :
  (idSpecNonEmpty (rm_idProperty rm) = true ->
   fst (getIdProperty rm) = specIdProperty (rm_idProperty rm)) /\
  getIdProperty (snd (getIdProperty rm)) = getIdProperty rm /\
  snd (getIdProperty rm) =
    set_idProperty rm (rm_idProperty (snd (getIdProperty rm))) /\
  (idSpecHasColumns (rm_idProperty rm) = true -> snd (getIdProperty rm) = rm) /\
  rm_idProperty (snd (getIdProperty rm))
  = writtenIdProperty (rm_idProperty rm) /\
  snd (getIdProperty rm) = set_idProperty rm (writtenIdProperty (rm_idProperty rm)).
Proof.
  split; [apply getIdProperty_spec |].
  split; [apply getIdProperty_idem |].
  split; [apply getIdProperty_rest |].
  split; [apply getIdProperty_hasColumns |].
  split; [apply getIdProperty_written |].
  rewrite <- getIdProperty_written. apply getIdProperty_rest.
Qed.

Lemma C7_getIdProperty_resolution_witness :
  fst (getIdProperty keyOnlyMap) = [mkIdField "key" "key"] /\
  snd (getIdProperty (mkResultMap "m" (Some (IdOne (FStr "key"))) None None
                                  None None)) =
    mkResultMap "m" (Some (IdOne (FStr "key"))) None None None None /\
  snd (getIdProperty pairKeyMap) =
    mkResultMap "m"
      (Some (IdMany [FObj (mkField "a" (Some "x"));
                     FObj (mkField "b" (Some "b"))]))
      None None None None.
Proof.
  split; [| split].
  - exact (proj1 (C7_getIdProperty_resolution keyOnlyMap) eq_refl).
  - exact (proj1 (proj2 (proj2 (proj2 (C7_getIdProperty_resolution
             (mkResultMap "m" (Some (IdOne (FStr "key"))) None None None None)))))
           eq_refl).
  - exact (proj2 (proj2 (proj2 (proj2 (proj2
             (C7_getIdProperty_resolution pairKeyMap)))))).
Defined.

(** ** The single-object entry point *)

(** C3, as stated, fails: a message passed by the caller of [mapOne] is not
    used, the error carries the fixed message. *)
Lemma C3_mapOne_message_fixed :
  joinjs.mapOne 2 [] "parent" None SUndef [SStr "custom"] parentMaps =
    Throw (NotFoundError (SStr "EmptyResponse")) /\
  NotFoundError (SStr "EmptyResponse") <> NotFoundError (SStr "custom").
Proof. split; [reflexivity | discriminate]. Qed.

(** C3, amended: [mapOne] runs [map] on the whole result set; a non-empty
    result gives its first element; an empty result gives [null] when
    [isRequired] is passed and falsy, and otherwise (the flag defaults to
    true) throws a [NotFoundError] whose message is always [EmptyResponse],
    whatever further arguments the call has; an error of [map] propagates.
    The constructor alone defaults its message to [Not Found]. *)
Theorem C3_mapOne_result (fuel : nat) (resultSet : list Row) (mapId : string)
        (columnPrefix : option string) (isRequired : Scalar)
        (extra : list Scalar) (maps : Maps) :
  joinjs.mapOne fuel resultSet mapId columnPrefix isRequired extra maps =
    match joinjs.map fuel resultSet mapId columnPrefix maps with
    | Ok (first :: _, maps') => Ok (VO first, maps')
    | Ok ([], maps') =>
        if match isRequired with
           | SUndef => true
           | v => scalar_truthy v
           end
        then Throw (NotFoundError (SStr "EmptyResponse"))
        else Ok (null, maps')
    | Throw e => Throw e
    end /\
  newNotFoundError SUndef = NotFoundError (SStr "Not Found").
Proof.
  split; [| reflexivity].
  unfold joinjs.mapOne, bind.
  destruct (joinjs.map fuel resultSet mapId columnPrefix maps)
    as [[[| first rest] maps'] | e]; try reflexivity.
  destruct isRequired as [| | b | n | s]; simpl; try reflexivity.
  - now destruct b.
  - now destruct (n =? 0)%Z.
  - now destruct (s =? "").
Qed.

(** ** The shared result maps *)

Lemma find_store_same {m : Maps} {mapId : string} {rm : ResultMap}
      (rm' : ResultMap) :
  find_map m mapId = Some rm -> rm_mapId rm' = mapId ->
  find_map (store_map m rm') mapId = Some rm'.
Proof.
  intros Hf Hid. induction m as [| d rest IH]; simpl in *; [discriminate |].
  rewrite Hid. destruct (String.eqb_spec (rm_mapId d) mapId) as [E | E]; simpl.
  - now rewrite Hid, eqb_refl'.
  - destruct (String.eqb_spec (rm_mapId d) mapId); [contradiction | auto].
Qed.

Lemma find_store_other (m : Maps) (mapId : string) (rm' : ResultMap) :
  rm_mapId rm' <> mapId ->
  find_map (store_map m rm') mapId = find_map m mapId.
Proof.
  intros Hid. induction m as [| d rest IH]; simpl; [reflexivity |].
  destruct (String.eqb_spec (rm_mapId d) (rm_mapId rm')) as [E | E]; simpl.
  - destruct (String.eqb_spec (rm_mapId rm') mapId); [contradiction |].
    destruct (String.eqb_spec (rm_mapId d) mapId); [congruence | reflexivity].
  - now rewrite IH.
Qed.

Lemma isNotNull_false (result : Row) (prefixed : string -> string)
      (idProperty : list IdField) :
  isNotNull result prefixed idProperty = false <->
  exists f, In f idProperty /\ row_get result (prefixed (column f)) = SNull.
Proof.
  unfold isNotNull. induction idProperty as [| g rest IH]; simpl.
  - split; [discriminate | intros [f [[] _]]].
  - rewrite andb_false_iff, IH. split.
    + intros [H | [f [Hin Hf]]].
      * exists g. split; [now left |].
        destruct (row_get result (prefixed (column g))); simpl in H;
          congruence.
      * exists f. split; [now right | exact Hf].
    + intros [f [[-> | Hin] Hf]].
      * left. now rewrite Hf.
      * right. now exists f.
Qed.

Lemma isNotNull_true (result : Row) (prefixed : string -> string)
      (idProperty : list IdField) :
  isNotNull result prefixed idProperty = true <->
  forall f, In f idProperty -> row_get result (prefixed (column f)) <> SNull.
Proof.
  unfold isNotNull. rewrite forallb_forall. split; intros H f Hin.
  - now apply not_null_iff, H.
  - now apply not_null_iff, H.
Qed.

(** ** Rows without identity *)

Lemma injectResultInCollection_null (injectObject : Injector) (result : Row)
      (mappedCollection : list Obj) {mapId : string}
      (columnPrefix : option string) {maps : Maps} {rm : ResultMap} :
  find_map maps mapId = Some rm ->
  isNotNull result (fun c => defaultPrefix columnPrefix ++ c)
            (fst (getIdProperty rm)) = false ->
  injectResultInCollection injectObject result mappedCollection mapId
                           columnPrefix maps =
  Ok (mappedCollection, store_map maps (snd (getIdProperty rm))).
Proof.
  intros Hf Hn. unfold injectResultInCollection.
  rewrite (bind_eq _ _ (findResultMap_Ok _ _ Hf)).
  rewrite (bind_eq _ _ (getIdPropertyM_eq rm maps)).
  now rewrite Hn.
Qed.

(** C5: [map] on an empty result set returns an empty array and leaves the
    result maps as they are; [map] on a result set whose every row has a
    null in one of the identity columns of [mapId] (under the given prefix)
    returns an empty array without an error, for every fuel; and a single
    row with a null identity column adds nothing to the array it is
    injected in, whatever the array and the recursive call are. *)
Theorem C5_no_object_from_null_key :
  (forall fuel mapId columnPrefix maps,
      joinjs.map fuel [] mapId columnPrefix maps = Ok ([], maps)) /\
  (forall fuel resultSet mapId columnPrefix maps rm,
      find_map maps mapId = Some rm ->
      (forall result, In result resultSet ->
         exists f, In f (fst (getIdProperty rm)) /\
                   row_get result (defaultPrefix columnPrefix ++ column f)
                   = SNull) ->
      exists maps',
        joinjs.map fuel resultSet mapId columnPrefix maps = Ok ([], maps')) /\
  (forall injectObject result mappedCollection mapId columnPrefix maps rm,
      find_map maps mapId = Some rm ->
      (exists f, In f (fst (getIdProperty rm)) /\
                 row_get result (defaultPrefix columnPrefix ++ column f)
                 = SNull) ->
      exists maps',
        injectResultInCollection injectObject result mappedCollection mapId
                                 columnPrefix maps
        = Ok (mappedCollection, maps')).
Proof.
  split; [reflexivity |]. split.
  - intros fuel resultSet mapId columnPrefix. unfold joinjs.map.
    induction resultSet as [| result rest IH]; intros maps rm Hf Hall.
    + now exists maps.
    + simpl.
      assert (Hn : isNotNull result (fun c => defaultPrefix columnPrefix ++ c)
                             (fst (getIdProperty rm)) = false).
      { apply isNotNull_false. apply Hall. now left. }
      rewrite (bind_eq _ _ (injectResultInCollection_null _ _ _ _ Hf Hn)).
      apply (IH _ (snd (getIdProperty rm))).
      * apply (find_store_same _ Hf).
        rewrite getIdProperty_mapId. now apply find_map_mapId with maps.
      * intros r Hr. rewrite getIdProperty_idem. apply Hall. now right.
  - intros injectObject result mappedCollection mapId columnPrefix maps rm
           Hf Hex.
    exists (store_map maps (snd (getIdProperty rm))).
    apply injectResultInCollection_null; [exact Hf |].
    now apply isNotNull_false.
Qed.

Lemma C5_no_object_from_null_key_witness :
  exists maps',
    joinjs.map 0 [[("id", SNull); ("name", SStr "A")]; [("id", SNull)]]
               "parent" None parentMaps = Ok ([], maps').
Proof.
  refine (proj1 (proj2 C5_no_object_from_null_key) 0 _ "parent" None
                parentMaps _ eq_refl _).
  intros result Hin. exists (mkIdField "id" "id"). split; [now left |].
  destruct Hin as [<- | [<- | []]]; reflexivity.
Defined.

(** ** Associations *)

(** The association callback on a field that is not set yet. *)
Lemma injectAssociation_unset
        (injectObject : Injector) (result : Row) (mappedObject : Obj)
        (association : Nested) (prefix : string) (maps : Maps)
        (associated : ResultMap) :
  truthy (get mappedObject (n_name association)) = false ->
  n_columnPrefix association = Some prefix ->
  find_map maps (n_mapId association) = Some associated ->
  let idProperty := fst (getIdProperty associated) in
  let maps1 := store_map maps (snd (getIdProperty associated)) in
  ((exists f, In f idProperty /\
              row_get result (prefix ++ column f) = SNull) ->
   injectAssociation injectObject result mappedObject association maps =
     Ok (set mappedObject (n_name association) null, maps1)) /\
  ((forall f, In f idProperty ->
              row_get result (prefix ++ column f) <> SNull) ->
   injectAssociation injectObject result mappedObject association maps =
     match injectObject result (createMappedObject associated)
                        (n_mapId association) (Some prefix) maps1 with
     | Ok (o, maps2) => Ok (set mappedObject (n_name association) (VO o), maps2)
     | Throw e => Throw e
     end).
Proof.
  intros Hfalsy Hp Hf idProperty maps1.
  unfold injectAssociation. rewrite Hfalsy. cbn [negb].
  rewrite (bind_eq _ _ (findResultMap_Ok _ _ Hf)).
  rewrite (bind_eq _ _ (getIdPropertyM_eq associated maps)).
  rewrite Hp. fold idProperty maps1. split.
  - intros Hex.
    assert (Hn : isNotNull result (concatPrefix (Some prefix)) idProperty
                 = false) by (apply isNotNull_false; exact Hex).
    now rewrite Hn.
  - intros Hall.
    assert (Hn : isNotNull result (concatPrefix (Some prefix)) idProperty
                 = true) by (apply isNotNull_true; exact Hall).
    rewrite Hn. unfold bind.
    destruct (injectObject result (createMappedObject associated)
                           (n_mapId association) (Some prefix) maps1)
      as [[o maps2] | e]; [| reflexivity].
    unfold ret. now rewrite set_set.
Qed.

(** ** Later states of the result maps *)

Lemma getIdProperty_ext (a b : ResultMap) :
  rm_idProperty a = rm_idProperty b ->
  fst (getIdProperty a) = fst (getIdProperty b) /\
  rm_idProperty (snd (getIdProperty a)) = rm_idProperty (snd (getIdProperty b)).
Proof.
  destruct a as [i1 p1 q1 a1 c1 n1], b as [i2 p2 q2 a2 c2 n2]; cbn.
  intros ->. unfold getIdProperty; cbn.
  destruct (idProperty_falsy p2); [now split |].
  destruct p2 as [[e | l] |]; now split.
Qed.

Lemma getIdProperty_props (d : ResultMap) :
  rm_properties (snd (getIdProperty d)) = rm_properties d /\
  rm_associations (snd (getIdProperty d)) = rm_associations d /\
  rm_collections (snd (getIdProperty d)) = rm_collections d /\
  rm_createNew (snd (getIdProperty d)) = rm_createNew d.
Proof. rewrite getIdProperty_rest. now destruct d. Qed.

Lemma rm_le_refl (d : ResultMap) : rm_le d d.
Proof. unfold rm_le. repeat split; auto. Qed.

Lemma rm_le_ids (d d' : ResultMap) :
  rm_le d d' -> fst (getIdProperty d') = fst (getIdProperty d).
Proof.
  intros (_ & _ & _ & _ & [H | H] & _).
  - now apply getIdProperty_ext.
  - rewrite (proj1 (getIdProperty_ext _ _ H)). now rewrite getIdProperty_idem.
Qed.

Lemma rm_le_trans (a b c : ResultMap) : rm_le a b -> rm_le b c -> rm_le a c.
Proof.
  intros (Hi1 & Ha1 & Hc1 & Hn1 & Hp1 & Hq1) (Hi2 & Ha2 & Hc2 & Hn2 & Hp2 & Hq2).
  unfold rm_le. repeat split; try congruence.
  - destruct Hp2 as [Hp2 | Hp2].
    + destruct Hp1; [left | right]; congruence.
    + right. rewrite Hp2. destruct Hp1 as [Hp1 | Hp1].
      * now apply getIdProperty_ext.
      * rewrite (proj2 (getIdProperty_ext _ _ Hp1)).
        now rewrite getIdProperty_idem.
  - destruct Hq1 as [Hq1 | [Hq1 Hex]].
    + destruct Hq2 as [Hq2 | [Hq2 Hex]]; [left; congruence |].
      right. split; [congruence | exact Hex].
    + right. split; [exact Hq1 |].
      destruct Hq2 as [Hq2 | [Hq2 _]]; [now rewrite Hq2 |].
      destruct Hex as [names Hex]. congruence.
Qed.

Lemma rm_le_norm (d : ResultMap) : rm_le d (snd (getIdProperty d)).
Proof.
  destruct (getIdProperty_props d) as (Hq & Ha & Hc & Hn).
  unfold rm_le. rewrite getIdProperty_mapId. repeat split; auto.
Qed.

Lemma rm_le_norm_fixed (d d' : ResultMap) :
  rm_le (snd (getIdProperty d)) d' -> snd (getIdProperty d') = d'.
Proof.
  intros (_ & _ & _ & _ & Hp & _).
  assert (H : rm_idProperty d' = rm_idProperty (snd (getIdProperty d))).
  { destruct Hp as [Hp | Hp]; [exact Hp |]. now rewrite getIdProperty_idem in Hp. }
  rewrite getIdProperty_rest.
  rewrite (proj2 (getIdProperty_ext _ _ H)), getIdProperty_idem, <- H.
  apply set_idProperty_same.
Qed.

Lemma maps_le_refl (m : Maps) : maps_le m m.
Proof. induction m; constructor; [apply rm_le_refl | assumption]. Qed.

Lemma maps_le_trans (a b c : Maps) : maps_le a b -> maps_le b c -> maps_le a c.
Proof.
  intros Hab. revert c. induction Hab as [| x y l l' Hxy Hl IH]; intros c Hbc.
  - exact Hbc.
  - inversion Hbc as [| y' z l2 l3 Hyz Hl' E1 E2]; subst.
    constructor; [now apply rm_le_trans with y | now apply IH].
Qed.

Lemma find_le (m m' : Maps) (mapId : string) (d : ResultMap) :
  maps_le m m' -> find_map m mapId = Some d ->
  exists d', find_map m' mapId = Some d' /\ rm_le d d'.
Proof.
  intros Hle. induction Hle as [| x y l l' Hxy Hl IH]; simpl; [discriminate |].
  assert (Hid : rm_mapId y = rm_mapId x) by apply Hxy.
  rewrite Hid. destruct (rm_mapId x =? mapId).
  - intros H; inversion H; subst. now exists y.
  - exact IH.
Qed.

Lemma store_le (m : Maps) (mapId : string) (d d' : ResultMap) :
  find_map m mapId = Some d -> rm_le d d' -> maps_le m (store_map m d').
Proof.
  intros Hf Hle. assert (Hid : rm_mapId d' = mapId).
  { destruct Hle as [-> _]. now apply find_map_mapId with m. }
  induction m as [| x rest IH]; simpl in *; [discriminate |].
  rewrite Hid. destruct (rm_mapId x =? mapId).
  - inversion Hf; subst. constructor; [exact Hle | apply maps_le_refl].
  - constructor; [apply rm_le_refl | now apply IH].
Qed.

Lemma store_found (m : Maps) (mapId : string) (d : ResultMap) :
  find_map m mapId = Some d -> store_map m d = m.
Proof.
  intros Hf. assert (Hid : rm_mapId d = mapId) by now apply find_map_mapId with m.
  induction m as [| x rest IH]; simpl in *; [reflexivity |].
  rewrite Hid. destruct (rm_mapId x =? mapId).
  - now inversion Hf.
  - now rewrite IH.
Qed.

(** ** Stable computations *)

Lemma Stable_ret {A : Type} (a : A) : Stable (ret a).
Proof.
  intros m x m' H. inversion H; subst. split; [apply maps_le_refl | reflexivity].
Qed.

Lemma Stable_throw {A : Type} (e : Err) : Stable (@throw A e).
Proof. intros m x m' H. discriminate. Qed.

Lemma Stable_bind {A B : Type} (c : M A) (k : A -> M B) :
  Stable c -> (forall a, Stable (k a)) -> Stable (bind c k).
Proof.
  intros Hc Hk m x m' H.
  apply bind_Ok in H. destruct H as (a & m1 & H1 & H2).
  destruct (Hc _ _ _ H1) as [L1 S1]. destruct (Hk a _ _ _ H2) as [L2 S2].
  split; [now apply maps_le_trans with m1 |].
  intros m2 Hm2.
  rewrite (bind_eq c k (S1 m2 (maps_le_trans _ _ _ L2 Hm2))).
  now apply S2.
Qed.

Lemma Stable_ext {A : Type} (c c' : M A) :
  (forall m, c m = c' m) -> Stable c' -> Stable c.
Proof.
  intros E H m x m' Hc. rewrite E in Hc. destruct (H _ _ _ Hc) as [L S].
  split; [exact L |]. intros m2 Hm2. rewrite E. now apply S.
Qed.

Lemma Stable_forEachM {A B : Type} (f : A -> B -> M A) (l : list B) :
  (forall a x, Stable (f a x)) -> forall a, Stable (forEachM f l a).
Proof.
  intros Hf. induction l as [| x rest IH]; intros a; simpl.
  - apply Stable_ret.
  - apply Stable_bind; [apply Hf | exact IH].
Qed.

Lemma Stable_forEachOpt {A B : Type} (f : A -> B -> M A) (l : option (list B)) :
  (forall a x, Stable (f a x)) -> forall a, Stable (forEachOpt f l a).
Proof.
  intros Hf a. destruct l as [l |]; simpl.
  - now apply Stable_forEachM.
  - apply Stable_ret.
Qed.

Lemma Stable_idPrelude (mapId : string) : Stable (idPrelude mapId).
Proof.
  intros m x m' H. unfold idPrelude in H.
  apply bind_Ok in H. destruct H as (d & m1 & H1 & H).
  apply findResultMap_inv in H1. destruct H1 as [Hf ->].
  rewrite (bind_eq _ _ (getIdPropertyM_eq d m)) in H.
  inversion H; subst; clear H. split.
  - apply store_le with mapId d; [exact Hf | apply rm_le_norm].
  - intros m2 Hm2.
    assert (Hf' : find_map (store_map m (snd (getIdProperty d))) mapId
                  = Some (snd (getIdProperty d))).
    { apply (find_store_same _ Hf). rewrite getIdProperty_mapId.
      now apply find_map_mapId with m. }
    destruct (find_le _ _ _ _ Hm2 Hf') as (d2 & Hf2 & Hle).
    unfold idPrelude.
    rewrite (bind_eq _ _ (findResultMap_Ok _ _ Hf2)).
    rewrite (bind_eq _ _ (getIdPropertyM_eq d2 m2)).
    rewrite (rm_le_norm_fixed _ _ Hle), (store_found _ _ _ Hf2).
    rewrite (rm_le_ids _ _ Hle), getIdProperty_idem.
    unfold ret, createMappedObject.
    destruct Hle as (_ & _ & _ & -> & _).
    now rewrite (proj2 (proj2 (proj2 (getIdProperty_props d)))).
Qed.

(** ** Property inference *)

Lemma replace_first_prefix (p s : string) :
  String.prefix p s = true -> replace_first p s = drop (String.length p) s.
Proof. intros H. destruct s; cbn [replace_first]; now rewrite H. Qed.

Lemma prefix_drop (p s : string) :
  String.prefix p s = true -> p ++ drop (String.length p) s = s.
Proof.
  revert s. induction p as [| c p IH]; intros s H.
  - reflexivity.
  - destruct s as [| c' s]; simpl in H; [discriminate |].
    destruct (Ascii.ascii_dec c c') as [-> | Hne]; [| discriminate].
    simpl. now rewrite IH.
Qed.

Lemma inferProperties_spec (result : Row) (prefix : string) :
  inferProperties result prefix = List.map FStr (strippedColumns result prefix).
Proof.
  unfold inferProperties, strippedColumns, startsWith.
  assert (G : forall keys acc,
             fold_left
               (fun acc field =>
                  if String.prefix prefix field
                  then (acc ++ [FStr (replace_first prefix field)])%list
                  else acc) keys acc
             = (acc ++ List.map FStr
                  (List.map (drop (String.length prefix))
                     (List.filter (fun k => String.prefix prefix k) keys)))%list).
  { induction keys as [| k rest IH]; intros acc; simpl.
    - now rewrite app_nil_r.
    - rewrite IH. destruct (String.prefix prefix k) eqn:E; [| reflexivity].
      simpl. rewrite <- app_assoc. simpl.
      now rewrite (replace_first_prefix _ _ E). }
  now rewrite G.
Qed.

(** ** The first statements of the injectors *)

Lemma objPrelude_inv {result : Row} {mapId prefix : string} {m m' : Maps} {x} :
  objPrelude result mapId prefix m = Ok (x, m') ->
  exists d d1,
    find_map m mapId = Some d /\
    d1 = match rm_properties d with
         | Some _ => d
         | None => set_properties d (Some (inferProperties result prefix))
         end /\
    x = (fst (getIdProperty d1), rm_properties d1,
         rm_associations d, rm_collections d) /\
    find_map m' mapId = Some (snd (getIdProperty d1)) /\
    rm_le d (snd (getIdProperty d1)) /\
    maps_le m m'.
Proof.
  unfold objPrelude. intros H.
  apply bind_Ok in H. destruct H as (d & m1 & H1 & H).
  apply findResultMap_inv in H1. destruct H1 as [Hf ->].
  assert (Hid : rm_mapId d = mapId) by now apply find_map_mapId with m.
  exists d. unfold ensureProperties in H.
  destruct (rm_properties d) as [ps |] eqn:Hps.
  - exists d. rewrite (bind_eq _ _ (eq_refl : ret d m = Ok (d, m))) in H.
    rewrite (bind_eq _ _ (getIdPropertyM_eq d m)) in H.
    inversion H; subst; clear H. rewrite Hps.
    split; [exact Hf |]. split; [reflexivity |]. split; [reflexivity |].
    split; [| split].
    + apply (find_store_same _ Hf). now rewrite getIdProperty_mapId.
    + apply rm_le_norm.
    + apply store_le with (rm_mapId d) d; [exact Hf | apply rm_le_norm].
  - set (d1 := set_properties d (Some (inferProperties result prefix))) in *.
    exists d1.
    assert (Hle1 : rm_le d d1).
    { unfold rm_le, d1; simpl. repeat split; auto. right. split; [exact Hps |].
      exists (strippedColumns result prefix). now rewrite inferProperties_spec. }
    assert (Hf1 : find_map (store_map m d1) mapId = Some d1)
      by now apply (find_store_same _ Hf).
    unfold bind, writeResultMap, ret in H. simpl in H.
    inversion H; subst; clear H.
    split; [exact Hf |]. split; [reflexivity |]. split; [reflexivity |].
    split; [| split].
    + apply (find_store_same _ Hf1). now rewrite getIdProperty_mapId.
    + apply rm_le_trans with d1; [exact Hle1 | apply rm_le_norm].
    + apply maps_le_trans with (store_map m d1).
      * now apply store_le with (rm_mapId d1) d.
      * apply store_le with (rm_mapId d1) d1; [exact Hf1 | apply rm_le_norm].
Qed.

Lemma objPrelude_later (result : Row) (mapId prefix : string) {m2 : Maps}
      {d d2 : ResultMap} :
  rm_properties d <> None ->
  find_map m2 mapId = Some d2 -> rm_le (snd (getIdProperty d)) d2 ->
  objPrelude result mapId prefix m2 =
  Ok ((fst (getIdProperty d), rm_properties d,
       rm_associations d, rm_collections d), m2).
Proof.
  intros Hps Hf2 Hle. unfold objPrelude.
  rewrite (bind_eq _ _ (findResultMap_Ok _ _ Hf2)).
  destruct (getIdProperty_props d) as (Hq & Ha & Hc & _).
  assert (Hq2 : rm_properties d2 = rm_properties d).
  { destruct Hle as (_ & _ & _ & _ & _ & [H | [H _]]); congruence. }
  unfold ensureProperties. rewrite Hq2.
  destruct (rm_properties d) as [ps |] eqn:E; [| congruence].
  rewrite (bind_eq _ _ (eq_refl : ret d2 m2 = Ok (d2, m2))).
  rewrite (bind_eq _ _ (getIdPropertyM_eq d2 m2)).
  rewrite (rm_le_norm_fixed _ _ Hle), (store_found _ _ _ Hf2).
  rewrite (rm_le_ids _ _ Hle), getIdProperty_idem. unfold ret.
  destruct Hle as (_ & -> & -> & _). now rewrite Hq2, Ha, Hc.
Qed.

Lemma Stable_objPrelude (result : Row) (mapId prefix : string) :
  Stable (objPrelude result mapId prefix).
Proof.
  intros m x m' H.
  destruct (objPrelude_inv H) as (d & d1 & Hf & Hd1 & -> & Hf' & Hle & L).
  split; [exact L |]. intros m2 Hm2.
  destruct (find_le _ _ _ _ Hm2 Hf') as (d2 & Hf2 & Hle2).
  assert (Hps : rm_properties d1 <> None).
  { rewrite Hd1. destruct (rm_properties d) eqn:E; [congruence | discriminate]. }
  rewrite (objPrelude_later result _ prefix Hps Hf2 Hle2).
  rewrite Hd1. now destruct (rm_properties d).
Qed.

Lemma injectResultInCollection_unfold (injectObject : Injector) (result : Row)
      (mappedCollection : list Obj) (mapId : string)
      (columnPrefix : option string) (m : Maps) :
  injectResultInCollection injectObject result mappedCollection mapId
                           columnPrefix m =
  bind (idPrelude mapId)
       (collBody injectObject result mappedCollection mapId columnPrefix) m.
Proof.
  unfold injectResultInCollection, idPrelude, collBody, bind, findResultMap.
  destruct (find_map m mapId) as [d |]; [| reflexivity]. simpl.
  now destruct (isNotNull _ _ _).
Qed.

Lemma injectAssociation_unfold (injectObject : Injector) (result : Row)
      (mappedObject : Obj) (association : Nested) (m : Maps) :
  truthy (get mappedObject (n_name association)) = false ->
  injectAssociation injectObject result mappedObject association m =
  bind (idPrelude (n_mapId association))
       (assocBody injectObject result mappedObject association) m.
Proof.
  intros Hfalsy.
  unfold injectAssociation, idPrelude, assocBody, bind, findResultMap.
  rewrite Hfalsy. simpl.
  destruct (find_map m (n_mapId association)) as [d |]; [| reflexivity]. simpl.
  now destruct (isNotNull _ _ _).
Qed.

Lemma injectResultInObject_unfold (fuel : nat) (result : Row)
      (mappedObject : Obj) (mapId : string) (columnPrefix : option string)
      (m : Maps) :
  injectResultInObject (S fuel) result mappedObject mapId columnPrefix m =
  bind (objPrelude result mapId (defaultPrefix columnPrefix))
       (objBody (injectResultInObject fuel) result mappedObject
                (defaultPrefix columnPrefix)) m.
Proof.
  simpl. unfold objPrelude, objBody, bind, findResultMap.
  destruct (find_map m mapId) as [d |]; [| reflexivity].
  destruct (ensureProperties d result (defaultPrefix columnPrefix) m)
    as [[d1 m1] |]; [| reflexivity].
  reflexivity.
Qed.

(** ** Stability of the injectors *)

Section StableInjectors.

Variable injectObject : Injector.
Hypothesis injectObject_stable :
  forall result o mapId columnPrefix,
    Stable (injectObject result o mapId columnPrefix).

Lemma Stable_injectResultInCollection result mappedCollection mapId
      columnPrefix :
  Stable (injectResultInCollection injectObject result mappedCollection
                                   mapId columnPrefix).
Proof.
  eapply Stable_ext; [apply injectResultInCollection_unfold |].
  apply Stable_bind; [apply Stable_idPrelude |].
  intros [ids fresh]. unfold collBody; cbn [fst snd].
  destruct (isNotNull _ _ _); [| apply Stable_ret].
  destruct (findItem _ _) as [[[before item] after] |];
    (apply Stable_bind; [apply injectObject_stable | intros; apply Stable_ret]).
Qed.

Lemma Stable_injectAssociation result mappedObject association :
  Stable (injectAssociation injectObject result mappedObject association).
Proof.
  destruct (truthy (get mappedObject (n_name association))) eqn:Ht.
  - unfold injectAssociation. rewrite Ht. cbn [negb].
    destruct (get mappedObject (n_name association)); try apply Stable_throw.
    apply Stable_bind; [apply injectObject_stable | intros; apply Stable_ret].
  - eapply Stable_ext; [intros m; now apply injectAssociation_unfold |].
    apply Stable_bind; [apply Stable_idPrelude |].
    intros [ids fresh]. unfold assocBody; cbn [fst snd].
    destruct (isNotNull _ _ _); [| apply Stable_ret].
    apply Stable_bind; [apply injectObject_stable | intros; apply Stable_ret].
Qed.

Lemma Stable_injectCollection result mappedObject collection :
  Stable (injectCollection injectObject result mappedObject collection).
Proof.
  unfold injectCollection.
  destruct (truthy (get mappedObject (n_name collection))); cbn [negb].
  - destruct (get mappedObject (n_name collection)); try apply Stable_throw.
    apply Stable_bind; [apply Stable_injectResultInCollection |].
    intros; apply Stable_ret.
  - apply Stable_bind; [apply Stable_injectResultInCollection |].
    intros; apply Stable_ret.
Qed.

End StableInjectors.

Lemma Stable_injectResultInObject (fuel : nat) :
  forall result o mapId columnPrefix,
    Stable (injectResultInObject fuel result o mapId columnPrefix).
Proof.
  induction fuel as [| fuel IH]; intros result o mapId columnPrefix.
  - apply Stable_throw.
  - eapply Stable_ext; [apply injectResultInObject_unfold |].
    apply Stable_bind; [apply Stable_objPrelude |].
    intros [[[ids ps] al] cl]. unfold objBody.
    apply Stable_bind.
    + apply Stable_forEachOpt. intros a x. now apply Stable_injectAssociation.
    + intros a. apply Stable_forEachOpt. intros b x.
      now apply Stable_injectCollection.
Qed.

Lemma Stable_map (fuel : nat) (resultSet : list Row) (mapId : string)
      (columnPrefix : option string) :
  Stable (joinjs.map fuel resultSet mapId columnPrefix).
Proof.
  unfold joinjs.map. apply Stable_forEachM. intros a x.
  apply Stable_injectResultInCollection. apply Stable_injectResultInObject.
Qed.

Lemma Stable_objBody (fuel : nat) (result : Row) (o : Obj) (prefix : string) p :
  Stable (objBody (injectResultInObject fuel) result o prefix p).
Proof.
  destruct p as [[[ids ps] al] cl]. unfold objBody.
  apply Stable_bind.
  - apply Stable_forEachOpt. intros a x.
    apply Stable_injectAssociation, Stable_injectResultInObject.
  - intros a. apply Stable_forEachOpt. intros b x.
    apply Stable_injectCollection, Stable_injectResultInObject.
Qed.

Lemma properties_kept (m m' : Maps) (mapId : string) (d : ResultMap)
      (ps : list FieldSpec) :
  maps_le m m' -> find_map m mapId = Some d -> rm_properties d = Some ps ->
  exists d', find_map m' mapId = Some d' /\ rm_properties d' = Some ps.
Proof.
  intros Hle Hf Hps. destruct (find_le _ _ _ _ Hle Hf) as (d' & Hf' & Hd).
  exists d'. split; [exact Hf' |].
  destruct Hd as (_ & _ & _ & _ & _ & [H | [H _]]); congruence.
Qed.

(** C8: an injection into an object of a definition that has no
    [properties] leaves on the definition the list inferred from the row:
    the column names that start with the active prefix, the prefix stripped,
    as string shorthands (each string is both the property name and the
    column name); the list is written by the first statements of the
    injector, before any field is copied.  Once a definition has a list of
    properties, no later injection, into an object or into a collection
    and for any row, changes that list, and the injector copies from that
    list whatever the row. *)
Theorem C8_properties_inferred_once (mapId : string) :
  (forall fuel result mappedObject columnPrefix maps d o' maps',
      find_map maps mapId = Some d ->
      rm_properties d = None ->
      injectResultInObject fuel result mappedObject mapId columnPrefix maps
        = Ok (o', maps') ->
      exists d',
        find_map maps' mapId = Some d' /\
        rm_properties d' =
          Some (List.map FStr
                  (strippedColumns result (defaultPrefix columnPrefix)))) /\
  (forall fuel result o columnPrefix maps d,
      find_map maps mapId = Some d ->
      rm_properties d = None ->
      exists p maps1 d1,
        objPrelude result mapId (defaultPrefix columnPrefix) maps
          = Ok (p, maps1) /\
        find_map maps1 mapId = Some d1 /\
        rm_properties d1 =
          Some (List.map FStr
                  (strippedColumns result (defaultPrefix columnPrefix))) /\
        injectResultInObject (S fuel) result o mapId columnPrefix maps =
        objBody (injectResultInObject fuel) result o
                (defaultPrefix columnPrefix) p maps1) /\
  (forall s result prefix o,
      copyProperty result prefix o (FStr s) =
      copyProperty result prefix o (FObj (mkField s (Some s)))) /\
  (forall prefix k,
      String.prefix prefix k = true ->
      prefix ++ drop (String.length prefix) k = k) /\
  (forall ps fuel result o mapId' columnPrefix maps d x maps',
      find_map maps mapId = Some d ->
      rm_properties d = Some ps ->
      (injectResultInObject fuel result o mapId' columnPrefix maps
         = Ok (x, maps') ->
       exists d', find_map maps' mapId = Some d' /\
                  rm_properties d' = Some ps)) /\
  (forall ps fuel result l mapId' columnPrefix maps d x maps',
      find_map maps mapId = Some d ->
      rm_properties d = Some ps ->
      (injectResultInCollection (injectResultInObject fuel) result l mapId'
                                columnPrefix maps = Ok (x, maps') ->
       exists d', find_map maps' mapId = Some d' /\
                  rm_properties d' = Some ps)) /\
  (forall ps fuel result o columnPrefix maps d,
      find_map maps mapId = Some d ->
      rm_properties d = Some ps ->
      injectResultInObject (S fuel) result o mapId columnPrefix maps =
      objBody (injectResultInObject fuel) result o (defaultPrefix columnPrefix)
              (fst (getIdProperty d), Some ps,
               rm_associations d, rm_collections d)
              (store_map maps (snd (getIdProperty d)))).
Proof.
  split; [| split; [| split; [| split; [| split; [| split]]]]].
  - intros fuel result mappedObject columnPrefix maps d o' maps' Hf Hps H.
    destruct fuel as [| fuel]; [discriminate |].
    rewrite injectResultInObject_unfold in H.
    apply bind_Ok in H. destruct H as (p & m1 & H1 & H2).
    destruct (objPrelude_inv H1) as (d0 & d1 & Hf0 & Hd1 & -> & Hf1 & _ & _).
    rewrite Hf in Hf0. inversion Hf0; subst d0; clear Hf0.
    rewrite Hps in Hd1.
    destruct (Stable_objBody _ _ _ _ _ _ _ _ H2) as [L _].
    apply (properties_kept _ _ _ _ _ L Hf1).
    rewrite (proj1 (getIdProperty_props d1)), Hd1. simpl.
    now rewrite inferProperties_spec.
  - intros fuel result o columnPrefix maps d Hf Hps.
    set (prefix := defaultPrefix columnPrefix).
    set (d1 := set_properties d (Some (inferProperties result prefix))).
    assert (Hid : rm_mapId d = mapId) by now apply find_map_mapId with maps.
    assert (E : objPrelude result mapId prefix maps =
                Ok ((fst (getIdProperty d1), rm_properties d1,
                     rm_associations d1, rm_collections d1),
                    store_map (store_map maps d1) (snd (getIdProperty d1)))).
    { unfold objPrelude. rewrite (bind_eq _ _ (findResultMap_Ok _ _ Hf)).
      unfold ensureProperties. rewrite Hps. reflexivity. }
    eexists. eexists. exists (snd (getIdProperty d1)).
    split; [exact E |]. split; [| split].
    + apply (find_store_same (rm:=d1)).
      * now apply (find_store_same _ Hf).
      * now rewrite getIdProperty_mapId.
    + rewrite (proj1 (getIdProperty_props d1)). unfold d1. simpl.
      now rewrite inferProperties_spec.
    + rewrite injectResultInObject_unfold. now apply bind_eq.
  - reflexivity.
  - intros prefix k. apply prefix_drop.
  - intros ps fuel result o mapId' columnPrefix maps d x maps' Hf Hps H.
    destruct (Stable_injectResultInObject _ _ _ _ _ _ _ _ H) as [L _].
    exact (properties_kept _ _ _ _ _ L Hf Hps).
  - intros ps fuel result l mapId' columnPrefix maps d x maps' Hf Hps H.
    destruct (Stable_injectResultInCollection _
                (Stable_injectResultInObject fuel) _ _ _ _ _ _ _ H) as [L _].
    exact (properties_kept _ _ _ _ _ L Hf Hps).
  - intros ps fuel result o columnPrefix maps d Hf Hps.
    rewrite injectResultInObject_unfold.
    apply bind_eq. unfold objPrelude.
    rewrite (bind_eq _ _ (findResultMap_Ok _ _ Hf)).
    unfold ensureProperties. rewrite Hps.
    rewrite (bind_eq _ _ (eq_refl : ret d maps = Ok (d, maps))).
    rewrite (bind_eq _ _ (getIdPropertyM_eq d maps)).
    unfold ret. now rewrite Hps.
Qed.

(** ** Copying fields *)

Lemma copyProperty_eq (result : Row) (prefix : string) (o : Obj)
      (property : FieldSpec) :
  copyProperty result prefix o property =
  copyIdField result prefix o (propField property).
Proof.
  destruct property as [s | [n c]]; unfold copyProperty, copyIdField; simpl.
  - now destruct (s =? "").
  - reflexivity.
Qed.

Lemma copyIdField_other (result : Row) (prefix : string) (o : Obj)
      (g : IdField) (k : string) :
  name g <> k -> get (copyIdField result prefix o g) k = get o k.
Proof.
  intros Hk. unfold copyIdField.
  destruct (truthy (get o (name g))); simpl; [reflexivity |].
  now apply get_set_other.
Qed.

Lemma copyIdField_truthy (result : Row) (prefix : string) (o : Obj)
      (g : IdField) (k : string) :
  truthy (get o k) = true -> get (copyIdField result prefix o g) k = get o k.
Proof.
  intros Ht. destruct (String.eqb_spec (name g) k) as [E | E].
  - unfold copyIdField. rewrite E, Ht. reflexivity.
  - now apply copyIdField_other.
Qed.

Lemma fold_copyIdField_truthy (result : Row) (prefix : string)
      (l : list IdField) (o : Obj) (k : string) :
  truthy (get o k) = true ->
  get (fold_left (copyIdField result prefix) l o) k = get o k.
Proof.
  revert o. induction l as [| g rest IH]; intros o Ht; simpl; [reflexivity |].
  rewrite IH; rewrite copyIdField_truthy; auto.
Qed.

Lemma consistentWith_spec (ids : list IdField) (g f : IdField) :
  consistentWith ids g = true -> In f ids -> name f = name g ->
  column f = column g.
Proof.
  unfold consistentWith. rewrite forallb_forall. intros H Hin Hn.
  specialize (H f Hin). rewrite Hn, eqb_refl' in H.
  now apply String.eqb_eq.
Qed.

Section Keys.

Variable result : Row.
Variable prefix : string.
Variable ids : list IdField.

Lemma holdsKey_objKey (o : Obj) :
  holdsKey result prefix ids o <->
  objKey ids o = List.map VS (rowKey ids prefix result).
Proof.
  unfold holdsKey, objKey, rowKey. rewrite List.map_map.
  split; intros H.
  - now apply List.map_ext_in.
  - intros f Hin. rewrite List.map_ext_in_iff in H. now apply H.
Qed.

Lemma copyIdField_field (o : Obj) (g f : IdField) :
  consistentWith ids g = true -> In f ids ->
  get o (name f) = VS (row_get result (prefix ++ column f)) ->
  get (copyIdField result prefix o g) (name f)
  = VS (row_get result (prefix ++ column f)).
Proof.
  intros Hc Hin Hv. destruct (String.eqb_spec (name g) (name f)) as [E | E].
  - unfold copyIdField. destruct (truthy (get o (name g))); simpl; [exact Hv |].
    rewrite E, get_set_same.
    now rewrite (consistentWith_spec _ _ _ Hc Hin (eq_sym E)).
  - now rewrite copyIdField_other.
Qed.

Lemma fold_copyIdField_field (l : list IdField) (o : Obj) (f : IdField) :
  forallb (consistentWith ids) l = true -> In f ids ->
  get o (name f) = VS (row_get result (prefix ++ column f)) ->
  get (fold_left (copyIdField result prefix) l o) (name f)
  = VS (row_get result (prefix ++ column f)).
Proof.
  revert o. induction l as [| g rest IH]; intros o Hc Hin Hv; simpl;
    [exact Hv |].
  simpl in Hc. apply andb_true_iff in Hc. destruct Hc as [Hg Hrest].
  apply IH; auto. now apply copyIdField_field.
Qed.

Lemma fold_copyIdField_holds (l : list IdField) (o : Obj) :
  forallb (consistentWith ids) l = true -> holdsKey result prefix ids o ->
  holdsKey result prefix ids (fold_left (copyIdField result prefix) l o).
Proof.
  intros Hc Hh f Hin. apply fold_copyIdField_field; auto.
Qed.

Lemma copyIdField_admits (o : Obj) (g : IdField) :
  consistentWith ids g = true -> admitsKey result prefix ids o ->
  admitsKey result prefix ids (copyIdField result prefix o g).
Proof.
  intros Hc Ha f Hin. destruct (String.eqb_spec (name g) (name f)) as [E | E].
  - unfold copyIdField. destruct (truthy (get o (name g))) eqn:Ht; simpl.
    + exact (Ha f Hin).
    + left. rewrite E, get_set_same.
      now rewrite (consistentWith_spec _ _ _ Hc Hin (eq_sym E)).
  - rewrite copyIdField_other by exact E. exact (Ha f Hin).
Qed.

Lemma copyIdField_own (o : Obj) (g : IdField) :
  In g ids -> admitsKey result prefix ids o ->
  get (copyIdField result prefix o g) (name g)
  = VS (row_get result (prefix ++ column g)).
Proof.
  intros Hin Ha. unfold copyIdField.
  destruct (truthy (get o (name g))) eqn:Ht; simpl.
  - destruct (Ha g Hin) as [H | H]; [exact H | congruence].
  - apply get_set_same.
Qed.

Lemma fold_copyIdField_ids (l : list IdField) (o : Obj) :
  forallb (consistentWith ids) l = true -> incl l ids ->
  admitsKey result prefix ids o ->
  forall g, In g l ->
    get (fold_left (copyIdField result prefix) l o) (name g)
    = VS (row_get result (prefix ++ column g)).
Proof.
  revert o. induction l as [| h rest IH]; intros o Hc Hincl Ha g Hg;
    [contradiction |].
  simpl in Hc. apply andb_true_iff in Hc. destruct Hc as [Hh Hrest].
  simpl. destruct Hg as [-> | Hg].
  - apply fold_copyIdField_field; auto.
    + apply Hincl. now left.
    + apply copyIdField_own; [apply Hincl; now left | exact Ha].
  - apply IH; auto.
    + intros x Hx. apply Hincl. now right.
    + now apply copyIdField_admits.
Qed.

(** After the identity fields are copied, the object holds the key of the
    row, when it held it or had no identity before. *)
Lemma copyIds_holds (o : Obj) :
  forallb (consistentWith ids) ids = true -> admitsKey result prefix ids o ->
  holdsKey result prefix ids (fold_left (copyIdField result prefix) ids o).
Proof.
  intros Hc Ha f Hin. apply fold_copyIdField_ids; auto. apply incl_refl.
Qed.

End Keys.

(** ** The callbacks write their own field only *)

Lemma injectAssociation_other (injectObject : Injector) (result : Row)
      (o o' : Obj) (a : Nested) (m m' : Maps) (k : string) :
  injectAssociation injectObject result o a m = Ok (o', m') ->
  n_name a <> k -> get o' k = get o k.
Proof.
  intros H Hk. unfold injectAssociation in H.
  destruct (truthy (get o (n_name a))); cbn [negb] in H.
  - destruct (get o (n_name a)) as [s | item | items]; try discriminate.
    apply bind_Ok in H. destruct H as (x & m1 & _ & H).
    inversion H; subst. now apply get_set_other.
  - apply bind_Ok in H. destruct H as (d & m1 & _ & H).
    apply bind_Ok in H. destruct H as (ids & m2 & _ & H).
    destruct (isNotNull _ _ _).
    + apply bind_Ok in H. destruct H as (x & m3 & _ & H).
      inversion H; subst. now rewrite !get_set_other.
    + inversion H; subst. now apply get_set_other.
Qed.

Lemma injectCollection_other (injectObject : Injector) (result : Row)
      (o o' : Obj) (c : Nested) (m m' : Maps) (k : string) :
  injectCollection injectObject result o c m = Ok (o', m') ->
  n_name c <> k -> get o' k = get o k.
Proof.
  intros H Hk. unfold injectCollection in H.
  destruct (truthy (get o (n_name c))); cbn [negb] in H.
  - destruct (get o (n_name c)) as [s | item | items]; try discriminate.
    apply bind_Ok in H. destruct H as (x & m1 & _ & H).
    inversion H; subst. now apply get_set_other.
  - apply bind_Ok in H. destruct H as (x & m1 & _ & H).
    inversion H; subst. now apply get_set_other.
Qed.

Lemma forEachM_other (f : Obj -> Nested -> M Obj) (k : string) :
  (forall o o' n m m', f o n m = Ok (o', m') -> n_name n <> k ->
                       get o' k = get o k) ->
  forall l o o' m m',
    forEachM f l o m = Ok (o', m') ->
    ~ In k (List.map n_name l) -> get o' k = get o k.
Proof.
  intros Hf. induction l as [| n rest IH]; intros o o' m m' H Hk; simpl in H.
  - now inversion H.
  - apply bind_Ok in H. destruct H as (o1 & m1 & H1 & H2).
    rewrite (IH _ _ _ _ H2).
    + apply (Hf _ _ _ _ _ H1). intros E. apply Hk. now left.
    + intros Hin. apply Hk. now right.
Qed.

Lemma forEachOpt_other (f : Obj -> Nested -> M Obj) (k : string) :
  (forall o o' n m m', f o n m = Ok (o', m') -> n_name n <> k ->
                       get o' k = get o k) ->
  forall l o o' m m',
    forEachOpt f l o m = Ok (o', m') ->
    ~ In k (List.map n_name (match l with Some l => l | None => [] end)) ->
    get o' k = get o k.
Proof.
  intros Hf [l |] o o' m m' H Hk; simpl in H.
  - now apply (forEachM_other f k Hf l o o' m m').
  - now inversion H.
Qed.

(** ** Well-formed definitions *)

Lemma wellFormed_inv (d : ResultMap) :
  wellFormed d = true ->
  let ids := fst (getIdProperty d) in
  forallb (consistentWith ids) ids = true /\
  (forall result prefix,
      forallb (consistentWith ids)
        (List.map propField
           (match rm_properties d with
            | Some ps => ps
            | None => inferProperties result prefix
            end)) = true) /\
  (forall f n, In f ids -> In n (nestedOf d) -> name f <> n_name n) /\
  (forall f, In f ids -> truthy (get (createMappedObject d) (name f)) = false).
Proof.
  intros H. cbv zeta. unfold wellFormed in H.
  set (ids := fst (getIdProperty d)) in *.
  apply andb_true_iff in H. destruct H as [H H4].
  apply andb_true_iff in H. destruct H as [H H3].
  apply andb_true_iff in H. destruct H as [H1 H2].
  split; [exact H1 |]. split; [| split].
  - intros result prefix. destruct (rm_properties d) as [ps |].
    + rewrite forallb_forall in *. intros g Hg.
      apply in_map_iff in Hg. destruct Hg as (p & <- & Hp). now apply H2.
    + rewrite inferProperties_spec, List.map_map. simpl.
      rewrite forallb_forall in *. intros g Hg.
      apply in_map_iff in Hg. destruct Hg as (s & <- & _).
      unfold consistentWith. rewrite forallb_forall. intros f Hf. simpl.
      specialize (H2 f Hf). apply String.eqb_eq in H2.
      destruct (String.eqb_spec (name f) s) as [E | E]; [| reflexivity].
      rewrite <- H2, E. apply eqb_refl'.
  - intros f n Hf Hn E. rewrite forallb_forall in H3.
    specialize (H3 n Hn). apply negb_true_iff in H3.
    assert (Hex : existsb (fun f0 => name f0 =? n_name n) ids = true).
    { apply existsb_exists. exists f. split; [exact Hf |].
      rewrite E. apply eqb_refl'. }
    congruence.
  - intros f Hf. rewrite forallb_forall in H4.
    now apply negb_true_iff, H4.
Qed.

Lemma wellFormed_le (d d' : ResultMap) :
  rm_le d d' -> wellFormed d = true -> wellFormed d' = true.
Proof.
  intros Hle H. pose proof (rm_le_ids _ _ Hle) as Hids.
  destruct Hle as (_ & Ha & Hc & Hn & _ & Hq).
  unfold wellFormed, nestedOf, createMappedObject in *.
  rewrite Hids, Ha, Hc, Hn.
  destruct Hq as [-> | [Hq [names ->]]]; [exact H |].
  rewrite Hq in H.
  apply andb_true_iff in H. destruct H as [H H4].
  apply andb_true_iff in H. destruct H as [H H3].
  apply andb_true_iff in H. destruct H as [H1 H2].
  rewrite H1, H3, H4, !andb_true_r. cbn [andb].
  rewrite forallb_forall in H2. rewrite forallb_forall. intros p Hp.
  apply in_map_iff in Hp. destruct Hp as (s & <- & _).
  unfold consistentWith. rewrite forallb_forall. intros f Hf. simpl.
  specialize (H2 f Hf). apply String.eqb_eq in H2.
  destruct (String.eqb_spec (name f) s) as [E | E]; [| reflexivity].
  rewrite <- H2, E. apply eqb_refl'.
Qed.

Lemma fold_copyProperty (result : Row) (prefix : string)
      (ps : list FieldSpec) (o : Obj) :
  fold_left (copyProperty result prefix) ps o =
  fold_left (copyIdField result prefix) (List.map propField ps) o.
Proof.
  revert o. induction ps as [| p rest IH]; intros o; simpl; [reflexivity |].
  now rewrite IH, copyProperty_eq.
Qed.

(** ** An injected object keeps or takes the key of the row *)

Lemma injectResultInObject_holdsKey (fuel : nat) (result : Row) (o o' : Obj)
      (mapId : string) (columnPrefix : option string) (m m' : Maps)
      (d : ResultMap) :
  find_map m mapId = Some d -> wellFormed d = true ->
  injectResultInObject fuel result o mapId columnPrefix m = Ok (o', m') ->
  admitsKey result (defaultPrefix columnPrefix) (fst (getIdProperty d)) o ->
  holdsKey result (defaultPrefix columnPrefix) (fst (getIdProperty d)) o'.
Proof.
  intros Hf Hwf H Ha. destruct fuel as [| fuel]; [discriminate |].
  rewrite injectResultInObject_unfold in H.
  apply bind_Ok in H. destruct H as (p & m1 & H1 & H2).
  destruct (objPrelude_inv H1) as (d0 & d1 & Hf0 & Hd1 & -> & _).
  rewrite Hf in Hf0. inversion Hf0; subst d0; clear Hf0.
  destruct (wellFormed_inv d Hwf) as (W1 & W2 & W3 & _).
  set (ids := fst (getIdProperty d)) in *.
  set (prefix := defaultPrefix columnPrefix) in *.
  assert (Hids : fst (getIdProperty d1) = ids).
  { apply getIdProperty_ext. rewrite Hd1. now destruct (rm_properties d). }
  assert (Hps : exists ps,
             rm_properties d1 = Some ps /\
             forallb (consistentWith ids) (List.map propField ps) = true).
  { specialize (W2 result prefix). rewrite Hd1.
    destruct (rm_properties d) as [ps |] eqn:E.
    - exists ps. now rewrite E.
    - now exists (inferProperties result prefix). }
  destruct Hps as (ps & Hps & Hcons).
  unfold objBody in H2. rewrite Hids, Hps in H2.
  apply bind_Ok in H2. destruct H2 as (o3 & m3 & H3 & H4).
  intros f Hin.
  assert (Hnot : forall l, incl (match l with Some l => l | None => [] end)
                            (nestedOf d) ->
                 ~ In (name f) (List.map n_name
                                  (match l with Some l => l | None => [] end))).
  { intros l Hl Hn. apply in_map_iff in Hn. destruct Hn as (n & E & Hn).
    apply (W3 f n Hin (Hl _ Hn)). now rewrite E. }
  assert (E4 : get o' (name f) = get o3 (name f)).
  { apply (forEachOpt_other
             (injectCollection (injectResultInObject fuel) result) (name f))
      with (l := rm_collections d) (m := m3) (m' := m').
    - intros a a' n m0 m0' Hstep Hne.
      now apply (injectCollection_other _ _ _ _ _ _ _ _ Hstep).
    - exact H4.
    - apply Hnot. unfold nestedOf. apply incl_appr, incl_refl. }
  assert (E3 : get o3 (name f)
               = get (fold_left (copyProperty result prefix) ps
                        (fold_left (copyIdField result prefix) ids o))
                     (name f)).
  { apply (forEachOpt_other
             (injectAssociation (injectResultInObject fuel) result) (name f))
      with (l := rm_associations d) (m := m1) (m' := m3).
    - intros a a' n m0 m0' Hstep Hne.
      now apply (injectAssociation_other _ _ _ _ _ _ _ _ Hstep).
    - exact H3.
    - apply Hnot. unfold nestedOf. apply incl_appl, incl_refl. }
  rewrite E4, E3.
  rewrite fold_copyProperty.
  apply (fold_copyIdField_field result prefix ids); auto.
  now apply copyIds_holds.
Qed.

(** ** The predicate of the collection lookup *)

Lemma In_set_inv (o : Obj) (k k' : string) (v v' : Val) :
  In (k', v') (set o k v) -> (k' = k /\ v' = v) \/ In (k', v') o.
Proof.
  induction o as [| [k0 v0] rest IH]; simpl.
  - intros [H | []]. inversion H. now left.
  - destruct (String.eqb_spec k0 k) as [E | E]; simpl.
    + intros [H | H]; [inversion H; subst; now left | right; now right].
    + intros [H | H]; [right; now left |].
      destruct (IH H) as [H' | H']; [now left | right; now right].
Qed.

Lemma In_set_key (o : Obj) (k : string) (v : Val) :
  exists v', In (k, v') (set o k v).
Proof.
  induction o as [| [k0 v0] rest IH]; simpl.
  - exists v. now left.
  - destruct (String.eqb_spec k0 k) as [E | E].
    + exists v. left. now rewrite E.
    + destruct IH as [v' H]. exists v'. now right.
Qed.

Lemma In_set_keeps_key (o : Obj) (k k' : string) (v v0 : Val) :
  In (k', v0) o -> exists v', In (k', v') (set o k v).
Proof.
  induction o as [| [k1 v1] rest IH]; simpl; [contradiction |].
  intros [H | H].
  - inversion H; subst. destruct (String.eqb_spec k' k) as [E | E].
    + exists v. left. reflexivity.
    + exists v0. now left.
  - destruct (String.eqb_spec k1 k) as [E | E].
    + exists v0. now right.
    + destruct (IH H) as [v' H']. exists v'. now right.
Qed.

Section Predicate.

Variable result : Row.
Variable prefix : string.

Lemma predicate_sound (l : list IdField) (acc : Obj) (k : string) (v : Val) :
  In (k, v) (fold_left (predicateStep result prefix) l acc) ->
  In (k, v) acc \/
  exists f, In f l /\ k = name f /\
            v = VS (row_get result (prefix ++ column f)).
Proof.
  revert acc. induction l as [| g rest IH]; intros acc H; simpl in H.
  - now left.
  - destruct (IH _ H) as [H' | (f & Hf & E1 & E2)].
    + apply In_set_inv in H'. destruct H' as [[-> ->] | H']; [| now left].
      right. exists g. split; [now left | now split].
    + right. exists f. split; [now right | now split].
Qed.

Lemma predicate_keeps_key (l : list IdField) (acc : Obj) (k : string)
      (v : Val) :
  In (k, v) acc ->
  exists v', In (k, v') (fold_left (predicateStep result prefix) l acc).
Proof.
  revert acc v. induction l as [| g rest IH]; intros acc v H; simpl.
  - now exists v.
  - destruct (In_set_keeps_key acc (name g) k
                (VS (row_get result (prefix ++ column g))) v H) as [v' H'].
    now apply IH with v'.
Qed.

Lemma predicate_complete (l : list IdField) (acc : Obj) (f : IdField) :
  In f l ->
  exists v, In (name f, v) (fold_left (predicateStep result prefix) l acc).
Proof.
  revert acc. induction l as [| g rest IH]; intros acc H; [contradiction |].
  simpl. destruct H as [-> | H]; [| now apply IH].
  destruct (In_set_key acc (name f)
              (VS (row_get result (prefix ++ column f)))) as [v' H'].
  now apply predicate_keeps_key with v'.
Qed.

(** The item found by the lookup is an item that holds the key of the
    row: the comparison is equality of values, field by field. *)
Lemma matchesPredicate_spec (ids : list IdField) (item : Obj) :
  forallb (consistentWith ids) ids = true ->
  matchesPredicate (buildPredicate result prefix ids) item = true <->
  holdsKey result prefix ids item.
Proof.
  intros Hc. unfold matchesPredicate, buildPredicate.
change (fold_left _ ids [])
  with (fold_left (predicateStep result prefix) ids []).
  rewrite forallb_forall. split.
  - intros H f Hin.
    destruct (predicate_complete ids [] f Hin) as [v Hv].
    specialize (H _ Hv). simpl in H.
    destruct (predicate_sound _ _ _ _ Hv) as [[] | (g & Hg & E1 & ->)].
    rewrite forallb_forall in Hc.
    rewrite <- (consistentWith_spec ids g f (Hc g Hg) Hin E1) in H.
    simpl in H. apply negb_true_iff in H.
    destruct (get item (name f)) as [s | |]; simpl in H; try discriminate.
    apply negb_false_iff, scalar_eqb_eq in H. now rewrite H.
  - intros H [k v] Hkv.
    destruct (predicate_sound _ _ _ _ Hkv) as [[] | (g & Hg & -> & ->)].
    simpl. rewrite (H g Hg). simpl.
    apply negb_true_iff, negb_false_iff, scalar_eqb_eq. reflexivity.
Qed.

End Predicate.

Lemma findItem_Some (p : Obj -> bool) (l before after : list Obj) (x : Obj) :
  findItem p l = Some (before, x, after) ->
  l = (before ++ x :: after)%list /\ p x = true /\
  forall y, In y before -> p y = false.
Proof.
  revert before. induction l as [| y rest IH]; intros before H; simpl in H;
    [discriminate |].
  destruct (p y) eqn:E.
  - inversion H; subst. repeat split; auto. intros z [].
  - destruct (findItem p rest) as [[[b z] a] |]; [| discriminate].
    inversion H; subst. destruct (IH b eq_refl) as (-> & Hx & Hb).
    repeat split; auto. intros w [<- | Hw]; auto.
Qed.

Lemma findItem_None (p : Obj -> bool) (l : list Obj) :
  findItem p l = None -> forall y, In y l -> p y = false.
Proof.
  induction l as [| x rest IH]; simpl; intros H y Hy; [contradiction |].
  destruct (p x) eqn:E; [discriminate |].
  destruct (findItem p rest) as [[[b z] a] |]; [discriminate |].
  destruct Hy as [<- | Hy]; auto.
Qed.

(** ** One row injected in a collection *)

Lemma isNotNull_keyNotNull (result : Row) (prefix : string)
      (ids : list IdField) :
  isNotNull result (fun c => prefix ++ c) ids
  = keyNotNull (rowKey ids prefix result).
Proof.
  unfold isNotNull, keyNotNull, rowKey.
  induction ids as [| f rest IH]; simpl; [reflexivity | now rewrite IH].
Qed.

Lemma idPrelude_inv {mapId : string} {m m1 : Maps} {x} :
  idPrelude mapId m = Ok (x, m1) ->
  exists d,
    find_map m mapId = Some d /\
    x = (fst (getIdProperty d), createMappedObject d) /\
    m1 = store_map m (snd (getIdProperty d)) /\
    find_map m1 mapId = Some (snd (getIdProperty d)).
Proof.
  unfold idPrelude. intros H.
  apply bind_Ok in H. destruct H as (d & m0 & H0 & H).
  apply findResultMap_inv in H0. destruct H0 as [Hf ->].
  rewrite (bind_eq _ _ (getIdPropertyM_eq d m)) in H.
  inversion H; subst; clear H. exists d. repeat split; auto.
  apply (find_store_same _ Hf). rewrite getIdProperty_mapId.
  now apply find_map_mapId with m.
Qed.

Lemma injectResultInCollection_step (fuel : nat) (result : Row)
      (coll coll' : list Obj) (mapId : string) (columnPrefix : option string)
      (m m' : Maps) (d : ResultMap) :
  find_map m mapId = Some d -> wellFormed d = true ->
  injectResultInCollection (injectResultInObject fuel) result coll mapId
                           columnPrefix m = Ok (coll', m') ->
  insertedInOrder (fst (getIdProperty d))
    (rowKey (fst (getIdProperty d)) (defaultPrefix columnPrefix) result)
    coll coll'.
Proof.
  intros Hf Hwf H. unfold insertedInOrder.
  set (ids := fst (getIdProperty d)).
  set (key := rowKey ids (defaultPrefix columnPrefix) result).
  rewrite injectResultInCollection_unfold in H.
  apply bind_Ok in H. destruct H as (p & m1 & H1 & H2).
  destruct (idPrelude_inv H1) as (d0 & Hf0 & -> & _ & Hf1).
  rewrite Hf in Hf0. inversion Hf0; subst d0; clear Hf0.
  destruct (wellFormed_inv d Hwf) as (W1 & _ & _ & W4). fold ids in W1, W4.
  assert (Hwf1 : wellFormed (snd (getIdProperty d)) = true)
    by (apply (wellFormed_le d); [apply rm_le_norm | exact Hwf]).
  assert (Hids : fst (getIdProperty (snd (getIdProperty d))) = ids)
    by now rewrite getIdProperty_idem.
  unfold collBody in H2; cbn [fst snd] in H2. fold ids in H2.
  rewrite isNotNull_keyNotNull in H2. fold key in H2.
  destruct (keyNotNull key) eqn:Hnn.
  - right.
    destruct (findItem _ coll) as [[[before item] after] |] eqn:Hfind.
    + left. split; [reflexivity |].
      apply findItem_Some in Hfind. destruct Hfind as (-> & Hitem & Hbefore).
      apply bind_Ok in H2. destruct H2 as (o & m2 & Ho & H2).
      inversion H2; subst; clear H2.
      apply matchesPredicate_spec in Hitem; [| exact W1].
      exists before, item, after, o. split; [reflexivity |].
      split; [reflexivity |]. split; [now apply holdsKey_objKey |]. split.
      * apply holdsKey_objKey. rewrite <- Hids.
        apply (injectResultInObject_holdsKey _ _ _ _ _ _ _ _ _ Hf1 Hwf1 Ho).
        rewrite Hids. intros f Hin. left. now apply Hitem.
      * intros y Hy E. apply holdsKey_objKey in E.
        apply (matchesPredicate_spec _ _ _ _ W1) in E.
        specialize (Hbefore y Hy). congruence.
    + right. split; [reflexivity |]. split.
      * intros y Hy E. apply holdsKey_objKey in E.
        apply (matchesPredicate_spec _ _ _ _ W1) in E.
        pose proof (findItem_None _ _ Hfind y Hy). congruence.
      * apply bind_Ok in H2. destruct H2 as (o & m2 & Ho & H2).
        inversion H2; subst; clear H2. exists o. split; [reflexivity |].
        apply holdsKey_objKey. rewrite <- Hids.
        apply (injectResultInObject_holdsKey _ _ _ _ _ _ _ _ _ Hf1 Hwf1 Ho).
        rewrite Hids. intros f Hin. right. now apply W4.
  - left. inversion H2; subst. now split.
Qed.

(** ** Distinct keys in first-occurrence order *)

Lemma key_eqb_eq (a b : list Scalar) : key_eqb a b = true <-> a = b.
Proof.
  revert b. induction a as [| x a IH]; intros [| y b]; simpl;
    try (split; [discriminate | discriminate]); [now split |].
  rewrite andb_true_iff, scalar_eqb_eq, IH. split.
  - now intros [-> ->].
  - intros H. now inversion H.
Qed.

Lemma key_eqb_refl (a : list Scalar) : key_eqb a a = true.
Proof. now apply key_eqb_eq. Qed.

Lemma existsb_key (k : list Scalar) (acc : list (list Scalar)) :
  existsb (key_eqb k) acc = true <-> In k acc.
Proof.
  rewrite existsb_exists. split.
  - intros (x & Hx & E). apply key_eqb_eq in E. now subst.
  - intros H. exists k. split; [exact H | apply key_eqb_refl].
Qed.

Lemma filter_filter_absorb (k : list Scalar) (acc l : list (list Scalar)) :
  In k acc ->
  List.filter (fun x => negb (existsb (key_eqb x) acc))
              (List.filter (fun x => negb (key_eqb x k)) l)
  = List.filter (fun x => negb (existsb (key_eqb x) acc)) l.
Proof.
  intros Hk. induction l as [| x rest IH]; simpl; [reflexivity |].
  destruct (key_eqb x k) eqn:E; simpl.
  - apply key_eqb_eq in E. subst x.
    rewrite (proj2 (existsb_key k acc) Hk). simpl. exact IH.
  - now rewrite IH.
Qed.

Lemma fold_addKey (l acc : list (list Scalar)) :
  fold_left addKey l acc =
  (acc ++ List.filter (fun x => negb (existsb (key_eqb x) acc))
                      (firstOccurrences l))%list.
Proof.
  revert acc. induction l as [| k rest IH]; intros acc; simpl.
  - now rewrite app_nil_r.
  - rewrite IH. unfold addKey. destruct (existsb (key_eqb k) acc) eqn:E; simpl.
    + f_equal. symmetry. apply filter_filter_absorb. now apply existsb_key.
    + rewrite <- app_assoc. simpl. do 2 f_equal.
      clear IH. induction (firstOccurrences rest) as [| x l' IH']; simpl;
        [reflexivity |].
      rewrite existsb_app. simpl. rewrite orb_false_r.
      destruct (key_eqb x k); simpl.
      * rewrite orb_true_r. simpl. exact IH'.
      * rewrite orb_false_r.
        destruct (existsb (key_eqb x) acc); simpl; [exact IH' | now rewrite IH'].
Qed.






(** ** The keys of the whole result *)

Lemma map_VS_inj (a b : list Scalar) : List.map VS a = List.map VS b -> a = b.
Proof.
  revert b. induction a as [| x a IH]; intros [| y b] H; simpl in H;
    try discriminate; [reflexivity |].
  inversion H. f_equal. now apply IH.
Qed.

Lemma In_map_VS (k : list Scalar) (acc : list (list Scalar)) :
  In (List.map VS k) (List.map (List.map VS) acc) <-> In k acc.
Proof.
  rewrite in_map_iff. split.
  - intros (x & E & Hx). apply map_VS_inj in E. now subst.
  - intros H. now exists k.
Qed.


Lemma insertedInOrder_keys (ids : list IdField) (key : list Scalar)
      (coll coll' : list Obj) (acc : list (list Scalar)) :
  insertedInOrder ids key coll coll' ->
  List.map (objKey ids) coll = List.map (List.map VS) acc ->
  List.map (objKey ids) coll' =
  List.map (List.map VS)
           (if keyNotNull key then addKey acc key else acc).
Proof.
  intros [[Hn ->] | [(Hn & b & item & a & o & -> & -> & Hi & Ho & _)
                    | (Hn & Hnone & o & -> & Ho)]] Hacc; rewrite Hn.
  - exact Hacc.
  - assert (Hin : In key acc).
    { apply In_map_VS. rewrite <- Hacc, <- Hi. apply in_map.
      apply in_or_app. right. now left. }
    unfold addKey. rewrite (proj2 (existsb_key key acc) Hin).
    rewrite <- Hacc, !map_app. simpl. now rewrite Hi, Ho.
  - assert (Hnin : existsb (key_eqb key) acc = false).
    { destruct (existsb (key_eqb key) acc) eqn:E; [| reflexivity].
      apply existsb_key, In_map_VS in E. rewrite <- Hacc in E.
      apply in_map_iff in E. destruct E as (y & Ey & Hy).
      now destruct (Hnone y Hy). }
    unfold addKey. rewrite Hnin, !map_app, Hacc. simpl. now rewrite Ho.
Qed.

Lemma map_from_keys (fuel : nat) (mapId : string)
      (columnPrefix : option string) (ids : list IdField)
      (resultSet : list Row) :
  forall coll acc m out m' d,
    find_map m mapId = Some d -> wellFormed d = true ->
    fst (getIdProperty d) = ids ->
    forEachM
      (fun mappedCollection result =>
         injectResultInCollection (injectResultInObject fuel) result
                                  mappedCollection mapId columnPrefix)
      resultSet coll m = Ok (out, m') ->
    List.map (objKey ids) coll = List.map (List.map VS) acc ->
    List.map (objKey ids) out =
    List.map (List.map VS)
      (fold_left addKey
         (List.filter keyNotNull
            (List.map (rowKey ids (defaultPrefix columnPrefix)) resultSet))
         acc).
Proof.
  induction resultSet as [| result rest IH];
    intros coll acc m out m' d Hf Hwf Hids H Hacc; simpl in H.
  - inversion H; subst. exact Hacc.
  - apply bind_Ok in H. destruct H as (coll1 & m1 & H1 & H2).
    pose proof (injectResultInCollection_step _ _ _ _ _ _ _ _ _ Hf Hwf H1)
      as Hstep.
    rewrite Hids in Hstep.
    pose proof (insertedInOrder_keys _ _ _ _ _ Hstep Hacc) as Hacc1.
    destruct (Stable_injectResultInCollection _
                (Stable_injectResultInObject fuel) _ _ _ _ _ _ _ H1) as [L _].
    destruct (find_le _ _ _ _ L Hf) as (d1 & Hf1 & Hle).
    specialize (IH coll1 _ m1 out m' d1 Hf1 (wellFormed_le _ _ Hle Hwf)
                   (eq_trans (rm_le_ids _ _ Hle) Hids) H2 Hacc1).
    rewrite IH. simpl.
    now destruct (keyNotNull (rowKey ids (defaultPrefix columnPrefix) result)).
Qed.

Lemma map_keys (fuel : nat) (resultSet : list Row) (mapId : string)
      (columnPrefix : option string) (maps maps' : Maps) (out : list Obj)
      (d : ResultMap) :
  find_map maps mapId = Some d -> wellFormed d = true ->
  joinjs.map fuel resultSet mapId columnPrefix maps = Ok (out, maps') ->
  List.map (objKey (fst (getIdProperty d))) out =
  List.map (List.map VS)
    (firstOccurrences
       (List.filter keyNotNull
          (List.map (rowKey (fst (getIdProperty d))
                            (defaultPrefix columnPrefix)) resultSet))).
Proof.
  intros Hf Hwf H. unfold joinjs.map in H.
  rewrite (map_from_keys fuel mapId columnPrefix _ resultSet [] [] _ _ _ _
             Hf Hwf eq_refl H eq_refl).
  rewrite fold_addKey. simpl. f_equal.
  induction (firstOccurrences _) as [| x l IH]; simpl; [reflexivity |].
  now rewrite IH.
Qed.

Lemma injectCollection_inv (injectObject : Injector) (result : Row)
      (o o' : Obj) (c : Nested) (m m' : Maps) :
  injectCollection injectObject result o c m = Ok (o', m') ->
  exists items items',
    (get o (n_name c) = VA items \/
     (truthy (get o (n_name c)) = false /\ items = [])) /\
    injectResultInCollection injectObject result items (n_mapId c)
                             (n_columnPrefix c) m = Ok (items', m') /\
    o' = set o (n_name c) (VA items').
Proof.
  unfold injectCollection. intros H.
  destruct (truthy (get o (n_name c))) eqn:Ht; cbn [negb] in H.
  - destruct (get o (n_name c)) as [s | item | items]; try discriminate.
    apply bind_Ok in H. destruct H as (items' & m1 & H1 & H).
    inversion H; subst. exists items, items'. split; [now left |]. now split.
  - apply bind_Ok in H. destruct H as (items' & m1 & H1 & H).
    inversion H; subst. exists [], items'. split; [now right |]. now split.
Qed.




(** ** Absent identity columns *)



(** ** Fields that are already set *)

Lemma forEachM_invariant {A B : Type} (f : A -> B -> M A) (P : A -> Prop) :
  (forall a a' x m m', f a x m = Ok (a', m') -> P a -> P a') ->
  forall l a a' m m', forEachM f l a m = Ok (a', m') -> P a -> P a'.
Proof.
  intros Hf. induction l as [| x rest IH]; intros a a' m m' H Ha; simpl in H.
  - now inversion H; subst.
  - apply bind_Ok in H. destruct H as (a1 & m1 & H1 & H2).
    apply (IH _ _ _ _ H2). now apply (Hf _ _ _ _ _ H1).
Qed.

Lemma forEachOpt_invariant {A B : Type} (f : A -> B -> M A) (P : A -> Prop) :
  (forall a a' x m m', f a x m = Ok (a', m') -> P a -> P a') ->
  forall l a a' m m', forEachOpt f l a m = Ok (a', m') -> P a -> P a'.
Proof.
  intros Hf [l |] a a' m m' H Ha; simpl in H.
  - now apply (forEachM_invariant f P Hf l a a' m m').
  - now inversion H; subst.
Qed.

Lemma injectAssociation_scalar (injectObject : Injector) (result : Row)
      (o o' : Obj) (a : Nested) (m m' : Maps) (k : string) (s : Scalar) :
  injectAssociation injectObject result o a m = Ok (o', m') ->
  scalar_truthy s = true -> get o k = VS s -> get o' k = VS s.
Proof.
  intros H Hs Hk. destruct (String.eqb_spec (n_name a) k) as [E | E].
  - unfold injectAssociation in H. rewrite E, Hk in H. simpl in H.
    rewrite Hs in H. discriminate.
  - now rewrite (injectAssociation_other _ _ _ _ _ _ _ _ H E).
Qed.

Lemma injectCollection_scalar (injectObject : Injector) (result : Row)
      (o o' : Obj) (c : Nested) (m m' : Maps) (k : string) (s : Scalar) :
  injectCollection injectObject result o c m = Ok (o', m') ->
  scalar_truthy s = true -> get o k = VS s -> get o' k = VS s.
Proof.
  intros H Hs Hk. destruct (String.eqb_spec (n_name c) k) as [E | E].
  - unfold injectCollection in H. rewrite E, Hk in H. simpl in H.
    rewrite Hs in H. discriminate.
  - now rewrite (injectCollection_other _ _ _ _ _ _ _ _ H E).
Qed.

Lemma injectResultInObject_scalar (fuel : nat) (result : Row) (o o' : Obj)
      (mapId : string) (columnPrefix : option string) (m m' : Maps)
      (k : string) (s : Scalar) :
  injectResultInObject fuel result o mapId columnPrefix m = Ok (o', m') ->
  scalar_truthy s = true -> get o k = VS s -> get o' k = VS s.
Proof.
  intros H Hs Hk. destruct fuel as [| fuel]; [discriminate |].
  rewrite injectResultInObject_unfold in H.
  apply bind_Ok in H. destruct H as ([[[ids ps] al] cl] & m1 & _ & H).
  unfold objBody in H.
  apply bind_Ok in H. destruct H as (o3 & m3 & H3 & H4).
  apply (forEachOpt_invariant _ (fun o => get o k = VS s)
           (fun a a' x m m' H => injectCollection_scalar _ _ a a' x m m' k s H Hs)
           _ _ _ _ _ H4).
  apply (forEachOpt_invariant _ (fun o => get o k = VS s)
           (fun a a' x m m' H => injectAssociation_scalar _ _ a a' x m m' k s H Hs)
           _ _ _ _ _ H3).
  assert (Ht : forall o0, get o0 k = VS s -> truthy (get o0 k) = true)
    by (intros o0 E; now rewrite E).
  assert (Hids : get (fold_left (copyIdField result (defaultPrefix columnPrefix))
                                ids o) k = VS s)
    by (rewrite fold_copyIdField_truthy; auto).
  destruct ps as [ps |]; [| exact Hids].
  rewrite fold_copyProperty, fold_copyIdField_truthy; auto.
Qed.

(** C1 on the code: a field that an earlier row has set to a falsy value
    ([0] here) is written again by a later row of the same object; a field
    that holds a truthy primitive is never written again by an injection
    that returns. *)
Theorem C1_first_write_wins_unless_falsy :
  joinjs.map 2 countedRows "m" None countedMaps =
    Ok ([[("id", VS (SNum 1)); ("n", VS (SNum 5))]], countedMaps) /\
  joinjs.map 2 [[("id", SNum 1); ("n", SNum 0)]] "m" None countedMaps =
    Ok ([[("id", VS (SNum 1)); ("n", VS (SNum 0))]], countedMaps) /\
  (forall fuel result o o' mapId columnPrefix m m' k s,
      injectResultInObject fuel result o mapId columnPrefix m = Ok (o', m') ->
      scalar_truthy s = true -> get o k = VS s -> get o' k = VS s).
Proof.
  split; [reflexivity |]. split; [reflexivity |].
  intros fuel result o o' mapId columnPrefix m m' k s.
  apply injectResultInObject_scalar.
Qed.

Lemma C1_first_write_wins_unless_falsy_witness :
  get [("id", VS (SNum 1)); ("n", VS (SNum 7))] "n" = VS (SNum 7).
Proof.
  exact (proj2 (proj2 C1_first_write_wins_unless_falsy)
           2 [("id", SNum 1); ("n", SNum 5)]
           [("id", VS (SNum 1)); ("n", VS (SNum 7))]
           [("id", VS (SNum 1)); ("n", VS (SNum 7))]
           "m" None countedMaps countedMaps "n" (SNum 7)
           eq_refl eq_refl eq_refl).
Defined.

(** ** Configurations on which the mapper returns *)

Lemma memb_In (k : string) (l : list string) : memb k l = true <-> In k l.
Proof.
  unfold memb. rewrite existsb_exists. split.
  - intros (x & Hx & E). apply String.eqb_eq in E. now subst.
  - intros H. exists k. split; [exact H | apply eqb_refl'].
Qed.

Lemma memb_not_In (k : string) (l : list string) :
  memb k l = false <-> ~ In k l.
Proof.
  rewrite <- memb_In. destruct (memb k l); split; congruence.
Qed.

Lemma nestedOf_le (d d' : ResultMap) : rm_le d d' -> nestedOf d' = nestedOf d.
Proof. intros (_ & Ha & Hc & _). unfold nestedOf. now rewrite Ha, Hc. Qed.

Lemma closed_S (n : nat) (m : Maps) (mapId : string) :
  closed (S n) m mapId =
  match find_map m mapId with
  | Some d => forallb (fun x => closed n m (n_mapId x)) (nestedOf d)
  | None => false
  end.
Proof. reflexivity. Qed.

Lemma closed_le (n : nat) :
  forall m m' mapId,
    maps_le m m' -> closed n m mapId = true -> closed n m' mapId = true.
Proof.
  induction n as [| n IH]; intros m m' mapId Hle H; [discriminate |].
  rewrite closed_S in *.
  destruct (find_map m mapId) as [d |] eqn:E; [| discriminate].
  destruct (find_le _ _ _ _ Hle E) as (d' & -> & Hd).
  rewrite (nestedOf_le _ _ Hd). rewrite forallb_forall in *.
  intros x Hx. apply (IH m); auto.
Qed.

Lemma closed_mono (n : nat) :
  forall m mapId, closed n m mapId = true -> closed (S n) m mapId = true.
Proof.
  induction n as [| n IH]; intros m mapId H; [discriminate |].
  rewrite closed_S in *.
  destruct (find_map m mapId) as [d |]; [| discriminate].
  rewrite forallb_forall in *. intros x Hx. apply IH. now apply H.
Qed.

Lemma closed_fuel (n fuel : nat) (m : Maps) (mapId : string) :
  n <= fuel -> closed n m mapId = true -> closed fuel m mapId = true.
Proof.
  intros Hle H. induction Hle as [| k Hk IH]; [exact H |].
  now apply closed_mono.
Qed.

Lemma find_map_In (m : Maps) (mapId : string) (d : ResultMap) :
  find_map m mapId = Some d -> In d m.
Proof.
  induction m as [| x rest IH]; simpl; [discriminate |].
  destruct (rm_mapId x =? mapId).
  - intros H. inversion H. now left.
  - intros H. right. now apply IH.
Qed.

Lemma forallb_store (P : ResultMap -> bool) (m : Maps) (d : ResultMap) :
  forallb P m = true -> P d = true -> forallb P (store_map m d) = true.
Proof.
  intros Hm Hd. induction m as [| x rest IH]; simpl in *; [reflexivity |].
  apply andb_true_iff in Hm. destruct Hm as [Hx Hrest].
  destruct (rm_mapId x =? rm_mapId d); simpl.
  - now rewrite Hd, Hrest.
  - now rewrite Hx, IH.
Qed.

Lemma drop_suffixes (n : nat) (k : string) : In (drop n k) (suffixes k).
Proof.
  revert k. induction n as [| n IH]; intros k.
  - destruct k; simpl; now left.
  - destruct k as [| c k]; simpl; [now left |]. right. apply IH.
Qed.

Lemma forEachM_total {A B : Type} (f : A -> B -> M A) (G : A -> Prop)
      (Pm : Maps -> Prop) (Q : B -> Maps -> Prop) :
  (forall x m m', maps_le m m' -> Q x m -> Q x m') ->
  (forall a x m, G a -> Pm m -> Q x m ->
     exists a' m', f a x m = Ok (a', m') /\ G a' /\ Pm m' /\ maps_le m m') ->
  forall l a m, G a -> Pm m -> (forall x, In x l -> Q x m) ->
    exists a' m',
      forEachM f l a m = Ok (a', m') /\ G a' /\ Pm m' /\ maps_le m m'.
Proof.
  intros HQ Hf. induction l as [| x rest IH]; intros a m Ha Hm Hl; simpl.
  - exists a, m. repeat split; auto. apply maps_le_refl.
  - destruct (Hf a x m Ha Hm (Hl x (or_introl eq_refl)))
      as (a1 & m1 & E1 & Ha1 & Hm1 & L1).
    destruct (IH a1 m1 Ha1 Hm1) as (a' & m' & E & Ha' & Hm' & L).
    { intros y Hy. apply (HQ y m); auto. apply Hl. now right. }
    exists a', m'. rewrite (bind_eq _ _ E1). repeat split; auto.
    now apply maps_le_trans with m1.
Qed.

Section Total.

Variables assocs colls : list string.
Hypothesis apart : forall k, In k assocs -> ~ In k colls.

Lemma Good_set (o : Obj) (k : string) (v : Val) :
  Good assocs colls o ->
  (In k assocs ->
   truthy v = false \/ exists o', v = VO o' /\ Good assocs colls o') ->
  (In k colls ->
   truthy v = false \/ exists l, v = VA l /\ Forall (Good assocs colls) l) ->
  Good assocs colls (set o k v).
Proof.
  intros Ho Ha Hc. inversion Ho as [o0 HA HC E]; subst o0.
  constructor; intros k' Hk'.
  - destruct (String.eqb_spec k k') as [-> | E].
    + rewrite get_set_same. now apply Ha.
    + rewrite get_set_other by exact E. now apply HA.
  - destruct (String.eqb_spec k k') as [-> | E].
    + rewrite get_set_same. now apply Hc.
    + rewrite get_set_other by exact E. now apply HC.
Qed.

Lemma Good_set_other (o : Obj) (k : string) (v : Val) :
  Good assocs colls o -> memb k (assocs ++ colls) = false ->
  Good assocs colls (set o k v).
Proof.
  intros Ho Hk. apply memb_not_In in Hk.
  apply Good_set; [exact Ho | |]; intros Hin; exfalso; apply Hk;
    apply in_or_app; auto.
Qed.

Lemma Good_fold_copy (result : Row) (prefix : string) (l : list IdField)
      (o : Obj) :
  Good assocs colls o ->
  forallb (fun f => negb (memb (name f) (assocs ++ colls))) l = true ->
  Good assocs colls (fold_left (copyIdField result prefix) l o).
Proof.
  revert o. induction l as [| g rest IH]; intros o Ho Hl; simpl; [exact Ho |].
  simpl in Hl. apply andb_true_iff in Hl. destruct Hl as [Hg Hrest].
  apply IH; [| exact Hrest]. unfold copyIdField.
  destruct (truthy (get o (name g))); simpl; [exact Ho |].
  apply Good_set_other; [exact Ho | now apply negb_true_iff].
Qed.

Lemma Good_falsy (o : Obj) :
  forallb (fun k => negb (truthy (get o k))) (assocs ++ colls) = true ->
  Good assocs colls o.
Proof.
  intros H. rewrite forallb_forall in H.
  constructor; intros k Hk; left; apply negb_true_iff, H, in_or_app; auto.
Qed.

Lemma localOk_inv (d : ResultMap) :
  localOk assocs colls d = true ->
  (forall n, In n (optList (rm_associations d)) -> In (n_name n) assocs) /\
  (forall n, In n (optList (rm_collections d)) -> In (n_name n) colls) /\
  forallb (fun f => negb (memb (name f) (assocs ++ colls)))
          (fst (getIdProperty d)) = true /\
  forallb (fun f => negb (memb (name f) (assocs ++ colls)))
          (List.map propField (optList (rm_properties d))) = true /\
  Good assocs colls (createMappedObject d).
Proof.
  unfold localOk. intros H.
  apply andb_true_iff in H. destruct H as [H H5].
  apply andb_true_iff in H. destruct H as [H H4].
  apply andb_true_iff in H. destruct H as [H H3].
  apply andb_true_iff in H. destruct H as [H1 H2].
  rewrite forallb_forall in H1, H2.
  split; [intros n Hn; now apply memb_In, H1 |].
  split; [intros n Hn; now apply memb_In, H2 |].
  split; [exact H3 |]. split; [| now apply Good_falsy].
  rewrite forallb_forall in *. intros g Hg.
  apply in_map_iff in Hg. destruct Hg as (p & <- & Hp). now apply H4.
Qed.

Lemma localOk_norm (d : ResultMap) :
  localOk assocs colls d = true ->
  localOk assocs colls (snd (getIdProperty d)) = true.
Proof.
  destruct (getIdProperty_props d) as (Hq & Ha & Hc & Hn).
  unfold localOk, createMappedObject.
  now rewrite getIdProperty_idem, Hq, Ha, Hc, Hn.
Qed.

Lemma localOk_infer (d : ResultMap) (result : Row) (prefix : string) :
  localOk assocs colls d = true -> rowOk assocs colls result = true ->
  localOk assocs colls
    (set_properties d (Some (inferProperties result prefix))) = true.
Proof.
  intros H Hrow. unfold localOk in *.
  rewrite (proj1 (getIdProperty_ext
                    (set_properties d (Some (inferProperties result prefix)))
                    d eq_refl)).
  unfold createMappedObject in *. cbn [set_properties rm_associations
    rm_collections rm_properties rm_createNew optList].
  apply andb_true_iff in H. destruct H as [H H5].
  apply andb_true_iff in H. destruct H as [H H4].
  apply andb_true_iff in H. destruct H as [H H3].
  rewrite H, H3, H5, !andb_true_r. simpl.
  rewrite inferProperties_spec. unfold strippedColumns.
  rewrite forallb_forall. intros p Hp.
  apply in_map_iff in Hp. destruct Hp as (s & <- & Hs).
  apply in_map_iff in Hs. destruct Hs as (k & <- & Hk).
  apply filter_In in Hk. destruct Hk as [Hk _].
  unfold rowOk in Hrow. rewrite forallb_forall in Hrow.
  specialize (Hrow k Hk). rewrite forallb_forall in Hrow.
  apply Hrow, drop_suffixes.
Qed.

Lemma idPrelude_total (mapId : string) (m : Maps) (d : ResultMap) :
  find_map m mapId = Some d ->
  forallb (localOk assocs colls) m = true ->
  exists m1,
    idPrelude mapId m = Ok ((fst (getIdProperty d), createMappedObject d), m1)
    /\ forallb (localOk assocs colls) m1 = true /\ maps_le m m1.
Proof.
  intros Hf Hm. exists (store_map m (snd (getIdProperty d))).
  assert (E : idPrelude mapId m =
              Ok ((fst (getIdProperty d), createMappedObject d),
                  store_map m (snd (getIdProperty d)))).
  { unfold idPrelude. rewrite (bind_eq _ _ (findResultMap_Ok _ _ Hf)).
    now rewrite (bind_eq _ _ (getIdPropertyM_eq d m)). }
  split; [exact E |]. split.
  - apply forallb_store; [exact Hm |]. apply localOk_norm.
    rewrite forallb_forall in Hm. apply Hm. now apply find_map_In with mapId.
  - now destruct (Stable_idPrelude _ _ _ _ E).
Qed.

Lemma objPrelude_total (result : Row) (mapId prefix : string) (m : Maps)
      (d : ResultMap) :
  find_map m mapId = Some d ->
  forallb (localOk assocs colls) m = true ->
  rowOk assocs colls result = true ->
  exists ps m1,
    objPrelude result mapId prefix m =
      Ok ((fst (getIdProperty d), Some ps,
           rm_associations d, rm_collections d), m1) /\
    forallb (fun f => negb (memb (name f) (assocs ++ colls)))
            (List.map propField ps) = true /\
    forallb (localOk assocs colls) m1 = true /\ maps_le m m1.
Proof.
  intros Hf Hm Hrow.
  assert (Hd : localOk assocs colls d = true).
  { rewrite forallb_forall in Hm. apply Hm. now apply find_map_In with mapId. }
  assert (Hid : rm_mapId d = mapId) by now apply find_map_mapId with m.
  destruct (rm_properties d) as [ps |] eqn:Hps.
  - exists ps, (store_map m (snd (getIdProperty d))).
    assert (E : objPrelude result mapId prefix m =
                Ok ((fst (getIdProperty d), Some ps,
                     rm_associations d, rm_collections d),
                    store_map m (snd (getIdProperty d)))).
    { unfold objPrelude. rewrite (bind_eq _ _ (findResultMap_Ok _ _ Hf)).
      unfold ensureProperties. rewrite Hps.
      rewrite (bind_eq _ _ (eq_refl : ret d m = Ok (d, m))).
      rewrite (bind_eq _ _ (getIdPropertyM_eq d m)).
      unfold ret. now rewrite Hps. }
    split; [exact E |]. split; [| split].
    + destruct (localOk_inv d Hd) as (_ & _ & _ & H & _).
      now rewrite Hps in H.
    + apply forallb_store; [exact Hm | now apply localOk_norm].
    + now destruct (Stable_objPrelude _ _ _ _ _ _ E).
  - set (d1 := set_properties d (Some (inferProperties result prefix))).
    assert (Hd1 : localOk assocs colls d1 = true) by now apply localOk_infer.
    exists (inferProperties result prefix),
           (store_map (store_map m d1) (snd (getIdProperty d1))).
    assert (E : objPrelude result mapId prefix m =
                Ok ((fst (getIdProperty d), Some (inferProperties result prefix),
                     rm_associations d, rm_collections d),
                    store_map (store_map m d1) (snd (getIdProperty d1)))).
    { unfold objPrelude. rewrite (bind_eq _ _ (findResultMap_Ok _ _ Hf)).
      unfold ensureProperties. rewrite Hps. fold d1.
      unfold bind, writeResultMap, ret. simpl.
      now rewrite (proj1 (getIdProperty_ext d1 d eq_refl)). }
    split; [exact E |]. split; [| split].
    + destruct (localOk_inv d1 Hd1) as (_ & _ & _ & H & _). exact H.
    + apply forallb_store; [| now apply localOk_norm].
      now apply forallb_store.
    + now destruct (Stable_objPrelude _ _ _ _ _ _ E).
Qed.

Section Step.

Variable fuel : nat.

Hypothesis injectObject_total :
  forall result o mapId columnPrefix m,
    rowOk assocs colls result = true ->
    forallb (localOk assocs colls) m = true ->
    closed fuel m mapId = true ->
    Good assocs colls o ->
    exists o' m',
      injectResultInObject fuel result o mapId columnPrefix m = Ok (o', m') /\
      Good assocs colls o' /\ forallb (localOk assocs colls) m' = true.

Lemma closed_find (m : Maps) (mapId : string) :
  closed fuel m mapId = true -> exists d, find_map m mapId = Some d.
Proof.
  destruct fuel as [| n]; [discriminate |]. rewrite closed_S.
  destruct (find_map m mapId) as [d |]; [now exists d | discriminate].
Qed.

Lemma injectAssociation_total (result : Row) (o : Obj) (a : Nested)
      (m : Maps) :
  rowOk assocs colls result = true ->
  Good assocs colls o -> forallb (localOk assocs colls) m = true ->
  In (n_name a) assocs /\ closed fuel m (n_mapId a) = true ->
  exists o' m',
    injectAssociation (injectResultInObject fuel) result o a m = Ok (o', m') /\
    Good assocs colls o' /\ forallb (localOk assocs colls) m' = true /\
    maps_le m m'.
Proof.
  intros Hrow Ho Hm [Hname Hclosed].
  assert (Hres : forall o1, Good assocs colls o1 ->
            Good assocs colls (set o (n_name a) (VO o1))).
  { intros o1 Ho1. apply Good_set; [exact Ho | |].
    - intros _. right. now exists o1.
    - intros Hc. now destruct (apart _ Hname). }
  assert (Hfin : forall o' m' (c : M Obj),
            c m = Ok (o', m') -> c = injectAssociation
                                      (injectResultInObject fuel) result o a ->
            maps_le m m').
  { intros o' m' c E ->.
    now destruct (Stable_injectAssociation _
                    (Stable_injectResultInObject fuel) _ _ _ _ _ _ E). }
  destruct (truthy (get o (n_name a))) eqn:Ht.
  - inversion Ho as [o0 HA _ E0]; subst o0.
    destruct (HA _ Hname) as [Hf | (item & Hitem & Hgood)]; [congruence |].
    destruct (injectObject_total result item (n_mapId a) (n_columnPrefix a) m
                Hrow Hm Hclosed Hgood) as (o1 & m1 & E1 & Ho1 & Hm1).
    assert (E : injectAssociation (injectResultInObject fuel) result o a m
                = Ok (set o (n_name a) (VO o1), m1)).
    { unfold injectAssociation. rewrite Ht, Hitem. cbn [negb].
      now rewrite (bind_eq _ _ E1). }
    exists (set o (n_name a) (VO o1)), m1. split; [exact E |].
    split; [now apply Hres |]. split; [exact Hm1 |].
    now apply (Hfin _ _ _ E).
  - destruct (closed_find _ _ Hclosed) as [d Hf].
    destruct (idPrelude_total _ _ _ Hf Hm) as (m1 & E1 & Hm1 & L1).
    rewrite forallb_forall in Hm.
    destruct (localOk_inv d (Hm d (find_map_In _ _ _ Hf)))
      as (_ & _ & _ & _ & Hfresh).
    destruct (isNotNull result (concatPrefix (n_columnPrefix a))
                        (fst (getIdProperty d))) eqn:Hnn.
    + destruct (injectObject_total result (createMappedObject d) (n_mapId a)
                  (n_columnPrefix a) m1 Hrow Hm1
                  (closed_le _ _ _ _ L1 Hclosed) Hfresh)
        as (o1 & m2 & E2 & Ho1 & Hm2).
      assert (E : injectAssociation (injectResultInObject fuel) result o a m
                  = Ok (set o (n_name a) (VO o1), m2)).
      { rewrite injectAssociation_unfold by exact Ht.
        rewrite (bind_eq _ _ E1). unfold assocBody; cbn [fst snd].
        rewrite Hnn, (bind_eq _ _ E2). unfold ret. now rewrite set_set. }
      exists (set o (n_name a) (VO o1)), m2. split; [exact E |].
      split; [now apply Hres |]. split; [exact Hm2 |].
      now apply (Hfin _ _ _ E).
    + assert (E : injectAssociation (injectResultInObject fuel) result o a m
                  = Ok (set o (n_name a) null, m1)).
      { rewrite injectAssociation_unfold by exact Ht.
        rewrite (bind_eq _ _ E1). unfold assocBody; cbn [fst snd].
        now rewrite Hnn. }
      exists (set o (n_name a) null), m1. split; [exact E |]. split.
      * apply Good_set; [exact Ho | |]; intros _; now left.
      * split; [exact Hm1 | exact L1].
Qed.

Lemma injectResultInCollection_total (result : Row) (l : list Obj)
      (mapId : string) (columnPrefix : option string) (m : Maps) :
  rowOk assocs colls result = true ->
  Forall (Good assocs colls) l -> forallb (localOk assocs colls) m = true ->
  closed fuel m mapId = true ->
  exists l' m',
    injectResultInCollection (injectResultInObject fuel) result l mapId
                             columnPrefix m = Ok (l', m') /\
    Forall (Good assocs colls) l' /\
    forallb (localOk assocs colls) m' = true /\ maps_le m m'.
Proof.
  intros Hrow Hl Hm Hclosed.
  assert (Hfin : forall l' m',
            injectResultInCollection (injectResultInObject fuel) result l
                                     mapId columnPrefix m = Ok (l', m') ->
            maps_le m m').
  { intros l' m' E.
    now destruct (Stable_injectResultInCollection _
                    (Stable_injectResultInObject fuel) _ _ _ _ _ _ _ E). }
  destruct (closed_find _ _ Hclosed) as [d Hf].
  destruct (idPrelude_total _ _ _ Hf Hm) as (m1 & E1 & Hm1 & L1).
  assert (Hfresh : Good assocs colls (createMappedObject d)).
  { rewrite forallb_forall in Hm.
    now destruct (localOk_inv d (Hm d (find_map_In _ _ _ Hf)))
      as (_ & _ & _ & _ & H). }
  pose proof (injectResultInCollection_unfold (injectResultInObject fuel)
                result l mapId columnPrefix m) as U.
  rewrite (bind_eq _ _ E1) in U. unfold collBody in U; cbn [fst snd] in U.
  destruct (isNotNull result _ (fst (getIdProperty d))).
  - destruct (findItem _ l) as [[[before item] after] |] eqn:Hfind.
    + apply findItem_Some in Hfind. destruct Hfind as (El & _ & _).
      subst l. apply Forall_app in Hl. destruct Hl as [Hb Ha].
      inversion Ha as [| x xs Hitem Hafter]; subst.
      destruct (injectObject_total result item mapId
                  (Some (defaultPrefix columnPrefix)) m1 Hrow Hm1
                  (closed_le _ _ _ _ L1 Hclosed) Hitem)
        as (o1 & m2 & E2 & Ho1 & Hm2).
      rewrite (bind_eq _ _ E2) in U.
      exists (before ++ o1 :: after)%list, m2. split; [exact U |].
      split; [| split; [exact Hm2 | now apply Hfin with (before ++ o1 :: after)%list]].
      apply Forall_app. split; [exact Hb | now constructor].
    + destruct (injectObject_total result (createMappedObject d) mapId
                  (Some (defaultPrefix columnPrefix)) m1 Hrow Hm1
                  (closed_le _ _ _ _ L1 Hclosed) Hfresh)
        as (o1 & m2 & E2 & Ho1 & Hm2).
      rewrite (bind_eq _ _ E2) in U.
      exists (l ++ [o1])%list, m2. split; [exact U |].
      split; [| split; [exact Hm2 | now apply Hfin with (l ++ [o1])%list]].
      apply Forall_app. split; [exact Hl | now constructor].
  - exists l, m1. split; [exact U |]. split; [exact Hl |]. now split.
Qed.

Lemma injectCollection_total (result : Row) (o : Obj) (c : Nested)
      (m : Maps) :
  rowOk assocs colls result = true ->
  Good assocs colls o -> forallb (localOk assocs colls) m = true ->
  In (n_name c) colls /\ closed fuel m (n_mapId c) = true ->
  exists o' m',
    injectCollection (injectResultInObject fuel) result o c m = Ok (o', m') /\
    Good assocs colls o' /\ forallb (localOk assocs colls) m' = true /\
    maps_le m m'.
Proof.
  intros Hrow Ho Hm [Hname Hclosed].
  assert (Hres : forall l, Forall (Good assocs colls) l ->
            Good assocs colls (set o (n_name c) (VA l))).
  { intros l Hl. apply Good_set; [exact Ho | |].
    - intros Ha. now destruct (apart _ Ha).
    - intros _. right. now exists l. }
  assert (Hitems : exists items,
             Forall (Good assocs colls) items /\
             forall l' m',
               injectResultInCollection (injectResultInObject fuel) result
                 items (n_mapId c) (n_columnPrefix c) m = Ok (l', m') ->
               injectCollection (injectResultInObject fuel) result o c m
               = Ok (set o (n_name c) (VA l'), m')).
  { unfold injectCollection.
    destruct (truthy (get o (n_name c))) eqn:Ht; cbn [negb].
    - inversion Ho as [o0 _ HC E0]; subst o0.
      destruct (HC _ Hname) as [Hf | (items & Hitems & Hgood)]; [congruence |].
      exists items. split; [exact Hgood |]. intros l' m' E.
      now rewrite Hitems, (bind_eq _ _ E).
    - exists []. split; [constructor |]. intros l' m' E.
      now rewrite (bind_eq _ _ E). }
  destruct Hitems as (items & Hgood & Hrun).
  destruct (injectResultInCollection_total result items (n_mapId c)
              (n_columnPrefix c) m Hrow Hgood Hm Hclosed)
    as (l' & m' & E & Hl' & Hm' & L).
  exists (set o (n_name c) (VA l')), m'. split; [now apply Hrun |].
  split; [now apply Hres |]. now split.
Qed.

End Step.

Lemma injectResultInObject_total (fuel : nat) :
  forall result o mapId columnPrefix m,
    rowOk assocs colls result = true ->
    forallb (localOk assocs colls) m = true ->
    closed fuel m mapId = true ->
    Good assocs colls o ->
    exists o' m',
      injectResultInObject fuel result o mapId columnPrefix m = Ok (o', m') /\
      Good assocs colls o' /\ forallb (localOk assocs colls) m' = true.
Proof.
  induction fuel as [| fuel IH];
    intros result o mapId columnPrefix m Hrow Hm Hclosed Ho; [discriminate |].
  rewrite closed_S in Hclosed.
  destruct (find_map m mapId) as [d |] eqn:Hf; [| discriminate].
  rewrite forallb_forall in Hclosed.
  destruct (objPrelude_total result mapId (defaultPrefix columnPrefix) m d
              Hf Hm Hrow) as (ps & m1 & E1 & Hps & Hm1 & L1).
  assert (Hd : localOk assocs colls d = true).
  { rewrite forallb_forall in Hm. apply Hm. now apply find_map_In with mapId. }
  destruct (localOk_inv d Hd) as (HA & HC & Hids & _ & _).
  set (o2 := fold_left (copyProperty result (defaultPrefix columnPrefix)) ps
               (fold_left (copyIdField result (defaultPrefix columnPrefix))
                          (fst (getIdProperty d)) o)).
  assert (Ho2 : Good assocs colls o2).
  { unfold o2. rewrite fold_copyProperty.
    apply Good_fold_copy; [| exact Hps]. now apply Good_fold_copy. }
  assert (HQ : forall (names : list string) x m0 m',
             maps_le m0 m' ->
             In (n_name x) names /\ closed fuel m0 (n_mapId x) = true ->
             In (n_name x) names /\ closed fuel m' (n_mapId x) = true).
  { intros names x m0 m' L [H1 H2]. split; [exact H1 |].
    now apply closed_le with m0. }
  destruct (forEachM_total
              (injectAssociation (injectResultInObject fuel) result)
              (Good assocs colls)
              (fun m => forallb (localOk assocs colls) m = true)
              (fun x m => In (n_name x) assocs /\
                          closed fuel m (n_mapId x) = true)
              (HQ assocs)
              (fun a x m0 Ha Hm0 Hx =>
                 injectAssociation_total fuel IH result a x m0 Hrow Ha Hm0 Hx)
              (optList (rm_associations d)) o2 m1 Ho2 Hm1)
    as (o3 & m3 & E3 & Ho3 & Hm3 & L3).
  { intros x Hx. split; [now apply HA |].
    apply closed_le with m; [exact L1 |]. apply Hclosed.
    unfold nestedOf. apply in_or_app. left.
    now destruct (rm_associations d). }
  destruct (forEachM_total
              (injectCollection (injectResultInObject fuel) result)
              (Good assocs colls)
              (fun m => forallb (localOk assocs colls) m = true)
              (fun x m => In (n_name x) colls /\
                          closed fuel m (n_mapId x) = true)
              (HQ colls)
              (fun a x m0 Ha Hm0 Hx =>
                 injectCollection_total fuel IH result a x m0 Hrow Ha Hm0 Hx)
              (optList (rm_collections d)) o3 m3 Ho3 Hm3)
    as (o4 & m4 & E4 & Ho4 & Hm4 & L4).
  { intros x Hx. split; [now apply HC |].
    apply closed_le with m; [now apply maps_le_trans with m1 |].
    apply Hclosed. unfold nestedOf. apply in_or_app. right.
    now destruct (rm_collections d). }
  exists o4, m4. split; [| now split].
  rewrite injectResultInObject_unfold, (bind_eq _ _ E1).
  unfold objBody. fold o2.
  assert (F : forall (f : Obj -> Nested -> M Obj) l a,
             forEachOpt f l a = forEachM f (optList l) a)
    by (intros f [l |] a; reflexivity).
  rewrite F, (bind_eq _ _ E3), F. exact E4.
Qed.

Lemma map_total_from (fuel : nat) (mapId : string)
      (columnPrefix : option string) (resultSet : list Row) :
  forall coll m,
    forallb (rowOk assocs colls) resultSet = true ->
    Forall (Good assocs colls) coll ->
    forallb (localOk assocs colls) m = true ->
    closed fuel m mapId = true ->
    exists out m',
      forEachM
        (fun mappedCollection result =>
           injectResultInCollection (injectResultInObject fuel) result
                                    mappedCollection mapId columnPrefix)
        resultSet coll m = Ok (out, m').
Proof.
  induction resultSet as [| result rest IH]; intros coll m Hrows Hc Hm Hcl.
  - now exists coll, m.
  - simpl in Hrows. apply andb_true_iff in Hrows. destruct Hrows as [Hr Hrest].
    destruct (injectResultInCollection_total fuel
                (injectResultInObject_total fuel) result coll mapId
                columnPrefix m Hr Hc Hm Hcl) as (c1 & m1 & E1 & Hc1 & Hm1 & L1).
    destruct (IH c1 m1 Hrest Hc1 Hm1 (closed_le _ _ _ _ L1 Hcl))
      as (out & m' & E).
    exists out, m'. simpl. now rewrite (bind_eq _ _ E1).
Qed.

End Total.

(** The mapper returns, with any fuel from the depth of the result maps on,
    on every configuration and result set that pass the checks. *)
Lemma map_total (n fuel : nat) (resultSet : list Row) (mapId : string)
      (columnPrefix : option string) (maps : Maps) :
  configOk n maps mapId = true -> rowsOk maps resultSet = true ->
  n <= fuel ->
  exists out maps',
    joinjs.map fuel resultSet mapId columnPrefix maps = Ok (out, maps').
Proof.
  unfold configOk, rowsOk. intros H Hrows Hle.
  apply andb_true_iff in H. destruct H as [H H3].
  apply andb_true_iff in H. destruct H as [H1 H2].
  unfold joinjs.map.
  apply (map_total_from (assocNames maps) (collNames maps)); auto.
  - intros k Hk. rewrite forallb_forall in H2.
    now apply memb_not_In, negb_true_iff, H2.
  - now apply closed_fuel with n.
Qed.

(** ** Two runs *)

(** C9: when a run of [map] returns, a second run on the same result set,
    started from the result maps as the first run left them (inferred
    properties and defaulted identity columns written), returns the same
    objects and changes the result maps no further; on a configuration
    that passes [configOk], with enough fuel for its depth, both runs
    return. *)
Theorem C9_map_twice :
  (forall fuel resultSet mapId columnPrefix maps maps' out,
      joinjs.map fuel resultSet mapId columnPrefix maps = Ok (out, maps') ->
      joinjs.map fuel resultSet mapId columnPrefix maps' = Ok (out, maps')) /\
  (forall n fuel resultSet mapId columnPrefix maps,
      configOk n maps mapId = true -> rowsOk maps resultSet = true ->
      n <= fuel ->
      exists out maps',
        joinjs.map fuel resultSet mapId columnPrefix maps = Ok (out, maps') /\
        joinjs.map fuel resultSet mapId columnPrefix maps' = Ok (out, maps')).
Proof.
  assert (G : forall fuel resultSet mapId columnPrefix maps maps' out,
             joinjs.map fuel resultSet mapId columnPrefix maps
               = Ok (out, maps') ->
             joinjs.map fuel resultSet mapId columnPrefix maps'
               = Ok (out, maps')).
  { intros fuel resultSet mapId columnPrefix maps maps' out H.
    destruct (Stable_map _ _ _ _ _ _ _ H) as [_ S].
    apply S, maps_le_refl. }
  split; [exact G |].
  intros n fuel resultSet mapId columnPrefix maps Hc Hr Hle.
  destruct (map_total n fuel resultSet mapId columnPrefix maps Hc Hr Hle)
    as (out & maps' & E).
  exists out, maps'. split; [exact E | now apply G with maps].
Qed.

(** ** The theorems at the example configurations *)

(** The child definition without properties gets the properties id and name. *)
Lemma C8_properties_inferred_once_witness :
  exists p maps1 d1,
    objPrelude (List.hd [] parentRows) "child" "child_" bareMaps
      = Ok (p, maps1) /\
    find_map maps1 "child" = Some d1 /\
    rm_properties d1 = Some [FStr "id"; FStr "name"] /\
    injectResultInObject 1 (List.hd [] parentRows) [] "child"
                         (Some "child_") bareMaps =
    objBody (injectResultInObject 0) (List.hd [] parentRows) [] "child_"
            p maps1.
Proof.
  exact (proj1 (proj2 (C8_properties_inferred_once "child"))
               0 (List.hd [] parentRows) [] (Some "child_") bareMaps
               bareChildDef eq_refl eq_refl).
Defined.

(** The scenario without declared properties, run twice. *)
Lemma C9_map_twice_witness :
  exists out maps',
    joinjs.map 2 parentRows "parent" None bareMaps = Ok (out, maps') /\
    joinjs.map 2 parentRows "parent" None maps' = Ok (out, maps').
Proof.
  exact (proj2 C9_map_twice 2 2 parentRows "parent" None bareMaps
               eq_refl eq_refl (le_n 2)).
Defined.


(* ================================================================= *)
(** * Further properties of the mapper *)

(** ** Result maps that are missing *)

Lemma find_le_None (m m' : Maps) (mapId : string) :
  maps_le m m' -> find_map m mapId = None -> find_map m' mapId = None.
Proof.
  intros Hle. induction Hle as [| x y l l' Hxy Hl IH]; simpl; [reflexivity |].
  assert (Hid : rm_mapId y = rm_mapId x) by apply Hxy.
  rewrite Hid. destruct (rm_mapId x =? mapId); [discriminate | exact IH].
Qed.

Lemma findResultMap_None (mapId : string) (m : Maps) :
  find_map m mapId = None -> findResultMap mapId m = Throw TypeError.
Proof. unfold findResultMap. now intros ->. Qed.

Lemma injectResultInCollection_unknown (injectObject : Injector)
      (result : Row) (coll : list Obj) (mapId : string)
      (columnPrefix : option string) (m : Maps) :
  find_map m mapId = None ->
  injectResultInCollection injectObject result coll mapId columnPrefix m
  = Throw TypeError.
Proof.
  intros H. unfold injectResultInCollection.
  now rewrite (bind_throw _ _ _ _ (findResultMap_None _ _ H)).
Qed.

Lemma injectResultInObject_unknown (fuel : nat) (result : Row) (o : Obj)
      (mapId : string) (columnPrefix : option string) (m : Maps) r :
  find_map m mapId = None ->
  injectResultInObject fuel result o mapId columnPrefix m <> Ok r.
Proof.
  intros H. destruct fuel as [| fuel]; [discriminate |].
  rewrite injectResultInObject_unfold. unfold objPrelude.
  rewrite (bind_throw _ _ _ _
             (bind_throw _ _ _ _ (findResultMap_None _ _ H))).
  discriminate.
Qed.

(** X1: when no result map has the given [mapId], [map] on a result set
    that is not empty throws a [TypeError], and so does [mapOne], whatever
    its [isRequired] flag: the failure is not reported as a
    [NotFoundError]. *)
Theorem X1_unknown_mapId_TypeError (fuel : nat) (result : Row)
        (rest : list Row) (mapId : string) (columnPrefix : option string)
        (maps : Maps) :
  find_map maps mapId = None ->
  joinjs.map fuel (result :: rest) mapId columnPrefix maps = Throw TypeError /\
  forall isRequired extra,
    joinjs.mapOne fuel (result :: rest) mapId columnPrefix isRequired extra
                  maps = Throw TypeError.
Proof.
  intros H.
  assert (E : joinjs.map fuel (result :: rest) mapId columnPrefix maps
              = Throw TypeError).
  { unfold joinjs.map. simpl. apply bind_throw.
    now apply injectResultInCollection_unknown. }
  split; [exact E |]. intros isRequired extra.
  unfold joinjs.mapOne. now apply bind_throw.
Qed.

Lemma X1_unknown_mapId_TypeError_witness :
  joinjs.map 3 parentRows "person" None parentMaps = Throw TypeError.
Proof.
  exact (proj1 (X1_unknown_mapId_TypeError 3 (List.hd [] parentRows)
                  (List.tl parentRows) "person" None parentMaps eq_refl)).
Defined.

Lemma forEachM_never {A B : Type} (f : A -> B -> M A) (x : B)
      (Bad : Maps -> Prop) :
  (forall m m' a a' y, f a y m = Ok (a', m') -> Bad m -> Bad m') ->
  (forall m a r, Bad m -> f a x m <> Ok r) ->
  forall l a m r, In x l -> Bad m -> forEachM f l a m <> Ok r.
Proof.
  intros Hkeep Hbad. induction l as [| y rest IH]; intros a m r Hin Hm;
    [contradiction |].
  simpl. intros H. destruct r as [a' m'].
  apply bind_Ok in H. destruct H as (a1 & m1 & H1 & H2).
  destruct Hin as [-> | Hin].
  - now apply (Hbad m a (a1, m1)).
  - apply (IH a1 m1 (a', m') Hin); [| exact H2].
    now apply (Hkeep m m1 a a1 y).
Qed.

(** X2: a definition with an association or a collection whose [mapId]
    names no result map cannot be injected: [injectResultInObject] never
    returns for it, whatever the row and the object. *)
Theorem X2_dangling_reference_never_returns (fuel : nat) (result : Row)
        (o : Obj) (mapId : string) (columnPrefix : option string)
        (m : Maps) (d : ResultMap) (n : Nested) r :
  find_map m mapId = Some d ->
  In n (nestedOf d) ->
  find_map m (n_mapId n) = None ->
  injectResultInObject fuel result o mapId columnPrefix m <> Ok r.
Proof.
  intros Hf Hn Hnone H. destruct fuel as [| fuel]; [discriminate |].
  destruct r as [o' m']. rewrite injectResultInObject_unfold in H.
  apply bind_Ok in H. destruct H as (p & m1 & H1 & H2).
  destruct (objPrelude_inv H1) as (d0 & d1 & Hf0 & _ & -> & _ & _ & L1).
  rewrite Hf in Hf0. inversion Hf0; subst d0; clear Hf0.
  unfold objBody in H2.
  apply bind_Ok in H2. destruct H2 as (o3 & m3 & H3 & H4).
  assert (L3 : maps_le m1 m3).
  { refine (proj1 (Stable_forEachOpt _ _ _ _ _ _ _ H3)). intros a x.
    apply Stable_injectAssociation, Stable_injectResultInObject. }
  set (Bad := fun m0 : Maps => find_map m0 (n_mapId n) = None).
  assert (B1 : Bad m1) by (now apply find_le_None with m).
  assert (B3 : Bad m3) by (now apply find_le_None with m1).
  unfold nestedOf in Hn. apply in_app_or in Hn. destruct Hn as [Hn | Hn].
  - destruct (rm_associations d) as [l |]; [| contradiction].
    simpl in H3.
    refine (forEachM_never
              (injectAssociation (injectResultInObject fuel) result) n Bad
              _ _ l _ m1 (o3, m3) Hn B1 H3).
    + intros m0 m0' a a' y E B. apply find_le_None with m0; [| exact B].
      now destruct (Stable_injectAssociation _
                      (Stable_injectResultInObject fuel) _ _ _ _ _ _ E).
    + intros m0 a [a' m0'] B E. unfold injectAssociation in E.
      destruct (truthy (get a (n_name n))); cbn [negb] in E.
      * destruct (get a (n_name n)) as [s | item | items]; try discriminate.
        apply bind_Ok in E. destruct E as (x & mx & E & _).
        now apply (injectResultInObject_unknown fuel result item (n_mapId n)
                     (n_columnPrefix n) m0 (x, mx) B).
      * now rewrite (bind_throw _ _ _ _ (findResultMap_None _ _ B)) in E.
  - destruct (rm_collections d) as [l |]; [| contradiction].
    simpl in H4.
    refine (forEachM_never
              (injectCollection (injectResultInObject fuel) result) n Bad
              _ _ l _ m3 (o', m') Hn B3 H4).
    + intros m0 m0' a a' y E B. apply find_le_None with m0; [| exact B].
      now destruct (Stable_injectCollection _
                      (Stable_injectResultInObject fuel) _ _ _ _ _ _ E).
    + intros m0 a [a' m0'] B E. unfold injectCollection in E.
      destruct (truthy (get a (n_name n))); cbn [negb] in E.
      * destruct (get a (n_name n)) as [s | item | items]; try discriminate.
        now rewrite (bind_throw _ _ _ _
                       (injectResultInCollection_unknown _ _ _ _ _ _ B)) in E.
      * now rewrite (bind_throw _ _ _ _
                       (injectResultInCollection_unknown _ _ _ _ _ _ B)) in E.
Qed.

Lemma X2_dangling_reference_never_returns_witness :
  injectResultInObject 3 (List.hd [] parentRows) [] "parent" None danglingMaps
  <> Ok ([], danglingMaps).
Proof.
  refine (X2_dangling_reference_never_returns 3 (List.hd [] parentRows) []
            "parent" None danglingMaps danglingDef
            (mkNested "children" "kid" (Some "child_")) _ eq_refl _ eq_refl).
  simpl. now left.
Defined.

(** ** An association that declares no column prefix *)

(** X3: for an association without [columnPrefix] whose field is not set,
    the creation test reads the columns named [undefined] followed by the
    identity column; when none of these is [null] (a row normally has no
    such column), the associated object is created and injected under the
    empty prefix, and, under a well-formed associated definition, its
    identity fields receive the unprefixed identity columns of the row,
    whatever they hold, [null] included. *)
Theorem X3_association_without_prefix (result : Row) (o : Obj) (a : Nested)
        (m : Maps) (d : ResultMap) :
  n_columnPrefix a = None ->
  truthy (get o (n_name a)) = false ->
  find_map m (n_mapId a) = Some d ->
  (forall f, In f (fst (getIdProperty d)) ->
             row_get result ("undefined" ++ column f) <> SNull) ->
  (forall injectObject,
      injectAssociation injectObject result o a m =
      match injectObject result (createMappedObject d) (n_mapId a) None
                         (store_map m (snd (getIdProperty d))) with
      | Ok (o1, m2) => Ok (set o (n_name a) (VO o1), m2)
      | Throw e => Throw e
      end) /\
  (forall fuel o' m',
      wellFormed d = true ->
      injectAssociation (injectResultInObject fuel) result o a m
        = Ok (o', m') ->
      exists o1,
        get o' (n_name a) = VO o1 /\
        forall f, In f (fst (getIdProperty d)) ->
                  get o1 (name f) = VS (row_get result (column f))).
Proof.
  intros Hp Ht Hf Hnn.
  assert (Hn : isNotNull result (concatPrefix None) (fst (getIdProperty d))
               = true) by (apply isNotNull_true; exact Hnn).
  assert (E : forall injectObject,
             injectAssociation injectObject result o a m =
             match injectObject result (createMappedObject d) (n_mapId a) None
                                (store_map m (snd (getIdProperty d))) with
             | Ok (o1, m2) => Ok (set o (n_name a) (VO o1), m2)
             | Throw e => Throw e
             end).
  { intros injectObject. unfold injectAssociation. rewrite Ht. cbn [negb].
    rewrite (bind_eq _ _ (findResultMap_Ok _ _ Hf)).
    rewrite (bind_eq _ _ (getIdPropertyM_eq d m)).
    rewrite Hp, Hn. unfold bind.
    destruct (injectObject result (createMappedObject d) (n_mapId a) None _)
      as [[o1 m2] | e]; [| reflexivity].
    unfold ret. now rewrite set_set. }
  split; [exact E |]. intros fuel o' m' Hwf H. rewrite E in H.
  destruct (injectResultInObject fuel result (createMappedObject d)
              (n_mapId a) None (store_map m (snd (getIdProperty d))))
    as [[o1 m2] |] eqn:E1; [| discriminate].
  inversion H; subst. exists o1. split; [apply get_set_same |].
  assert (Hf1 : find_map (store_map m (snd (getIdProperty d))) (n_mapId a)
                = Some (snd (getIdProperty d))).
  { apply (find_store_same _ Hf). rewrite getIdProperty_mapId.
    now apply find_map_mapId with m. }
  assert (Hwf1 : wellFormed (snd (getIdProperty d)) = true)
    by (apply (wellFormed_le d); [apply rm_le_norm | exact Hwf]).
  pose proof (injectResultInObject_holdsKey _ _ _ _ _ _ _ _ _ Hf1 Hwf1 E1)
    as Hk.
  rewrite getIdProperty_idem in Hk. apply Hk.
  intros f Hin. right.
  now apply (proj2 (proj2 (proj2 (wellFormed_inv d Hwf)))).
Qed.

(** A post whose tag columns are null still gets a tag object, with a null
    identity. *)
Lemma X3_association_without_prefix_witness :
  exists o1,
    get [("post_id", VS (SNum 3));
         ("tag", VO [("id", VS SNull); ("label", VS SNull)])] "tag" = VO o1 /\
    forall f, In f (fst (getIdProperty tagDef)) ->
              get o1 (name f) = VS (row_get untaggedPost (column f)).
Proof.
  refine (proj2 (X3_association_without_prefix untaggedPost
                   [("post_id", VS (SNum 3))] tagAssociation postMaps tagDef
                   eq_refl eq_refl eq_refl _)
                1 _ postMaps eq_refl eq_refl).
  intros f [<- | []]. simpl. discriminate.
Defined.

(** ** Fields that the definition does not name *)

Lemma fold_copyIdField_other (result : Row) (prefix : string)
      (l : list IdField) (o : Obj) (k : string) :
  ~ In k (List.map name l) ->
  get (fold_left (copyIdField result prefix) l o) k = get o k.
Proof.
  revert o. induction l as [| g rest IH]; intros o Hk; simpl; [reflexivity |].
  rewrite IH.
  - apply copyIdField_other. intros E. apply Hk. now left.
  - intros Hin. apply Hk. now right.
Qed.

Lemma objPrelude_effective {result : Row} {mapId prefix : string}
      {m m1 : Maps} {p} (d : ResultMap) :
  find_map m mapId = Some d ->
  objPrelude result mapId prefix m = Ok (p, m1) ->
  p = (fst (getIdProperty d), Some (effectiveProperties d result prefix),
       rm_associations d, rm_collections d).
Proof.
  intros Hf H.
  destruct (objPrelude_inv H) as (d0 & d1 & Hf0 & Hd1 & -> & _).
  rewrite Hf in Hf0. inversion Hf0; subst d0; clear Hf0.
  unfold effectiveProperties. rewrite Hd1.
  destruct (rm_properties d) as [ps |] eqn:E.
  - now rewrite E.
  - simpl. now rewrite (proj1 (getIdProperty_ext
                                 (set_properties d _) d eq_refl)).
Qed.

(** X4: an injection that returns leaves untouched every field of the
    object that is not named by the definition as an identity field, a
    property (declared, or inferred from the row when none is declared), an
    association or a collection. *)
Theorem X4_unnamed_fields_untouched (fuel : nat) (result : Row) (o o' : Obj)
        (mapId : string) (columnPrefix : option string) (m m' : Maps)
        (d : ResultMap) (k : string) :
  find_map m mapId = Some d ->
  injectResultInObject fuel result o mapId columnPrefix m = Ok (o', m') ->
  ~ In k (writtenNames d result (defaultPrefix columnPrefix)) ->
  get o' k = get o k.
Proof.
  intros Hf H Hk. destruct fuel as [| fuel]; [discriminate |].
  rewrite injectResultInObject_unfold in H.
  apply bind_Ok in H. destruct H as (p & m1 & H1 & H2).
  rewrite (objPrelude_effective d Hf H1) in H2.
  unfold objBody in H2.
  apply bind_Ok in H2. destruct H2 as (o3 & m3 & H3 & H4).
  unfold writtenNames, nestedOf in Hk. rewrite map_app in Hk.
  assert (K1 : ~ In k (List.map name (fst (getIdProperty d))))
    by (intros X; apply Hk; apply in_or_app; now left).
  assert (K2 : ~ In k (List.map name
                         (List.map propField
                            (effectiveProperties d result
                               (defaultPrefix columnPrefix))))).
  { rewrite List.map_map. intros X. apply Hk.
    apply in_or_app. right. apply in_or_app. now left. }
  assert (K3 : ~ In k (List.map n_name
                         (match rm_associations d with
                          | Some l => l | None => [] end)))
    by (intros X; apply Hk; do 2 (apply in_or_app; right);
        apply in_or_app; now left).
  assert (K4 : ~ In k (List.map n_name
                         (match rm_collections d with
                          | Some l => l | None => [] end)))
    by (intros X; apply Hk; do 3 (apply in_or_app; right); exact X).
  rewrite (forEachOpt_other
             (injectCollection (injectResultInObject fuel) result) k
             (fun a a' n m0 m0' E Hne =>
                injectCollection_other _ _ _ _ _ _ _ _ E Hne)
             _ _ _ _ _ H4 K4).
  rewrite (forEachOpt_other
             (injectAssociation (injectResultInObject fuel) result) k
             (fun a a' n m0 m0' E Hne =>
                injectAssociation_other _ _ _ _ _ _ _ _ E Hne)
             _ _ _ _ _ H3 K3).
  rewrite fold_copyProperty.
  now rewrite !fold_copyIdField_other.
Qed.

(** The definition of children does not name the field [age]: an injected
    row leaves it as it is. *)
Lemma X4_unnamed_fields_untouched_witness :
  get [("id", VS (SNum 10)); ("name", VS (SStr "X")); ("age", VS (SNum 0))]
      "age"
  = get [("id", VS (SNum 10)); ("age", VS (SNum 0))] "age".
Proof.
  refine (X4_unnamed_fields_untouched 1 (List.hd [] parentRows)
            [("id", VS (SNum 10)); ("age", VS (SNum 0))] _ "child"
            (Some "child_") parentMaps parentMaps childDef "age"
            eq_refl eq_refl _).
  simpl. intros [E | [E | []]]; discriminate E.
Defined.

(** ** Objects and arrays that are already set *)

Lemma injectResultInCollection_shape (injectObject : Injector) (result : Row)
      (coll coll' : list Obj) (mapId : string) (columnPrefix : option string)
      (m m' : Maps) (d : ResultMap) :
  find_map m mapId = Some d ->
  injectResultInCollection injectObject result coll mapId columnPrefix m
    = Ok (coll', m') ->
  let key := rowKey (fst (getIdProperty d)) (defaultPrefix columnPrefix)
                    result in
  (keyNotNull key = false /\ coll' = coll) \/
  (keyNotNull key = true /\
   ((exists before item after o,
        coll = (before ++ item :: after)%list /\
        coll' = (before ++ o :: after)%list) \/
    (exists o, coll' = (coll ++ [o])%list))).
Proof.
  intros Hf H key. rewrite injectResultInCollection_unfold in H.
  apply bind_Ok in H. destruct H as (p & m1 & H1 & H2).
  destruct (idPrelude_inv H1) as (d0 & Hf0 & -> & _ & _).
  rewrite Hf in Hf0. inversion Hf0; subst d0; clear Hf0.
  unfold collBody in H2; cbn [fst snd] in H2.
  rewrite isNotNull_keyNotNull in H2. fold key in H2.
  destruct (keyNotNull key).
  - right. split; [reflexivity |].
    destruct (findItem _ coll) as [[[before item] after] |] eqn:Hfind.
    + apply findItem_Some in Hfind. destruct Hfind as (-> & _ & _).
      apply bind_Ok in H2. destruct H2 as (x & mx & _ & H2).
      inversion H2; subst. left. now exists before, item, after, x.
    + apply bind_Ok in H2. destruct H2 as (x & mx & _ & H2).
      inversion H2; subst. right. now exists x.
  - left. inversion H2; subst. now split.
Qed.

Lemma injectResultInCollection_length (injectObject : Injector) (result : Row)
      (coll coll' : list Obj) (mapId : string) (columnPrefix : option string)
      (m m' : Maps) :
  injectResultInCollection injectObject result coll mapId columnPrefix m
    = Ok (coll', m') ->
  List.length coll <= List.length coll' <= S (List.length coll).
Proof.
  intros H.
  destruct (find_map m mapId) as [d |] eqn:Hf.
  - destruct (injectResultInCollection_shape _ _ _ _ _ _ _ _ d Hf H)
      as [[_ ->] | [_ [(b & item & a & x & -> & ->) | (x & ->)]]].
    + lia.
    + rewrite !length_app. simpl. lia.
    + rewrite length_app. simpl. lia.
  - rewrite (injectResultInCollection_unknown _ _ _ _ _ _ Hf) in H.
    discriminate.
Qed.

(** X5: an injection that returns never turns a field that holds an object
    into something else, and never turns a field that holds an array into
    something else nor shortens the array. *)
Theorem X5_objects_and_arrays_kept (fuel : nat) (result : Row) (o o' : Obj)
        (mapId : string) (columnPrefix : option string) (m m' : Maps)
        (k : string) :
  injectResultInObject fuel result o mapId columnPrefix m = Ok (o', m') ->
  (forall item, get o k = VO item -> exists item', get o' k = VO item') /\
  (forall items, get o k = VA items ->
     exists items', get o' k = VA items' /\ List.length items <= List.length items').
Proof.
  intros H. destruct fuel as [| fuel]; [discriminate |].
  rewrite injectResultInObject_unfold in H.
  apply bind_Ok in H. destruct H as ([[[ids ps] al] cl] & m1 & _ & H).
  unfold objBody in H.
  apply bind_Ok in H. destruct H as (o3 & m3 & H3 & H4).
  set (o2 := match ps with
             | Some properties => _
             | None => _
             end) in H3.
  assert (E2 : forall v, truthy v = true -> get o k = v -> get o2 k = v).
  { intros v Hv E. assert (Ht : truthy (get o k) = true) by now rewrite E.
    unfold o2. destruct ps as [ps |].
    - rewrite fold_copyProperty, !fold_copyIdField_truthy; auto.
      now rewrite fold_copyIdField_truthy.
    - now rewrite fold_copyIdField_truthy. }
  split.
  - intros item E.
    refine (forEachOpt_invariant _ (fun x => exists i, get x k = VO i)
              _ _ _ _ _ _ H4 _).
    + intros a a' x m0 m0' Hs [i Hi].
      destruct (String.eqb_spec (n_name x) k) as [Ek | Ek].
      * unfold injectCollection in Hs. rewrite Ek, Hi in Hs. discriminate.
      * exists i. now rewrite (injectCollection_other _ _ _ _ _ _ _ _ Hs Ek).
    + refine (forEachOpt_invariant _ (fun x => exists i, get x k = VO i)
                _ _ _ _ _ _ H3 _).
      * intros a a' x m0 m0' Hs [i Hi].
        destruct (String.eqb_spec (n_name x) k) as [Ek | Ek].
        -- unfold injectAssociation in Hs. rewrite Ek, Hi in Hs.
           cbn [truthy negb] in Hs.
           apply bind_Ok in Hs. destruct Hs as (x1 & mx & _ & Hs).
           inversion Hs. exists x1. rewrite <- Ek. apply get_set_same.
        -- exists i.
           now rewrite (injectAssociation_other _ _ _ _ _ _ _ _ Hs Ek).
      * exists item. now apply E2.
  - intros items E.
    refine (forEachOpt_invariant _
              (fun x => exists l,
                   get x k = VA l /\ List.length items <= List.length l)
              _ _ _ _ _ _ H4 _).
    + intros a a' x m0 m0' Hs (l & Hl & Hlen).
      destruct (String.eqb_spec (n_name x) k) as [Ek | Ek].
      * unfold injectCollection in Hs. rewrite Ek, Hl in Hs.
        cbn [truthy negb] in Hs.
        apply bind_Ok in Hs. destruct Hs as (l' & mx & Hc & Hs).
        inversion Hs. exists l'. rewrite <- Ek, get_set_same.
        split; [reflexivity |].
        exact (Nat.le_trans _ _ _ Hlen
                 (proj1 (injectResultInCollection_length _ _ _ _ _ _ _ _ Hc))).
      * exists l. now rewrite (injectCollection_other _ _ _ _ _ _ _ _ Hs Ek).
    + refine (forEachOpt_invariant _
                (fun x => exists l,
                     get x k = VA l /\ List.length items <= List.length l)
                _ _ _ _ _ _ H3 _).
      * intros a a' x m0 m0' Hs (l & Hl & Hlen).
        destruct (String.eqb_spec (n_name x) k) as [Ek | Ek].
        -- unfold injectAssociation in Hs. rewrite Ek, Hl in Hs. discriminate.
        -- exists l.
           now rewrite (injectAssociation_other _ _ _ _ _ _ _ _ Hs Ek).
      * exists items. split; [now apply E2 | apply Nat.le_refl].
Qed.

(** The parent of the scenario keeps its array of children when the third
    row, which has no child, is injected. *)
Lemma X5_objects_and_arrays_kept_witness :
  exists items',
    get [("id", VS (SNum 1)); ("name", VS (SStr "A"));
         ("children", VA [[("id", VS (SNum 10)); ("name", VS (SStr "X"))]])]
        "children" = VA items' /\
    1 <= List.length items'.
Proof.
  exact (proj2 (X5_objects_and_arrays_kept 2 (List.nth 2 parentRows [])
                  [("id", VS (SNum 1)); ("name", VS (SStr "A"));
                   ("children",
                    VA [[("id", VS (SNum 10)); ("name", VS (SStr "X"))]])]
                  _ "parent" None parentMaps parentMaps "children" eq_refl)
               [[("id", VS (SNum 10)); ("name", VS (SStr "X"))]] eq_refl).
Defined.

(** ** How many objects *)

Lemma map_length_from (fuel : nat) (mapId : string)
      (columnPrefix : option string) (ids : list IdField)
      (resultSet : list Row) :
  forall coll m out m' d,
    find_map m mapId = Some d -> fst (getIdProperty d) = ids ->
    forEachM
      (fun mappedCollection result =>
         injectResultInCollection (injectResultInObject fuel) result
                                  mappedCollection mapId columnPrefix)
      resultSet coll m = Ok (out, m') ->
    let keys := List.filter keyNotNull
                  (List.map (rowKey ids (defaultPrefix columnPrefix))
                            resultSet) in
    List.length coll <= List.length out /\
    List.length out <= List.length coll + List.length keys /\
    (keys <> [] -> out <> []).
Proof.
  induction resultSet as [| result rest IH];
    intros coll m out m' d Hf Hids H; simpl in H.
  - inversion H; subst. simpl. split; [lia |]. split; [lia |].
    intros X. now destruct X.
  - apply bind_Ok in H. destruct H as (coll1 & m1 & H1 & H2).
    destruct (Stable_injectResultInCollection _
                (Stable_injectResultInObject fuel) _ _ _ _ _ _ _ H1) as [L _].
    destruct (find_le _ _ _ _ L Hf) as (d1 & Hf1 & Hle).
    destruct (IH coll1 m1 out m' d1 Hf1
                 (eq_trans (rm_le_ids _ _ Hle) Hids) H2) as (I1 & I2 & I3).
    pose proof (injectResultInCollection_shape _ _ _ _ _ _ _ _ d Hf H1)
      as Hshape.
    rewrite Hids in Hshape. cbv zeta in Hshape. simpl.
    destruct Hshape as [[Hn ->] | [Hn Hcase]]; rewrite Hn.
    + split; [exact I1 |]. split; [exact I2 | exact I3].
    + assert (Hlen : List.length coll <= List.length coll1 /\
                     1 <= List.length coll1 /\
                     List.length coll1 <= S (List.length coll)).
      { destruct Hcase as [(b & item & a & x & -> & ->) | (x & ->)];
          rewrite !length_app; simpl; lia. }
      simpl. split; [lia |]. split; [lia |].
      intros _ E. rewrite E in I1. simpl in I1. lia.
Qed.

Lemma filter_nil_iff {A : Type} (p : A -> bool) (l : list A) :
  List.filter p l = [] <-> forall x, In x l -> p x = false.
Proof.
  induction l as [| y rest IH]; simpl.
  - split; [intros _ x [] | reflexivity].
  - destruct (p y) eqn:E.
    + split; [discriminate |]. intros H.
      specialize (H y (or_introl eq_refl)). congruence.
    + rewrite IH. split.
      * intros H x [<- | Hx]; auto.
      * intros H x Hx. apply H. now right.
Qed.

Lemma map_empty_iff (fuel : nat) (resultSet : list Row) (mapId : string)
      (columnPrefix : option string) (maps maps' : Maps) (out : list Obj)
      (d : ResultMap) :
  find_map maps mapId = Some d ->
  joinjs.map fuel resultSet mapId columnPrefix maps = Ok (out, maps') ->
  (out = [] <->
   forall r, In r resultSet ->
     keyNotNull (rowKey (fst (getIdProperty d))
                        (defaultPrefix columnPrefix) r) = false).
Proof.
  intros Hf H.
  destruct (map_length_from fuel mapId columnPrefix _ resultSet [] maps out
              maps' d Hf eq_refl H) as (_ & I2 & I3).
  cbv zeta in I2, I3. simpl in I2.
  set (keys := List.filter keyNotNull _) in *.
  assert (E : keys = [] <->
              forall r, In r resultSet ->
                keyNotNull (rowKey (fst (getIdProperty d))
                                   (defaultPrefix columnPrefix) r) = false).
  { unfold keys. rewrite filter_nil_iff. split.
    - intros X r Hr. apply X. now apply in_map.
    - intros X k Hk. apply in_map_iff in Hk.
      destruct Hk as (r & <- & Hr). now apply X. }
  rewrite <- E. split.
  - intros ->. destruct keys as [| k ks]; [reflexivity |].
    exfalso. now apply I3.
  - intros X. rewrite X in I2. simpl in I2.
    destruct out; [reflexivity | simpl in I2; lia].
Qed.

(** X6: one row injected in an array removes no member and adds at most
    one.  The array returned by [map] has at most as many objects as the
    result set has rows whose identity key has no null, and it is empty
    exactly when every row has a null in its identity key. *)
Theorem X6_at_most_one_object_per_row :
  (forall injectObject result coll coll' mapId columnPrefix m m',
      injectResultInCollection injectObject result coll mapId columnPrefix m
        = Ok (coll', m') ->
      List.length coll <= List.length coll' <= S (List.length coll)) /\
  (forall fuel resultSet mapId columnPrefix maps maps' out d,
      find_map maps mapId = Some d ->
      joinjs.map fuel resultSet mapId columnPrefix maps = Ok (out, maps') ->
      let keys := List.map (rowKey (fst (getIdProperty d))
                                   (defaultPrefix columnPrefix)) resultSet in
      List.length out <= List.length (List.filter keyNotNull keys) /\
      List.length (List.filter keyNotNull keys) <= List.length resultSet /\
      (out = [] <-> forall k, In k keys -> keyNotNull k = false)).
Proof.
  split.
  - intros injectObject result coll coll' mapId columnPrefix m m'.
    apply injectResultInCollection_length.
  - intros fuel resultSet mapId columnPrefix maps maps' out d Hf H keys.
    destruct (map_length_from fuel mapId columnPrefix _ resultSet [] maps out
                maps' d Hf eq_refl H) as (_ & I2 & _).
    split; [exact I2 |]. split.
    + unfold keys.
      rewrite <- (length_map (rowKey (fst (getIdProperty d))
                                     (defaultPrefix columnPrefix)) resultSet).
      apply List.filter_length_le.
    + rewrite (map_empty_iff _ _ _ _ _ _ _ _ Hf H). unfold keys. split.
      * intros X k Hk. apply in_map_iff in Hk.
        destruct Hk as (r & <- & Hr). now apply X.
      * intros X r Hr. apply X. now apply in_map.
Qed.

(** The three rows of the scenario give two objects. *)
Lemma X6_at_most_one_object_per_row_witness :
  List.length parentOut
  <= List.length
       (List.filter keyNotNull
          (List.map (rowKey (fst (getIdProperty parentDef)) "") parentRows)).
Proof.
  exact (proj1 (proj2 X6_at_most_one_object_per_row 2 parentRows
                  "parent" None parentMaps parentMaps parentOut parentDef
                  eq_refl eq_refl)).
Defined.

(** ** When [mapOne] finds nothing *)

Lemma map_null (fuel : nat) (mapId : string) (columnPrefix : option string)
      (resultSet : list Row) :
  forall maps d,
    find_map maps mapId = Some d ->
    (forall r, In r resultSet ->
       keyNotNull (rowKey (fst (getIdProperty d))
                          (defaultPrefix columnPrefix) r) = false) ->
    exists maps',
      joinjs.map fuel resultSet mapId columnPrefix maps = Ok ([], maps').
Proof.
  unfold joinjs.map.
  induction resultSet as [| result rest IH]; intros maps d Hf Hall.
  - now exists maps.
  - simpl.
    assert (Hn : isNotNull result (fun c => defaultPrefix columnPrefix ++ c)
                           (fst (getIdProperty d)) = false).
    { rewrite isNotNull_keyNotNull. apply Hall. now left. }
    rewrite (bind_eq _ _ (injectResultInCollection_null _ _ _ _ Hf Hn)).
    apply (IH _ (snd (getIdProperty d))).
    + apply (find_store_same _ Hf).
      rewrite getIdProperty_mapId. now apply find_map_mapId with maps.
    + intros r Hr. rewrite getIdProperty_idem. apply Hall. now right.
Qed.

Lemma NeverNotFound_ret {A : Type} (a : A) : NeverNotFound (ret a).
Proof. intros m message. discriminate. Qed.

Lemma NeverNotFound_bind {A B : Type} (c : M A) (k : A -> M B) :
  NeverNotFound c -> (forall a, NeverNotFound (k a)) ->
  NeverNotFound (bind c k).
Proof.
  intros Hc Hk m message. unfold bind.
  destruct (c m) as [[a m1] | e] eqn:E.
  - apply Hk.
  - intros X. inversion X; subst. now apply (Hc m message).
Qed.

Lemma NeverNotFound_ext {A : Type} (c c' : M A) :
  (forall m, c m = c' m) -> NeverNotFound c' -> NeverNotFound c.
Proof. intros E H m message. rewrite E. apply H. Qed.

Lemma NeverNotFound_forEachM {A B : Type} (f : A -> B -> M A) (l : list B) :
  (forall a x, NeverNotFound (f a x)) ->
  forall a, NeverNotFound (forEachM f l a).
Proof.
  intros Hf. induction l as [| x rest IH]; intros a; simpl.
  - apply NeverNotFound_ret.
  - apply NeverNotFound_bind; [apply Hf | exact IH].
Qed.

Lemma NeverNotFound_forEachOpt {A B : Type} (f : A -> B -> M A)
      (l : option (list B)) :
  (forall a x, NeverNotFound (f a x)) ->
  forall a, NeverNotFound (forEachOpt f l a).
Proof.
  intros Hf a. destruct l as [l |]; simpl.
  - now apply NeverNotFound_forEachM.
  - apply NeverNotFound_ret.
Qed.

Lemma NeverNotFound_idPrelude (mapId : string) :
  NeverNotFound (idPrelude mapId).
Proof.
  intros m message. unfold idPrelude, bind, findResultMap.
  destruct (find_map m mapId); discriminate.
Qed.

Lemma NeverNotFound_objPrelude (result : Row) (mapId prefix : string) :
  NeverNotFound (objPrelude result mapId prefix).
Proof.
  intros m message. unfold objPrelude, bind, findResultMap, ensureProperties.
  destruct (find_map m mapId) as [d |]; [| discriminate].
  destruct (rm_properties d); discriminate.
Qed.

Lemma NeverNotFound_injectResultInCollection (injectObject : Injector) :
  (forall result o mapId columnPrefix,
      NeverNotFound (injectObject result o mapId columnPrefix)) ->
  forall result coll mapId columnPrefix,
    NeverNotFound (injectResultInCollection injectObject result coll mapId
                                            columnPrefix).
Proof.
  intros Hinj result coll mapId columnPrefix.
  eapply NeverNotFound_ext; [apply injectResultInCollection_unfold |].
  apply NeverNotFound_bind; [apply NeverNotFound_idPrelude |].
  intros [ids fresh]. unfold collBody; cbn [fst snd].
  destruct (isNotNull _ _ _); [| apply NeverNotFound_ret].
  destruct (findItem _ _) as [[[before item] after] |];
    (apply NeverNotFound_bind;
     [apply Hinj | intros; apply NeverNotFound_ret]).
Qed.

Lemma NeverNotFound_injectResultInObject (fuel : nat) :
  forall result o mapId columnPrefix,
    NeverNotFound (injectResultInObject fuel result o mapId columnPrefix).
Proof.
  induction fuel as [| fuel IH]; intros result o mapId columnPrefix.
  - intros m message. discriminate.
  - eapply NeverNotFound_ext; [apply injectResultInObject_unfold |].
    apply NeverNotFound_bind; [apply NeverNotFound_objPrelude |].
    intros [[[ids ps] al] cl]. unfold objBody.
    apply NeverNotFound_bind.
    + apply NeverNotFound_forEachOpt. intros a x.
      destruct (truthy (get a (n_name x))) eqn:Ht.
      * unfold injectAssociation. rewrite Ht. cbn [negb].
        destruct (get a (n_name x)); try (intros m message; discriminate).
        apply NeverNotFound_bind; [apply IH |].
        intros; apply NeverNotFound_ret.
      * eapply NeverNotFound_ext;
          [intros m; now apply injectAssociation_unfold |].
        apply NeverNotFound_bind; [apply NeverNotFound_idPrelude |].
        intros [ids' fresh]. unfold assocBody; cbn [fst snd].
        destruct (isNotNull _ _ _); [| apply NeverNotFound_ret].
        apply NeverNotFound_bind; [apply IH |].
        intros; apply NeverNotFound_ret.
    + intros a. apply NeverNotFound_forEachOpt. intros b x.
      unfold injectCollection.
      destruct (truthy (get b (n_name x))); cbn [negb].
      * destruct (get b (n_name x)); try (intros m message; discriminate).
        apply NeverNotFound_bind;
          [now apply NeverNotFound_injectResultInCollection |].
        intros; apply NeverNotFound_ret.
      * apply NeverNotFound_bind;
          [now apply NeverNotFound_injectResultInCollection |].
        intros; apply NeverNotFound_ret.
Qed.

Lemma NeverNotFound_map (fuel : nat) (resultSet : list Row) (mapId : string)
      (columnPrefix : option string) :
  NeverNotFound (joinjs.map fuel resultSet mapId columnPrefix).
Proof.
  unfold joinjs.map. apply NeverNotFound_forEachM. intros a x.
  apply NeverNotFound_injectResultInCollection.
  apply NeverNotFound_injectResultInObject.
Qed.

Lemma mapOne_cases (fuel : nat) (resultSet : list Row) (mapId : string)
      (columnPrefix : option string) (isRequired : Scalar)
      (extra : list Scalar) (maps : Maps) :
  joinjs.mapOne fuel resultSet mapId columnPrefix isRequired extra maps =
  match joinjs.map fuel resultSet mapId columnPrefix maps with
  | Ok (first :: _, maps') => Ok (VO first, maps')
  | Ok ([], maps') =>
      if required isRequired
      then Throw (NotFoundError (SStr "EmptyResponse"))
      else Ok (null, maps')
  | Throw e => Throw e
  end.
Proof.
  unfold joinjs.mapOne, bind, required.
  destruct (joinjs.map fuel resultSet mapId columnPrefix maps)
    as [[[| first rest] maps'] | e]; try reflexivity.
  destruct isRequired as [| | b | n | s]; simpl; try reflexivity.
  - now destruct b.
  - now destruct (n =? 0)%Z.
  - now destruct (s =? "").
Qed.

(** X7: for a [mapId] that has a result map, [mapOne] throws a
    [NotFoundError] exactly when the flag [isRequired] is absent or truthy
    and every row has a null in its identity key ([map] itself never throws
    that error); with a falsy flag and such rows it returns [null]; and
    whenever it returns, the value is [null] in that case only, and else an
    object. *)
Theorem X7_mapOne_not_found_iff (fuel : nat) (resultSet : list Row)
        (mapId : string) (columnPrefix : option string) (isRequired : Scalar)
        (extra : list Scalar) (maps : Maps) (d : ResultMap) :
  find_map maps mapId = Some d ->
  let allNull :=
    forall r, In r resultSet ->
      keyNotNull (rowKey (fst (getIdProperty d))
                         (defaultPrefix columnPrefix) r) = false in
  let run :=
    joinjs.mapOne fuel resultSet mapId columnPrefix isRequired extra maps in
  ((exists message, run = Throw (NotFoundError message)) <->
   required isRequired = true /\ allNull) /\
  (required isRequired = false -> allNull ->
   exists maps', run = Ok (null, maps')) /\
  (forall v maps',
      run = Ok (v, maps') ->
      (v = null /\ required isRequired = false /\ allNull) \/
      (exists o, v = VO o /\ ~ allNull)).
Proof.
  intros Hf allNull run. unfold run. rewrite mapOne_cases.
  pose proof (map_empty_iff fuel resultSet mapId columnPrefix maps) as Hiff.
  pose proof (NeverNotFound_map fuel resultSet mapId columnPrefix maps)
    as Hnever.
  destruct (joinjs.map fuel resultSet mapId columnPrefix maps)
    as [[out m1] | e] eqn:E.
  - specialize (Hiff m1 out d Hf eq_refl). fold allNull in Hiff.
    destruct out as [| first rest].
    + assert (Hall : allNull) by now apply Hiff.
      destruct (required isRequired).
      * split; [| split].
        -- split; [now split | intros _; now eexists].
        -- discriminate.
        -- discriminate.
      * split; [| split].
        -- split; [intros [msg X]; discriminate | intros [X _]; discriminate].
        -- intros _ _. now exists m1.
        -- intros v maps' X. inversion X; subst. left. now split.
    + assert (Hnot : ~ allNull) by (intros X; apply Hiff in X; discriminate).
      split; [| split].
      * split; [intros [msg X]; discriminate | intros [_ X]; contradiction].
      * intros _ X. contradiction.
      * intros v maps' X. inversion X; subst. right. now exists first.
  - split; [| split].
    + split.
      * intros [msg X]. inversion X; subst. now destruct (Hnever msg).
      * intros [_ X].
        destruct (map_null fuel mapId columnPrefix resultSet maps d Hf X)
          as [m1 E1].
        rewrite E1 in E. discriminate.
    + intros _ X.
      destruct (map_null fuel mapId columnPrefix resultSet maps d Hf X)
        as [m1 E1].
      rewrite E1 in E. discriminate.
    + discriminate.
Qed.

(** A single row whose identity is null is not found. *)
Lemma X7_mapOne_not_found_iff_witness :
  (exists message,
      joinjs.mapOne 0 [[("id", SNull)]] "parent" None SUndef [] parentMaps
      = Throw (NotFoundError message)) <->
  required SUndef = true /\
  forall r, In r [[("id", SNull)]] ->
    keyNotNull (rowKey (fst (getIdProperty parentDef)) "" r) = false.
Proof.
  exact (proj1 (X7_mapOne_not_found_iff 0 [[("id", SNull)]] "parent" None
                  SUndef [] parentMaps parentDef eq_refl)).
Defined.

(** ** What the mapper writes into the result maps *)

Lemma rm_le_same (d d' : ResultMap) : rm_le d d' -> sameButCaches d d'.
Proof.
  intros Hle. pose proof (rm_le_ids _ _ Hle) as Hids.
  destruct Hle as (Hi & Ha & Hc & Hn & _ & Hq).
  unfold sameButCaches. repeat (split; [assumption |]).
  intros ps Hps. destruct Hq as [Hq | [Hq _]]; congruence.
Qed.

Lemma rm_le_complete (d d' : ResultMap) :
  complete d = true -> rm_le d d' -> d' = d.
Proof.
  unfold complete. intros Hc (Hi & Ha & Hcl & Hn & Hp & Hq).
  destruct (rm_properties d) as [ps |] eqn:Eps; [| discriminate].
  rewrite (getIdProperty_hasColumns d Hc) in Hp.
  assert (Hp' : rm_idProperty d' = rm_idProperty d) by now destruct Hp.
  assert (Hq' : rm_properties d' = rm_properties d).
  { destruct Hq as [Hq | [Hq _]]; congruence. }
  destruct d, d'; simpl in *. congruence.
Qed.

(** X8: a run of [map] that returns leaves as many result maps as it found,
    in the same order, each with the same [mapId], associations,
    collections and factory, with identity fields that resolve to the same
    pairs, and with its properties unchanged if it had some: the run only
    adds inferred properties and defaulted identity columns. *)
Theorem X8_map_only_caches (fuel : nat) (resultSet : list Row)
        (mapId : string) (columnPrefix : option string) (maps maps' : Maps)
        (out : list Obj) :
  joinjs.map fuel resultSet mapId columnPrefix maps = Ok (out, maps') ->
  Forall2 sameButCaches maps maps'.
Proof.
  intros H. destruct (Stable_map _ _ _ _ _ _ _ H) as [L _]. clear H.
  induction L as [| x y l l' Hxy Hl IH]; constructor.
  - now apply rm_le_same.
  - exact IH.
Qed.

(** The scenario without declared properties: the definitions keep their
    place and their parts. *)
Lemma X8_map_only_caches_witness :
  Forall2 sameButCaches bareMaps
    [ mkResultMap "parent" None
        (Some [FStr "id"; FStr "name"; FStr "child_id"; FStr "child_name"])
        None (Some [mkNested "children" "child" (Some "child_")]) None;
      mkResultMap "child" None (Some [FStr "id"; FStr "name"])
                  None None None ].
Proof.
  exact (X8_map_only_caches 2 parentRows "parent" None bareMaps _ _ eq_refl).
Defined.

(** X9: when every result map declares its properties and a column for
    each identity pair, a run of [map] that returns leaves the result maps
    exactly as they were. *)
Theorem X9_complete_maps_unchanged (fuel : nat) (resultSet : list Row)
        (mapId : string) (columnPrefix : option string) (maps maps' : Maps)
        (out : list Obj) :
  forallb complete maps = true ->
  joinjs.map fuel resultSet mapId columnPrefix maps = Ok (out, maps') ->
  maps' = maps.
Proof.
  intros Hc H. destruct (Stable_map _ _ _ _ _ _ _ H) as [L _]. clear H.
  induction L as [| x y l l' Hxy Hl IH]; [reflexivity |].
  simpl in Hc. apply andb_true_iff in Hc. destruct Hc as [Hx Hrest].
  f_equal; [now apply rm_le_complete | now apply IH].
Qed.

Lemma X9_complete_maps_unchanged_witness :
  parentMaps = parentMaps.
Proof.
  exact (X9_complete_maps_unchanged 2 parentRows "parent" None parentMaps
           parentMaps _ eq_refl eq_refl).
Defined.

(** ** A row that is repeated *)

Lemma set_fixed_other (o : Obj) (g k : string) (w v : Val) :
  set o g w = o -> k <> g -> set (set o k v) g w = set o k v.
Proof.
  induction o as [| [k0 v0] rest IH]; simpl; [discriminate |].
  intros H Hk. destruct (String.eqb_spec k0 g) as [E0 | E0].
  - assert (Ew : w = v0) by (injection H; auto).
    destruct (String.eqb_spec k0 k) as [E | E]; [congruence |].
    simpl. destruct (String.eqb_spec k0 g); [| contradiction].
    now rewrite Ew.
  - assert (H' : set rest g w = rest) by (injection H; auto).
    destruct (String.eqb_spec k0 k) as [E | E]; simpl;
      (destruct (String.eqb_spec k0 g); [contradiction |]).
    + now rewrite H'.
    + now rewrite IH.
Qed.

Lemma set_fixed_get (o : Obj) (k : string) (v : Val) :
  get o k = v -> v <> undefined -> set o k v = o.
Proof.
  induction o as [| [k0 v0] rest IH]; simpl; intros H Hv.
  - now destruct Hv.
  - destruct (String.eqb_spec k0 k) as [E | E]; [now subst |].
    now rewrite IH.
Qed.

Lemma settled_set_other (result : Row) (prefix : string) (o : Obj)
      (g : IdField) (k : string) (v : Val) :
  settled result prefix o g -> k <> name g ->
  settled result prefix (set o k v) g.
Proof.
  intros [H | H] Hk.
  - left. now rewrite get_set_other.
  - right. now apply set_fixed_other.
Qed.

Lemma settled_copy (result : Row) (prefix : string) (o : Obj) (g h : IdField) :
  settled result prefix o g ->
  (name h = name g -> column h = column g) ->
  settled result prefix (copyIdField result prefix o h) g.
Proof.
  intros Hg Hc. unfold copyIdField.
  destruct (truthy (get o (name h))); simpl; [exact Hg |].
  destruct (String.eqb_spec (name h) (name g)) as [E | E].
  - right. rewrite E, (Hc E). apply set_set.
  - now apply settled_set_other.
Qed.

Lemma settled_own (result : Row) (prefix : string) (o : Obj) (h : IdField) :
  settled result prefix (copyIdField result prefix o h) h.
Proof.
  unfold copyIdField. destruct (truthy (get o (name h))) eqn:E; simpl.
  - now left.
  - right. apply set_set.
Qed.

Lemma fold_settled (result : Row) (prefix : string) (fields : list IdField) :
  forallb (consistentWith fields) fields = true ->
  forall l o g,
    incl l fields -> In g fields ->
    In g l \/ settled result prefix o g ->
    settled result prefix (fold_left (copyIdField result prefix) l o) g.
Proof.
  intros Hc. rewrite forallb_forall in Hc.
  induction l as [| h rest IH]; intros o g Hl Hg H; simpl.
  - destruct H as [[] | H]. exact H.
  - apply IH; [intros x Hx; apply Hl; now right | exact Hg |].
    destruct H as [[-> | H] | H].
    + right. apply settled_own.
    + now left.
    + right. apply settled_copy; [exact H |].
      intros E. apply (consistentWith_spec fields g h); auto.
      apply Hl. now left.
Qed.

Lemma fold_settled_id (result : Row) (prefix : string) (l : list IdField)
      (o : Obj) :
  (forall g, In g l -> settled result prefix o g) ->
  fold_left (copyIdField result prefix) l o = o.
Proof.
  induction l as [| h rest IH]; intros H; simpl; [reflexivity |].
  assert (E : copyIdField result prefix o h = o).
  { unfold copyIdField. destruct (truthy (get o (name h))) eqn:Et; simpl;
      [reflexivity |].
    destruct (H h (or_introl eq_refl)) as [X | X]; [congruence | exact X]. }
  rewrite E. apply IH. intros g Hg. apply H. now right.
Qed.

Lemma injectAssociation_form (injectObject : Injector) (result : Row)
      (o o' : Obj) (a : Nested) (m m' : Maps) :
  injectAssociation injectObject result o a m = Ok (o', m') ->
  exists v, o' = set o (n_name a) v.
Proof.
  intros H. unfold injectAssociation in H.
  destruct (truthy (get o (n_name a))); cbn [negb] in H.
  - destruct (get o (n_name a)) as [s | item | items]; try discriminate.
    apply bind_Ok in H. destruct H as (x & m1 & _ & H).
    inversion H; subst. now eexists.
  - apply bind_Ok in H. destruct H as (d & m1 & _ & H).
    apply bind_Ok in H. destruct H as (ids & m2 & _ & H).
    destruct (isNotNull _ _ _).
    + apply bind_Ok in H. destruct H as (x & m3 & _ & H).
      inversion H; subst. rewrite set_set. now eexists.
    + inversion H; subst. now eexists.
Qed.

Lemma findItem_app (p : Obj -> bool) (before after : list Obj) (x : Obj) :
  (forall y, In y before -> p y = false) -> p x = true ->
  findItem p (before ++ x :: after) = Some (before, x, after).
Proof.
  intros Hb Hx. induction before as [| y rest IH]; simpl.
  - now rewrite Hx.
  - rewrite (Hb y (or_introl eq_refl)), IH; [reflexivity |].
    intros z Hz. apply Hb. now right.
Qed.

Lemma distinct_inv (x : string) (l : list string) :
  distinct (x :: l) = true -> ~ In x l /\ distinct l = true.
Proof.
  simpl. intros H. apply andb_true_iff in H. destruct H as [H1 H2].
  split; [| exact H2]. apply memb_not_In. now apply negb_true_iff.
Qed.

Lemma distinct_app (l1 l2 : list string) :
  distinct (l1 ++ l2) = true ->
  distinct l1 = true /\ distinct l2 = true /\
  forall x, In x l1 -> ~ In x l2.
Proof.
  induction l1 as [| y rest IH]; simpl; intros H.
  - split; [reflexivity |]. split; [exact H |]. intros x [].
  - apply andb_true_iff in H. destruct H as [H1 H2].
    destruct (IH H2) as (I1 & I2 & I3).
    apply negb_true_iff, memb_not_In in H1.
    split; [| split; [exact I2 |]].
    + apply andb_true_iff. split; [| exact I1].
      apply negb_true_iff, memb_not_In. intros X. apply H1.
      apply in_or_app. now left.
    + intros x [<- | Hx]; [| now apply I3].
      intros X. apply H1. apply in_or_app. now right.
Qed.

Lemma strictDef_inv (d : ResultMap) :
  strictDef d = true ->
  (exists ps, rm_properties d = Some ps) /\
  forallb (consistentWith (fieldsOf d)) (fieldsOf d) = true /\
  (forall n g, In n (nestedOf d) -> In g (fieldsOf d) -> n_name n <> name g) /\
  distinct (List.map n_name (nestedOf d)) = true /\
  wellFormed d = true.
Proof.
  unfold strictDef. intros H.
  apply andb_true_iff in H. destruct H as [H H5].
  apply andb_true_iff in H. destruct H as [H H4].
  apply andb_true_iff in H. destruct H as [H H3].
  apply andb_true_iff in H. destruct H as [H1 H2].
  split; [destruct (rm_properties d) as [ps |]; [now exists ps | discriminate] |].
  split; [exact H2 |]. split; [| now split].
  intros n g Hn Hg E. rewrite forallb_forall in H3.
  specialize (H3 n Hn). apply negb_true_iff, memb_not_In in H3.
  apply H3. rewrite E. now apply in_map.
Qed.

Lemma strictDef_le (d d' : ResultMap) :
  rm_le d d' -> strictDef d = true -> strictDef d' = true.
Proof.
  intros Hle H. pose proof (rm_le_ids _ _ Hle) as Hids.
  pose proof (nestedOf_le _ _ Hle) as Hn.
  pose proof (wellFormed_le _ _ Hle) as Hwf.
  destruct (strictDef_inv d H) as ([ps Hps] & _).
  assert (Hq : rm_properties d' = rm_properties d).
  { destruct Hle as (_ & _ & _ & _ & _ & [X | [X _]]); congruence. }
  unfold strictDef, fieldsOf in *. rewrite Hids, Hn, Hq.
  apply andb_true_iff in H. destruct H as [H H5].
  rewrite H. now rewrite (Hwf H5).
Qed.

Lemma strict_maps_le (m m' : Maps) :
  maps_le m m' -> forallb strictDef m = true -> forallb strictDef m' = true.
Proof.
  intros L. induction L as [| x y l l' Hxy Hl IH]; simpl; [reflexivity |].
  intros H. apply andb_true_iff in H. destruct H as [H1 H2].
  now rewrite (strictDef_le _ _ Hxy H1), IH.
Qed.

Lemma strict_find (m : Maps) (mapId : string) (d : ResultMap) :
  forallb strictDef m = true -> find_map m mapId = Some d ->
  strictDef d = true.
Proof.
  intros H Hf. rewrite forallb_forall in H. apply H.
  now apply find_map_In with mapId.
Qed.

Section Repeat.

Variable fuel : nat.
Variable result : Row.

Hypothesis injectObject_repeat :
  forall o mapId columnPrefix m o' m',
    forallb strictDef m = true ->
    injectResultInObject fuel result o mapId columnPrefix m = Ok (o', m') ->
    forall m2, maps_le m' m2 ->
      injectResultInObject fuel result o' mapId columnPrefix m2 = Ok (o', m2).

Lemma injectAssociation_repeat (a a' : Obj) (x : Nested) (m m' : Maps) :
  forallb strictDef m = true ->
  injectAssociation (injectResultInObject fuel) result a x m = Ok (a', m') ->
  forall o' m2,
    get o' (n_name x) = get a' (n_name x) -> maps_le m' m2 ->
    injectAssociation (injectResultInObject fuel) result o' x m2
    = Ok (o', m2).
Proof.
  intros Hs H o' m2 Hget L.
  assert (Hobj : forall item x1 m0,
             forallb strictDef m0 = true ->
             injectResultInObject fuel result item (n_mapId x)
                                  (n_columnPrefix x) m0 = Ok (x1, m') ->
             get a' (n_name x) = VO x1 ->
             injectAssociation (injectResultInObject fuel) result o' x m2
             = Ok (o', m2)).
  { intros item x1 m0 Hs0 E Ea. rewrite Ea in Hget.
    unfold injectAssociation. rewrite Hget. cbn [truthy negb].
    rewrite (bind_eq _ _ (injectObject_repeat _ _ _ _ _ _ Hs0 E m2 L)).
    unfold ret. rewrite set_fixed_get; [reflexivity | exact Hget |].
    discriminate. }
  destruct (truthy (get a (n_name x))) eqn:Ht.
  - unfold injectAssociation in H. rewrite Ht in H. cbn [negb] in H.
    destruct (get a (n_name x)) as [s | item | items]; try discriminate.
    apply bind_Ok in H. destruct H as (x1 & m1 & E & H).
    inversion H; subst. apply (Hobj item x1 m Hs E). apply get_set_same.
  - rewrite (injectAssociation_unfold _ _ _ _ _ Ht) in H.
    apply bind_Ok in H. destruct H as ([ids fresh] & m1 & E1 & H).
    destruct (Stable_idPrelude _ _ _ _ E1) as [L1 S1].
    unfold assocBody in H; cbn [fst snd] in H.
    destruct (isNotNull result (concatPrefix (n_columnPrefix x)) ids) eqn:Hn.
    + apply bind_Ok in H. destruct H as (x1 & m3 & E & H).
      inversion H; subst.
      apply (Hobj fresh x1 m1 (strict_maps_le _ _ L1 Hs) E).
      apply get_set_same.
    + inversion H; subst. rewrite get_set_same in Hget.
      assert (Ht' : truthy (get o' (n_name x)) = false) by now rewrite Hget.
      rewrite (injectAssociation_unfold _ _ _ _ _ Ht').
      rewrite (bind_eq _ _ (S1 m2 L)). unfold assocBody; cbn [fst snd].
      rewrite Hn. unfold ret.
      rewrite set_fixed_get; [reflexivity | exact Hget | discriminate].
Qed.

Lemma injectResultInCollection_repeat (coll coll' : list Obj)
      (mapId : string) (columnPrefix : option string) (m m' : Maps) :
  forallb strictDef m = true ->
  injectResultInCollection (injectResultInObject fuel) result coll mapId
                           columnPrefix m = Ok (coll', m') ->
  forall m2, maps_le m' m2 ->
    injectResultInCollection (injectResultInObject fuel) result coll' mapId
                             columnPrefix m2 = Ok (coll', m2).
Proof.
  intros Hs H m2 L.
  rewrite injectResultInCollection_unfold in H.
  apply bind_Ok in H. destruct H as ([ids fresh] & m1 & E1 & H).
  destruct (Stable_idPrelude _ _ _ _ E1) as [L1 S1].
  destruct (idPrelude_inv E1) as (d & Hf & Ep & _ & Hf1).
  inversion Ep; subst ids fresh; clear Ep.
  pose proof (strict_maps_le _ _ L1 Hs) as Hs1.
  destruct (strictDef_inv d (strict_find _ _ _ Hs Hf)) as (_ & _ & _ & _ & Hwf).
  destruct (wellFormed_inv d Hwf) as (W1 & _ & _ & W4).
  assert (Hwf1 : wellFormed (snd (getIdProperty d)) = true)
    by (apply (wellFormed_le d); [apply rm_le_norm | exact Hwf]).
  assert (Hids : fst (getIdProperty (snd (getIdProperty d)))
                 = fst (getIdProperty d))
    by now rewrite getIdProperty_idem.
  unfold collBody in H; cbn [fst snd] in H.
  set (prefix := defaultPrefix columnPrefix) in *.
  set (ids := fst (getIdProperty d)) in *.
  assert (Hagain : forall before item x1 after,
             (forall y, In y before ->
                matchesPredicate (buildPredicate result prefix ids) y = false) ->
             admitsKey result prefix ids item ->
             injectResultInObject fuel result item mapId (Some prefix) m1
             = Ok (x1, m') ->
             injectResultInCollection (injectResultInObject fuel) result
               (before ++ x1 :: after)%list mapId columnPrefix m2
             = Ok ((before ++ x1 :: after)%list, m2)).
  { intros before item x1 after Hb Ha E.
    destruct (Stable_injectResultInObject fuel _ _ _ _ _ _ _ E) as [L2 _].
    rewrite injectResultInCollection_unfold.
    rewrite (bind_eq _ _ (S1 m2 (maps_le_trans _ _ _ L2 L))).
    unfold collBody; cbn [fst snd]. fold prefix ids.
    assert (Hkey : holdsKey result prefix ids x1).
    { rewrite <- Hids.
      apply (injectResultInObject_holdsKey fuel result item x1 mapId
               (Some prefix) m1 m' _ Hf1 Hwf1 E).
      now rewrite Hids. }
    apply (matchesPredicate_spec result prefix ids x1 W1) in Hkey.
    rewrite (findItem_app _ before after x1 Hb Hkey).
    destruct (isNotNull result (fun c => prefix ++ c) ids); [| reflexivity].
    now rewrite (bind_eq _ _ (injectObject_repeat _ _ _ _ _ _ Hs1 E m2 L)). }
  destruct (isNotNull result (fun c => prefix ++ c) ids) eqn:Hn.
  - destruct (findItem _ coll) as [[[before item] after] |] eqn:Hfind.
    + apply findItem_Some in Hfind. destruct Hfind as (Ec & Hitem & Hb).
      apply bind_Ok in H. destruct H as (x1 & m3 & E & H).
      inversion H; subst coll' m3; clear H.
      apply (Hagain before item x1 after Hb); [| exact E].
      apply (matchesPredicate_spec result prefix ids item W1) in Hitem.
      intros f Hin. left. now apply Hitem.
    + apply bind_Ok in H. destruct H as (x1 & m3 & E & H).
      inversion H; subst coll' m3; clear H.
      apply (Hagain coll (createMappedObject d) x1 []);
        [exact (findItem_None _ _ Hfind) | | exact E].
      intros f Hin. right. now apply W4.
  - inversion H; subst coll' m'; clear H.
    rewrite injectResultInCollection_unfold.
    rewrite (bind_eq _ _ (S1 m2 L)).
    unfold collBody; cbn [fst snd]. fold prefix ids. now rewrite Hn.
Qed.

Lemma injectCollection_repeat (a a' : Obj) (x : Nested) (m m' : Maps) :
  forallb strictDef m = true ->
  injectCollection (injectResultInObject fuel) result a x m = Ok (a', m') ->
  forall o' m2,
    get o' (n_name x) = get a' (n_name x) -> maps_le m' m2 ->
    injectCollection (injectResultInObject fuel) result o' x m2 = Ok (o', m2).
Proof.
  intros Hs H o' m2 Hget L.
  destruct (injectCollection_inv _ _ _ _ _ _ _ H)
    as (items & items' & _ & Hc & ->).
  rewrite get_set_same in Hget.
  unfold injectCollection. rewrite Hget. cbn [truthy negb].
  rewrite (bind_eq _ _
             (injectResultInCollection_repeat _ _ _ _ _ _ Hs Hc m2 L)).
  unfold ret. rewrite set_fixed_get; [reflexivity | exact Hget | discriminate].
Qed.

End Repeat.

Lemma forEachM_repeat (f : Obj -> Nested -> M Obj) :
  (forall a x, Stable (f a x)) ->
  (forall o o' n m m' k,
      f o n m = Ok (o', m') -> n_name n <> k -> get o' k = get o k) ->
  (forall a a' x m m',
      forallb strictDef m = true -> f a x m = Ok (a', m') ->
      forall o' m2,
        get o' (n_name x) = get a' (n_name x) -> maps_le m' m2 ->
        f o' x m2 = Ok (o', m2)) ->
  forall l a a' m m',
    distinct (List.map n_name l) = true ->
    forallb strictDef m = true ->
    forEachM f l a m = Ok (a', m') ->
    forall o' m2,
      (forall x, In x l -> get o' (n_name x) = get a' (n_name x)) ->
      maps_le m' m2 ->
      forEachM f l o' m2 = Ok (o', m2).
Proof.
  intros Hst Hother Hstep.
  induction l as [| x rest IH]; intros a a' m m' Hd Hs H o' m2 Hget L.
  - reflexivity.
  - simpl in H. apply bind_Ok in H. destruct H as (a1 & m1 & H1 & H2).
    apply distinct_inv in Hd. destruct Hd as [Hx Hd].
    destruct (Hst a x _ _ _ H1) as [L1 _].
    destruct (Stable_forEachM f rest Hst a1 _ _ _ H2) as [L2 _].
    assert (E : get a' (n_name x) = get a1 (n_name x)).
    { apply (forEachM_other f (n_name x)) with (l := rest) (m := m1) (m' := m');
        [| exact H2 | exact Hx].
      intros o0 o0' n m0 m0' Hf0 Hne. now apply (Hother _ _ _ _ _ _ Hf0). }
    simpl.
    rewrite (bind_eq _ _
               (Hstep _ _ _ _ _ Hs H1 o' m2
                      (eq_trans (Hget x (or_introl eq_refl)) E)
                      (maps_le_trans _ _ _ L2 L))).
    apply (IH a1 a' m1 m' Hd (strict_maps_le _ _ L1 Hs) H2); [| exact L].
    intros y Hy. apply Hget. now right.
Qed.

Lemma forEachM_invariant_In {A B : Type} (f : A -> B -> M A) (P : A -> Prop)
      (l : list B) :
  (forall a a' x m m', In x l -> f a x m = Ok (a', m') -> P a -> P a') ->
  forall a a' m m', forEachM f l a m = Ok (a', m') -> P a -> P a'.
Proof.
  induction l as [| x rest IH]; intros Hf a a' m m' H Ha; simpl in H.
  - now inversion H; subst.
  - apply bind_Ok in H. destruct H as (a1 & m1 & H1 & H2).
    apply (IH (fun a0 a0' y m0 m0' Hy => Hf a0 a0' y m0 m0' (or_intror Hy))
              _ _ _ _ H2).
    now apply (Hf _ _ _ _ _ (or_introl eq_refl) H1).
Qed.

Lemma forEachOpt_optList {A B : Type} (f : A -> B -> M A) (l : option (list B))
      (a : A) :
  forEachOpt f l a = forEachM f (optList l) a.
Proof. now destruct l. Qed.

Lemma injectResultInObject_repeat (result : Row) (fuel : nat) :
  forall o mapId columnPrefix m o' m',
    forallb strictDef m = true ->
    injectResultInObject fuel result o mapId columnPrefix m = Ok (o', m') ->
    forall m2, maps_le m' m2 ->
      injectResultInObject fuel result o' mapId columnPrefix m2 = Ok (o', m2).
Proof.
  induction fuel as [| fuel IH]; intros o mapId columnPrefix m o' m' Hs H m2 L;
    [discriminate |].
  rewrite injectResultInObject_unfold in H.
  rewrite injectResultInObject_unfold.
  apply bind_Ok in H. destruct H as (p & m1 & H1 & H2).
  destruct (Stable_objPrelude _ _ _ _ _ _ H1) as [L1 S1].
  destruct (objPrelude_inv H1) as (d & d1 & Hf & Hd1 & Hp & _).
  destruct (strictDef_inv d (strict_find _ _ _ Hs Hf))
    as ([ps Hps] & Hc & Hnn & Hdist & Hwf).
  rewrite Hps in Hd1. subst d1 p. rewrite Hps in H2, S1.
  pose proof (strict_maps_le _ _ L1 Hs) as Hs1.
  set (prefix := defaultPrefix columnPrefix) in *.
  set (ids := fst (getIdProperty d)) in *.
  assert (Efields : fieldsOf d = (ids ++ List.map propField ps)%list)
    by (unfold fieldsOf; now rewrite Hps).
  assert (Enested : nestedOf d
                    = (optList (rm_associations d)
                       ++ optList (rm_collections d))%list) by reflexivity.
  rewrite Enested, map_app in Hdist.
  destruct (distinct_app _ _ Hdist) as (Da & Dc & Dac).
  unfold objBody in H2. rewrite fold_copyProperty, <- fold_left_app in H2.
  rewrite <- Efields in H2.
  apply bind_Ok in H2. destruct H2 as (o3 & m3 & H3 & H4).
  rewrite forEachOpt_optList in H3, H4.
  set (o2 := fold_left (copyIdField result prefix) (fieldsOf d) o) in *.
  assert (Sa : forall a x,
             Stable (injectAssociation (injectResultInObject fuel) result a x))
    by (intros a x; apply Stable_injectAssociation;
        apply Stable_injectResultInObject).
  assert (Sc : forall a x,
             Stable (injectCollection (injectResultInObject fuel) result a x))
    by (intros a x; apply Stable_injectCollection;
        apply Stable_injectResultInObject).
  destruct (Stable_forEachM _ _ Sa _ _ _ _ H3) as [L3 _].
  destruct (Stable_forEachM _ _ Sc _ _ _ _ H4) as [L4 _].
  assert (Hset : forall g, In g (fieldsOf d) -> settled result prefix o' g).
  { intros g Hg.
    refine (forEachM_invariant_In _ (fun a => settled result prefix a g) _
                                  _ _ _ _ _ H4 _).
    - intros a a' x m0 m0' Hx Hstep Hsa.
      destruct (injectCollection_inv _ _ _ _ _ _ _ Hstep)
        as (items & items' & _ & _ & ->).
      apply settled_set_other; [exact Hsa |].
      apply Hnn; [| exact Hg]. rewrite Enested. apply in_or_app. now right.
    - refine (forEachM_invariant_In _ (fun a => settled result prefix a g) _
                                    _ _ _ _ _ H3 _).
      + intros a a' x m0 m0' Hx Hstep Hsa.
        destruct (injectAssociation_form _ _ _ _ _ _ _ Hstep) as [v ->].
        apply settled_set_other; [exact Hsa |].
        apply Hnn; [| exact Hg]. rewrite Enested. apply in_or_app. now left.
      + apply (fold_settled result prefix (fieldsOf d) Hc);
          [apply incl_refl | exact Hg | now left]. }
  rewrite (bind_eq _ _ (S1 m2 (maps_le_trans _ _ _ L3
                                 (maps_le_trans _ _ _ L4 L)))).
  unfold objBody. rewrite fold_copyProperty, <- fold_left_app.
  fold ids. rewrite <- Efields.
  rewrite (fold_settled_id result prefix (fieldsOf d) o' Hset).
  rewrite forEachOpt_optList.
  assert (Ra : forEachM (injectAssociation (injectResultInObject fuel) result)
                        (optList (rm_associations d)) o' m2 = Ok (o', m2)).
  { apply (forEachM_repeat _ Sa) with (a := o2) (a' := o3) (m := m1) (m' := m3);
      auto.
    - intros o0 o0' n m0 m0' k Hstep Hne.
      now apply (injectAssociation_other _ _ _ _ _ _ _ _ Hstep).
    - intros a a' x m0 m0' Hs0 Hstep o0 m4.
      now apply (injectAssociation_repeat fuel result (IH) a a' x m0 m0').
    - intros x Hx.
      apply (forEachM_other
               (injectCollection (injectResultInObject fuel) result)
               (n_name x)) with (l := optList (rm_collections d))
                                (m := m3) (m' := m'); [| exact H4 |].
      + intros o0 o0' n m0 m0' Hstep Hne.
        now apply (injectCollection_other _ _ _ _ _ _ _ _ Hstep).
      + apply Dac. now apply in_map.
    - now apply maps_le_trans with m'. }
  rewrite (bind_eq _ _ Ra), forEachOpt_optList.
  apply (forEachM_repeat _ Sc) with (a := o3) (a' := o') (m := m3) (m' := m');
    auto.
  - intros o0 o0' n m0 m0' k Hstep Hne.
    now apply (injectCollection_other _ _ _ _ _ _ _ _ Hstep).
  - intros a a' x m0 m0' Hs0 Hstep o0 m4.
    now apply (injectCollection_repeat fuel result (IH) a a' x m0 m0').
  - now apply (strict_maps_le m1 m3).
Qed.

Lemma forEachM_app {A B : Type} (f : A -> B -> M A) (l1 l2 : list B) (a : A)
      (m : Maps) :
  forEachM f (l1 ++ l2)%list a m
  = bind (forEachM f l1 a) (fun a1 => forEachM f l2 a1) m.
Proof.
  revert a m. induction l1 as [| x rest IH]; intros a m; simpl.
  - reflexivity.
  - unfold bind. destruct (f a x m) as [[a1 m1] | e]; [| reflexivity].
    now rewrite IH.
Qed.

(** X10: on strict definitions a row that comes twice in a row changes
    nothing: when the result set with the row once is mapped to [out], the
    result set with the row repeated next to itself is mapped to the same
    [out], and the result maps end in the same state. *)
Theorem X10_repeated_row_changes_nothing (fuel : nat) (before after : list Row)
        (result : Row) (mapId : string) (columnPrefix : option string)
        (maps maps' : Maps) (out : list Obj) :
  forallb strictDef maps = true ->
  joinjs.map fuel (before ++ result :: after) mapId columnPrefix maps
  = Ok (out, maps') ->
  joinjs.map fuel (before ++ result :: result :: after) mapId columnPrefix maps
  = Ok (out, maps').
Proof.
  intros Hs H. unfold joinjs.map in *.
  rewrite forEachM_app in H. rewrite forEachM_app.
  apply bind_Ok in H. destruct H as (c1 & m1 & H1 & H).
  rewrite (bind_eq _ _ H1).
  cbn [forEachM] in H |- *.
  apply bind_Ok in H. destruct H as (c2 & m2 & H2 & H).
  rewrite (bind_eq _ _ H2).
  assert (L1 : maps_le maps m1).
  { refine (proj1 (Stable_forEachM _ before _ [] maps c1 m1 H1)).
    intros a x. apply Stable_injectResultInCollection.
    apply Stable_injectResultInObject. }
  rewrite (bind_eq _ _
             (injectResultInCollection_repeat fuel result
                (injectResultInObject_repeat result fuel)
                c1 c2 mapId columnPrefix m1 m2
                (strict_maps_le _ _ L1 Hs) H2 m2 (maps_le_refl m2))).
  exact H.
Qed.

Lemma X10_repeated_row_changes_nothing_witness :
  joinjs.map 2 repeatedRows "parent" None parentMaps
  = Ok (parentOut, parentMaps).
Proof.
  exact (X10_repeated_row_changes_nothing 2 [] (List.tl parentRows)
           (List.hd [] parentRows) "parent" None parentMaps parentMaps
           parentOut eq_refl eq_refl).
Defined.

(** ** Rows without a key, and the object of [mapOne] *)

Lemma filter_none {A : Type} (p : A -> bool) (l : list A) :
  forallb (fun x => negb (p x)) l = true -> List.filter p l = [].
Proof.
  induction l as [| x rest IH]; simpl; [reflexivity |].
  intros H. apply andb_true_iff in H. destruct H as [H1 H2].
  apply negb_true_iff in H1. rewrite H1. now apply IH.
Qed.

(** X11: under a well-formed definition, when the first row whose identity
    key has no null is [result] (the rows before it all have a null in their
    key), [mapOne] returns, whenever it returns, an object that holds the
    key of [result], whatever its flag is. *)
Theorem X11_mapOne_first_keyed_row (fuel : nat) (skipped rest : list Row)
        (result : Row) (mapId : string) (columnPrefix : option string)
        (isRequired : Scalar) (extra : list Scalar) (maps maps' : Maps)
        (d : ResultMap) (v : Val) :
  let ids := fst (getIdProperty d) in
  let prefix := defaultPrefix columnPrefix in
  find_map maps mapId = Some d -> wellFormed d = true ->
  forallb (fun r => negb (keyNotNull (rowKey ids prefix r))) skipped = true ->
  keyNotNull (rowKey ids prefix result) = true ->
  joinjs.mapOne fuel (skipped ++ result :: rest) mapId columnPrefix
                isRequired extra maps = Ok (v, maps') ->
  exists o, v = VO o /\ holdsKey result prefix ids o.
Proof.
  intros ids prefix Hf Hwf Hsk Hkey H. rewrite mapOne_cases in H.
  destruct (joinjs.map fuel (skipped ++ result :: rest) mapId columnPrefix maps)
    as [[out m1] | e] eqn:Hmap; [| discriminate].
  pose proof (map_keys _ _ _ _ _ _ _ _ Hf Hwf Hmap) as Hk.
  fold ids prefix in Hk.
  rewrite map_app, filter_app in Hk. cbn [List.map List.filter] in Hk.
  rewrite Hkey in Hk. rewrite filter_none in Hk.
  - cbn [app firstOccurrences List.map] in Hk.
    destruct out as [| first others]; [discriminate |].
    inversion H; subst. exists first. split; [reflexivity |].
    apply holdsKey_objKey. now inversion Hk.
  - clear -Hsk. induction skipped as [| x l IH]; simpl in *; [reflexivity |].
    apply andb_true_iff in Hsk. destruct Hsk as [H1 H2].
    now rewrite H1, IH.
Qed.

Lemma X11_mapOne_first_keyed_row_witness :
  exists o,
    VO (List.hd [] childOut) = VO o /\
    holdsKey (List.nth 0 parentRows []) "child_" [mkIdField "id" "id"] o.
Proof.
  exact (X11_mapOne_first_keyed_row 1 [List.nth 2 parentRows []]
           [List.nth 1 parentRows []] (List.nth 0 parentRows [])
           "child" (Some "child_") SUndef [] parentMaps parentMaps childDef
           (VO (List.hd [] childOut)) eq_refl eq_refl eq_refl eq_refl eq_refl).
Defined.

Lemma injectResultInCollection_after_prelude (injectObject : Injector)
      (result : Row) (coll : list Obj) (mapId : string)
      (columnPrefix : option string) (m m1 : Maps) p :
  idPrelude mapId m = Ok (p, m1) ->
  injectResultInCollection injectObject result coll mapId columnPrefix m
  = injectResultInCollection injectObject result coll mapId columnPrefix m1.
Proof.
  intros E. destruct (Stable_idPrelude _ _ _ _ E) as [_ S].
  rewrite !injectResultInCollection_unfold.
  now rewrite (bind_eq _ _ E), (bind_eq _ _ (S m1 (maps_le_refl m1))).
Qed.

(** X12: a row whose identity key has a null contributes nothing to the
    result of [map]: when the result set with the row is mapped to [out],
    the result set without the row is mapped to the same [out].  The result
    maps end in the same state when a row follows, and in an earlier state
    of it otherwise. *)
Theorem X12_row_without_key_ignored (fuel : nat) (before after : list Row)
        (result : Row) (mapId : string) (columnPrefix : option string)
        (maps maps' : Maps) (d : ResultMap) (out : list Obj) :
  find_map maps mapId = Some d ->
  keyNotNull (rowKey (fst (getIdProperty d)) (defaultPrefix columnPrefix)
                     result) = false ->
  joinjs.map fuel (before ++ result :: after) mapId columnPrefix maps
  = Ok (out, maps') ->
  exists maps1,
    joinjs.map fuel (before ++ after) mapId columnPrefix maps
    = Ok (out, maps1) /\
    maps_le maps1 maps' /\ (after <> [] -> maps1 = maps').
Proof.
  intros Hf Hnull H. unfold joinjs.map in *.
  rewrite forEachM_app in H. rewrite forEachM_app.
  apply bind_Ok in H. destruct H as (c1 & m1 & H1 & H).
  rewrite (bind_eq _ _ H1).
  assert (L1 : maps_le maps m1).
  { refine (proj1 (Stable_forEachM _ before _ [] maps c1 m1 H1)).
    intros a x. apply Stable_injectResultInCollection.
    apply Stable_injectResultInObject. }
  cbn [forEachM] in H.
  apply bind_Ok in H. destruct H as (c2 & m2 & H2 & H).
  rewrite injectResultInCollection_unfold in H2.
  apply bind_Ok in H2. destruct H2 as (p & m1' & E1 & H2).
  destruct (Stable_idPrelude _ _ _ _ E1) as [L2 _].
  destruct (idPrelude_inv E1) as (d1 & Hf1 & -> & _).
  destruct (find_le _ _ _ _ L1 Hf) as (d1' & Hf1' & Hle).
  rewrite Hf1 in Hf1'. inversion Hf1'; subst d1'; clear Hf1'.
  unfold collBody in H2; cbn [fst snd] in H2.
  rewrite isNotNull_keyNotNull, (rm_le_ids _ _ Hle), Hnull in H2.
  inversion H2; subst c2 m2; clear H2.
  destruct after as [| next rest].
  - simpl in H. inversion H; subst. exists m1. simpl.
    split; [reflexivity |]. split; [exact L2 |]. now intros [].
  - exists maps'. split; [| split; [apply maps_le_refl | reflexivity]].
    cbn [forEachM] in H |- *. unfold bind in H |- *.
    now rewrite (injectResultInCollection_after_prelude _ _ _ _ _ _ _ _ E1).
Qed.

Lemma X12_row_without_key_ignored_witness :
  exists maps1,
    joinjs.map 1 ([] ++ List.firstn 2 parentRows) "child" (Some "child_")
               parentMaps = Ok (childOut, maps1) /\
    maps_le maps1 parentMaps /\
    (List.firstn 2 parentRows <> [] -> maps1 = parentMaps).
Proof.
  exact (X12_row_without_key_ignored 1 [] (List.firstn 2 parentRows)
           (List.nth 2 parentRows []) "child" (Some "child_")
           parentMaps parentMaps childDef childOut eq_refl eq_refl eq_refl).
Defined.

(** ** Rows are read by column name *)

Lemma sameColumns_spec (r r' : Row) :
  sameColumns r r' = true -> forall k, row_get r k = row_get r' k.
Proof.
  unfold sameColumns. rewrite forallb_forall. intros H k.
  destruct (memb k (row_keys r ++ row_keys r')%list) eqn:E.
  - apply memb_In in E. now apply scalar_eqb_eq, H.
  - apply memb_not_In in E.
    rewrite !row_get_absent; [reflexivity | |];
      intros X; apply E; apply in_or_app; auto.
Qed.

Lemma fold_left_ext {A B : Type} (f g : A -> B -> A) (l : list B) (a : A) :
  (forall a x, f a x = g a x) -> fold_left f l a = fold_left g l a.
Proof.
  intros H. revert a. induction l as [| x rest IH]; intros a; simpl;
    [reflexivity |].
  now rewrite H, IH.
Qed.

Lemma declared_le (d d' : ResultMap) :
  rm_le d d' -> declared d = true -> declared d' = true.
Proof.
  unfold declared. intros (_ & _ & _ & _ & _ & Hq).
  destruct (rm_properties d) as [ps |]; [| discriminate].
  destruct Hq as [-> | [Hq _]]; [reflexivity | discriminate].
Qed.

Lemma declared_maps_le (m m' : Maps) :
  maps_le m m' -> forallb declared m = true -> forallb declared m' = true.
Proof.
  intros L. induction L as [| x y l l' Hxy Hl IH]; simpl; [reflexivity |].
  intros H. apply andb_true_iff in H. destruct H as [H1 H2].
  now rewrite (declared_le _ _ Hxy H1), IH.
Qed.

Lemma Stable_declared {A : Type} (c : M A) (m m' : Maps) (x : A) :
  Stable c -> c m = Ok (x, m') ->
  forallb declared m = true -> forallb declared m' = true.
Proof.
  intros S H. apply declared_maps_le. exact (proj1 (S _ _ _ H)).
Qed.

Section Columns.

Variables r r' : Row.
Hypothesis same : forall k, row_get r k = row_get r' k.

Lemma copyIdField_columns (prefix : string) (o : Obj) (f : IdField) :
  copyIdField r prefix o f = copyIdField r' prefix o f.
Proof. unfold copyIdField. now rewrite same. Qed.

Lemma copyProperty_columns (prefix : string) (o : Obj) (p : FieldSpec) :
  copyProperty r prefix o p = copyProperty r' prefix o p.
Proof. unfold copyProperty. now rewrite same. Qed.

Lemma buildPredicate_columns (prefix : string) (ids : list IdField) :
  buildPredicate r prefix ids = buildPredicate r' prefix ids.
Proof.
  unfold buildPredicate. apply fold_left_ext. intros a x. now rewrite same.
Qed.

Lemma isNotNull_columns (prefixed : string -> string) (ids : list IdField) :
  isNotNull r prefixed ids = isNotNull r' prefixed ids.
Proof.
  unfold isNotNull. induction ids as [| f rest IH]; simpl; [reflexivity |].
  now rewrite same, IH.
Qed.

Lemma objPrelude_columns (mapId prefix : string) (m : Maps) :
  forallb declared m = true ->
  objPrelude r mapId prefix m = objPrelude r' mapId prefix m.
Proof.
  intros Hm. unfold objPrelude, bind, findResultMap.
  destruct (find_map m mapId) as [d |] eqn:Hf; [| reflexivity].
  rewrite forallb_forall in Hm.
  pose proof (Hm d (find_map_In _ _ _ Hf)) as Hd. unfold declared in Hd.
  unfold ensureProperties.
  now destruct (rm_properties d) as [ps |]; [| discriminate].
Qed.

Lemma forEachM_columns {A B : Type} (f g : A -> B -> M A) :
  (forall a x m, forallb declared m = true -> f a x m = g a x m) ->
  (forall a x, Stable (g a x)) ->
  forall l a m, forallb declared m = true ->
    forEachM f l a m = forEachM g l a m.
Proof.
  intros Hfg Hst. induction l as [| x rest IH]; intros a m Hm; simpl;
    [reflexivity |].
  unfold bind. rewrite (Hfg a x m Hm).
  destruct (g a x m) as [[a1 m1] | e] eqn:E; [| reflexivity].
  apply IH. exact (Stable_declared _ _ _ _ (Hst a x) E Hm).
Qed.

Section Injectors.

Variable injectObject : Injector.
Hypothesis injectObject_columns :
  forall o mapId columnPrefix m,
    forallb declared m = true ->
    injectObject r o mapId columnPrefix m
    = injectObject r' o mapId columnPrefix m.

Lemma injectResultInCollection_columns (coll : list Obj) (mapId : string)
      (columnPrefix : option string) (m : Maps) :
  forallb declared m = true ->
  injectResultInCollection injectObject r coll mapId columnPrefix m
  = injectResultInCollection injectObject r' coll mapId columnPrefix m.
Proof.
  intros Hm. rewrite !injectResultInCollection_unfold. unfold bind.
  destruct (idPrelude mapId m) as [[p m1] | e] eqn:E; [| reflexivity].
  pose proof (Stable_declared _ _ _ _ (Stable_idPrelude mapId) E Hm) as Hm1.
  unfold collBody. rewrite isNotNull_columns, buildPredicate_columns.
  destruct (isNotNull r' _ _); [| reflexivity].
  destruct (findItem _ coll) as [[[before item] after] |];
    unfold bind; now rewrite injectObject_columns.
Qed.

Lemma injectAssociation_columns (o : Obj) (a : Nested) (m : Maps) :
  forallb declared m = true ->
  injectAssociation injectObject r o a m
  = injectAssociation injectObject r' o a m.
Proof.
  intros Hm. destruct (truthy (get o (n_name a))) eqn:Ht.
  - unfold injectAssociation. rewrite Ht. cbn [negb].
    destruct (get o (n_name a)); try reflexivity.
    unfold bind. now rewrite injectObject_columns.
  - rewrite !(injectAssociation_unfold _ _ _ _ _ Ht). unfold bind.
    destruct (idPrelude (n_mapId a) m) as [[p m1] | e] eqn:E; [| reflexivity].
    pose proof (Stable_declared _ _ _ _ (Stable_idPrelude _) E Hm) as Hm1.
    unfold assocBody. rewrite isNotNull_columns.
    destruct (isNotNull r' _ _); [| reflexivity].
    unfold bind. now rewrite injectObject_columns.
Qed.

Lemma injectCollection_columns (o : Obj) (c : Nested) (m : Maps) :
  forallb declared m = true ->
  injectCollection injectObject r o c m
  = injectCollection injectObject r' o c m.
Proof.
  intros Hm. unfold injectCollection.
  destruct (truthy (get o (n_name c))); cbn [negb].
  - destruct (get o (n_name c)); try reflexivity.
    unfold bind. now rewrite injectResultInCollection_columns.
  - unfold bind. now rewrite injectResultInCollection_columns.
Qed.

End Injectors.

Lemma injectResultInObject_columns (fuel : nat) :
  forall o mapId columnPrefix m,
    forallb declared m = true ->
    injectResultInObject fuel r o mapId columnPrefix m
    = injectResultInObject fuel r' o mapId columnPrefix m.
Proof.
  induction fuel as [| fuel IH]; intros o mapId columnPrefix m Hm;
    [reflexivity |].
  rewrite !injectResultInObject_unfold. unfold bind.
  rewrite (objPrelude_columns _ _ _ Hm).
  destruct (objPrelude r' mapId (defaultPrefix columnPrefix) m)
    as [[[[[ids ps] al] cl] m1] | e] eqn:E; [| reflexivity].
  pose proof (Stable_declared _ _ _ _ (Stable_objPrelude _ _ _) E Hm) as Hm1.
  unfold objBody.
  rewrite (fold_left_ext _ _ ids o
             (copyIdField_columns (defaultPrefix columnPrefix))).
  set (o1 := fold_left (copyIdField r' (defaultPrefix columnPrefix)) ids o).
  assert (E2 : match ps with
               | Some properties =>
                   fold_left (copyProperty r (defaultPrefix columnPrefix))
                             properties o1
               | None => o1
               end
               = match ps with
                 | Some properties =>
                     fold_left (copyProperty r' (defaultPrefix columnPrefix))
                               properties o1
                 | None => o1
                 end).
  { destruct ps as [ps |]; [| reflexivity].
    apply fold_left_ext. apply copyProperty_columns. }
  rewrite E2. clear E2.
  set (o2 := match ps with Some _ => _ | None => _ end).
  assert (Sa : forall a x,
             Stable (injectAssociation (injectResultInObject fuel) r' a x))
    by (intros a x; apply Stable_injectAssociation;
        apply Stable_injectResultInObject).
  assert (Sc : forall a x,
             Stable (injectCollection (injectResultInObject fuel) r' a x))
    by (intros a x; apply Stable_injectCollection;
        apply Stable_injectResultInObject).
  unfold bind. rewrite !forEachOpt_optList.
  rewrite (forEachM_columns _ _ (injectAssociation_columns _ IH) Sa _ _ _ Hm1).
  destruct (forEachM _ (optList al) o2 m1) as [[o3 m3] | e] eqn:E3;
    [| reflexivity].
  rewrite !forEachOpt_optList.
  apply (forEachM_columns _ _ (injectCollection_columns _ IH) Sc).
  exact (Stable_declared _ _ _ _ (Stable_forEachM _ _ Sa o2) E3 Hm1).
Qed.

End Columns.

(** X13: when every definition declares its properties, the mapper reads a
    row through the values of its named columns only: two result sets whose
    rows give, one by one, the same value for every column name (whatever
    the order of the columns) have the same outcome, objects, final result
    maps or error. *)
Theorem X13_rows_read_by_column_name (fuel : nat) (resultSet resultSet' : list Row)
        (mapId : string) (columnPrefix : option string) (maps : Maps) :
  forallb declared maps = true ->
  sameRows resultSet resultSet' = true ->
  joinjs.map fuel resultSet mapId columnPrefix maps
  = joinjs.map fuel resultSet' mapId columnPrefix maps.
Proof.
  intros Hm Hs. unfold joinjs.map. generalize (@nil Obj) as coll.
  revert resultSet' maps Hm Hs.
  induction resultSet as [| r rest IH]; intros [| r' rest'] maps Hm Hs coll;
    simpl in Hs; try discriminate; [reflexivity |].
  apply andb_true_iff in Hs. destruct Hs as [H1 H2].
  cbn [forEachM]. unfold bind.
  rewrite (injectResultInCollection_columns r r' (sameColumns_spec _ _ H1)
             (injectResultInObject fuel)
             (injectResultInObject_columns r r' (sameColumns_spec _ _ H1) fuel)
             coll mapId columnPrefix maps Hm).
  destruct (injectResultInCollection _ r' coll mapId columnPrefix maps)
    as [[c1 m1] | e] eqn:E; [| reflexivity].
  apply IH; [| exact H2].
  refine (Stable_declared _ _ _ _ _ E Hm).
  apply Stable_injectResultInCollection. apply Stable_injectResultInObject.
Qed.

Lemma X13_rows_read_by_column_name_witness :
  joinjs.map 2 parentRows "parent" None parentMaps
  = joinjs.map 2 reversedRows "parent" None parentMaps.
Proof.
  exact (X13_rows_read_by_column_name 2 parentRows reversedRows "parent" None
           parentMaps eq_refl eq_refl).
Defined.

(** ** The fields of associations and collections after an injection *)

Lemma forEachM_establish (f : Obj -> Nested -> M Obj) (k : string)
      (P : Obj -> Prop) :
  (forall a a' x m m', f a x m = Ok (a', m') -> n_name x = k -> P a') ->
  (forall a a' x m m', f a x m = Ok (a', m') -> n_name x <> k -> P a -> P a') ->
  forall l a a' m m',
    forEachM f l a m = Ok (a', m') -> In k (List.map n_name l) -> P a'.
Proof.
  intros Hest Hkeep.
  assert (Hinv : forall a a' x m m', f a x m = Ok (a', m') -> P a -> P a').
  { intros a a' x m m' H Ha.
    destruct (String.eqb_spec (n_name x) k) as [E | E].
    - now apply (Hest _ _ _ _ _ H).
    - now apply (Hkeep _ _ _ _ _ H). }
  induction l as [| x rest IH]; intros a a' m m' H Hin; simpl in *;
    [contradiction |].
  apply bind_Ok in H. destruct H as (a1 & m1 & H1 & H2).
  destruct Hin as [E | Hin].
  - apply (forEachM_invariant f P Hinv rest a1 a' m1 m' H2).
    now apply (Hest _ _ _ _ _ H1).
  - now apply (IH a1 a' m1 m').
Qed.

Lemma injectAssociation_value (injectObject : Injector) (result : Row)
      (o o' : Obj) (a : Nested) (m m' : Maps) :
  injectAssociation injectObject result o a m = Ok (o', m') ->
  get o' (n_name a) = null \/ exists x, get o' (n_name a) = VO x.
Proof.
  intros H. unfold injectAssociation in H.
  destruct (truthy (get o (n_name a))); cbn [negb] in H.
  - destruct (get o (n_name a)) as [s | item | items]; try discriminate.
    apply bind_Ok in H. destruct H as (x & m1 & _ & H).
    inversion H; subst. right. exists x. apply get_set_same.
  - apply bind_Ok in H. destruct H as (d & m1 & _ & H).
    apply bind_Ok in H. destruct H as (ids & m2 & _ & H).
    destruct (isNotNull _ _ _).
    + apply bind_Ok in H. destruct H as (x & m3 & _ & H).
      inversion H; subst. right. exists x. apply get_set_same.
    + inversion H; subst. left. apply get_set_same.
Qed.

(** X14: when an injection returns, every collection of the definition is a
    field of the object that holds an array, also when the row brought no
    member; and every association whose name is neither the name of a
    collection nor of a field copied from a column, and whose field was
    falsy or an object before, is a field that holds [null] or an object. *)
Theorem X14_nested_fields_always_set (fuel : nat) (result : Row) (o o' : Obj)
        (mapId : string) (columnPrefix : option string) (m m' : Maps)
        (d : ResultMap) :
  find_map m mapId = Some d ->
  injectResultInObject fuel result o mapId columnPrefix m = Ok (o', m') ->
  (forall c, In c (optList (rm_collections d)) ->
     exists items, get o' (n_name c) = VA items) /\
  (forall a, In a (optList (rm_associations d)) ->
     memb (n_name a)
          (List.map n_name (optList (rm_collections d)) ++
           copiedNames d result (defaultPrefix columnPrefix)) = false ->
     unsetOrObject (get o (n_name a)) = true ->
     get o' (n_name a) = null \/ exists x, get o' (n_name a) = VO x).
Proof.
  intros Hf H. destruct fuel as [| fuel]; [discriminate |].
  rewrite injectResultInObject_unfold in H.
  apply bind_Ok in H. destruct H as (p & m1 & H1 & H).
  rewrite (objPrelude_effective d Hf H1) in H. unfold objBody in H.
  apply bind_Ok in H. destruct H as (o3 & m3 & H3 & H4).
  rewrite forEachOpt_optList in H3, H4.
  split.
  - intros c Hc.
    apply (forEachM_establish
             (injectCollection (injectResultInObject fuel) result) (n_name c)
             (fun a => exists items, get a (n_name c) = VA items))
      with (3 := H4).
    + intros a a' x m0 m0' Hs E.
      destruct (injectCollection_inv _ _ _ _ _ _ _ Hs)
        as (items & items' & _ & _ & ->).
      exists items'. rewrite <- E. apply get_set_same.
    + intros a a' x m0 m0' Hs E [items Hi]. exists items.
      now rewrite (injectCollection_other _ _ _ _ _ _ _ _ Hs E).
    + now apply in_map.
  - intros a Ha Hnot _. apply memb_not_In in Hnot.
    assert (E : get o' (n_name a) = get o3 (n_name a)).
    { apply (forEachM_other
               (injectCollection (injectResultInObject fuel) result)
               (n_name a)) with (l := optList (rm_collections d))
                                (m := m3) (m' := m'); [| exact H4 |].
      - intros o0 o0' n m0 m0' Hs Hne.
        now apply (injectCollection_other _ _ _ _ _ _ _ _ Hs).
      - intros X. apply Hnot. apply in_or_app. now left. }
    rewrite E.
    apply (forEachM_establish
             (injectAssociation (injectResultInObject fuel) result) (n_name a)
             (fun x => get x (n_name a) = null \/
                       exists y, get x (n_name a) = VO y))
      with (3 := H3).
    + intros b b' x m0 m0' Hs E0. rewrite <- E0.
      now apply (injectAssociation_value _ _ _ _ _ _ _ Hs).
    + intros b b' x m0 m0' Hs E0 Hb.
      now rewrite (injectAssociation_other _ _ _ _ _ _ _ _ Hs E0).
    + now apply in_map.
Qed.

Lemma X14_nested_fields_always_set_witness :
  get orderOut "customer" = null \/ exists x, get orderOut "customer" = VO x.
Proof.
  exact (proj2 (X14_nested_fields_always_set 2 orderWithoutCustomer []
                  orderOut "order" None orderMaps orderMaps
                  (List.hd customerDef orderMaps) eq_refl eq_refl)
               customerAssociation (or_introl eq_refl) eq_refl eq_refl).
Defined.

(** ** The members of an array and the rows that made them *)







(** ** The array of a collection field *)







(** ** The object of an association field *)






Section AssociationField.

Variable fuel : nat.
Variables mapId prefix : string.
Variable a : Nested.
Variables pre post : list Nested.

Hypothesis names_apart :
  forall x, In x (pre ++ post)%list -> n_name x <> n_name a.



End AssociationField.

(** ** Every array after [map] *)








(** ** The field of an association *)

(** C4: an association that declares its column prefix behaves as claimed.
    When the owning object does not hold the association yet and one of
    the identity columns of the associated definition, under the prefix
    of the association, is null in the row, the field is set to null and
    the recursive call is not made (the outcome is the same whatever the
    recursive call is, and with no fuel left for it); when none is null,
    the fresh object of the associated definition's factory is injected
    with the row by the recursive call and assigned to the field, and under
    a well-formed definition it holds the key of the row.  An association
    that declares no column prefix does not: the test of line 193 reads the
    columns ['undefined' + column], so the row of a post whose tag columns
    are null gets a tag object with null fields. *)
Theorem C4_association_null_or_created :
  (row_get untaggedPost "id" = SNull /\
   injectResultInObject 2 untaggedPost [] "post" None postMaps
   = Ok (untaggedPostOut, postMaps) /\
   joinjs.map 2 [untaggedPost] "post" None postMaps
   = Ok ([untaggedPostOut], postMaps)) /\
  (forall injectObject result mappedObject association prefix maps associated,
      truthy (get mappedObject (n_name association)) = false ->
      n_columnPrefix association = Some prefix ->
      find_map maps (n_mapId association) = Some associated ->
      let idProperty := fst (getIdProperty associated) in
      let maps1 := store_map maps (snd (getIdProperty associated)) in
      ((exists f, In f idProperty /\
                  row_get result (prefix ++ column f) = SNull) ->
       injectAssociation injectObject result mappedObject association maps =
         Ok (set mappedObject (n_name association) null, maps1)) /\
      ((forall f, In f idProperty ->
                  row_get result (prefix ++ column f) <> SNull) ->
       injectAssociation injectObject result mappedObject association maps =
         match injectObject result (createMappedObject associated)
                            (n_mapId association) (Some prefix) maps1 with
         | Ok (o, maps2) =>
             Ok (set mappedObject (n_name association) (VO o), maps2)
         | Throw e => Throw e
         end)) /\
  (forall fuel result mappedObject association prefix maps associated o' maps',
      truthy (get mappedObject (n_name association)) = false ->
      n_columnPrefix association = Some prefix ->
      find_map maps (n_mapId association) = Some associated ->
      wellFormed associated = true ->
      let idProperty := fst (getIdProperty associated) in
      let maps1 := store_map maps (snd (getIdProperty associated)) in
      (forall f, In f idProperty ->
                 row_get result (prefix ++ column f) <> SNull) ->
      injectAssociation (injectResultInObject fuel) result mappedObject
                        association maps = Ok (o', maps') ->
      exists o,
        injectResultInObject fuel result (createMappedObject associated)
                             (n_mapId association) (Some prefix) maps1
        = Ok (o, maps') /\
        o' = set mappedObject (n_name association) (VO o) /\
        holdsKey result prefix idProperty o) /\
  injectAssociation (injectResultInObject 0) orderWithoutCustomer
                    [("id", VS (SNum 7))] customerAssociation orderMaps
  = Ok ([("id", VS (SNum 7)); ("customer", null)], orderMaps) /\
  injectAssociation (injectResultInObject 1) orderWithCustomer
                    [("id", VS (SNum 7))] customerAssociation factoryOrderMaps
  = Ok ([("id", VS (SNum 7));
         ("customer", VO [("kind", VS (SStr "customer"));
                          ("id", VS (SNum 5)); ("name", VS (SStr "Ann"))])],
        factoryOrderMaps).
Proof.
  split; [repeat split |]. split; [| split; [| split; reflexivity]].
  - intros injectObject result mappedObject association prefix maps associated.
    apply injectAssociation_unset.
  - intros fuel result mappedObject association prefix maps associated o' maps'
           Ht Hp Hf Hwf idProperty maps1 Hnn H.
    rewrite (proj2 (injectAssociation_unset _ result mappedObject association
                      prefix maps associated Ht Hp Hf) Hnn) in H.
    fold maps1 in H.
    destruct (injectResultInObject fuel result (createMappedObject associated)
                (n_mapId association) (Some prefix) maps1)
      as [[o m2] |] eqn:E; [| discriminate].
    inversion H; subst. exists o. split; [reflexivity |].
    split; [reflexivity |].
    assert (Hf1 : find_map maps1 (n_mapId association)
                  = Some (snd (getIdProperty associated))).
    { apply (find_store_same _ Hf). rewrite getIdProperty_mapId.
      now apply find_map_mapId with maps. }
    assert (Hwf1 : wellFormed (snd (getIdProperty associated)) = true)
      by (apply (wellFormed_le associated); [apply rm_le_norm | exact Hwf]).
    pose proof (injectResultInObject_holdsKey _ _ _ _ _ _ _ _ _ Hf1 Hwf1 E)
      as Hk.
    rewrite getIdProperty_idem in Hk. cbn [defaultPrefix] in Hk.
    apply Hk. intros g Hg. right.
    now apply (proj2 (proj2 (proj2 (wellFormed_inv associated Hwf)))).
Qed.

(** An order whose customer columns are null gets a null customer. *)
Lemma C4_association_null_or_created_witness :
  injectAssociation (injectResultInObject 1) orderWithoutCustomer
                    [("id", VS (SNum 7))] customerAssociation orderMaps
  = Ok ([("id", VS (SNum 7)); ("customer", null)], orderMaps).
Proof.
  refine (proj1 (proj1 (proj2 C4_association_null_or_created)
                   (injectResultInObject 1) orderWithoutCustomer
                   [("id", VS (SNum 7))] customerAssociation "customer_"
                   orderMaps customerDef eq_refl eq_refl eq_refl) _).
  exists (mkIdField "id" "id"). split; [now left | reflexivity].
Defined.

(** ** The theorems on the scenario of the specification *)


